(** * TelethonMessageConverter: message text + entities -> markup

    A shallow embedding of [TelethonMessageConverter.py] (class
    [MessageToSyntax]) and the properties of its conversion algorithm.

    Python values are modelled as follows.
    - [str]: a list of Unicode code points ([N]).
    - [bytes]: a list of byte values ([N], each below 256).
    - [int]: [Z].
    - [list]: a list, appended to at its end.
    - a raised exception: the [Raise] case of [result].
    - [dict]: stdpp's [gmap]; the tag dictionaries are keyed by the class
      names of the entities, as in the source. *)

From Stdlib Require Import ZArith NArith List String Ascii Lia.
From stdpp Require Import base option list gmap sorting strings.
Import ListNotations.

#[local] Set Warnings "-clear-no-such-hyp".
Local Open Scope N_scope.

(** ** Python values and exceptions *)

Abbreviation str := (list N) (only parsing).
Abbreviation bytes := (list N) (only parsing).

(** A string literal of the source, as code points (ASCII only). *)
Definition lit (s : string) : str :=
  map N_of_ascii (list_ascii_of_string s).

Inductive exn :=
  | UnicodeEncodeError
  | UnicodeDecodeError
  | IndexError
  | KeyError
  | AttributeError.

Inductive result (A : Type) :=
  | Ok (a : A)
  | Raise (e : exn).
Arguments Ok {A} a.
Arguments Raise {A} e.

(** Statements run in sequence until one raises. *)
Global Instance result_bind : MBind result := fun A B k r =>
  match r with
  | Ok a => k a
  | Raise e => Raise e
  end.

Lemma bind_Ok {A B} (a : A) (k : A -> result B) : (Ok a ≫= k) = k a.
Proof. reflexivity. Qed.

(** ** UTF-16-LE, as [str.encode] and [bytes.decode] do it (strict) *)

Module Utf16.

Definition is_high (u : N) : bool := (0xD800 <=? u) && (u <=? 0xDBFF).
Definition is_low (u : N) : bool := (0xDC00 <=? u) && (u <=? 0xDFFF).
Definition is_surrogate (u : N) : bool := (0xD800 <=? u) && (u <=? 0xDFFF).

(** The two bytes of a 16-bit unit, low byte first. *)
Definition unit_bytes (u : N) : bytes := [u mod 256; u / 256].

(** A Unicode scalar value: a code point that is no surrogate. *)
Definition scalar (c : N) : Prop :=
  c < 0xD800 \/ (0xDFFF < c /\ c <= 0x10FFFF).

(** One unit for the basic plane, a surrogate pair above it. *)
Definition char_units (c : N) : list N :=
  if c <? 0x10000 then [c]
  else
    let v := c - 0x10000 in
    [0xD800 + v / 0x400; 0xDC00 + v mod 0x400].

Definition char_bytes (c : N) : bytes := flat_map unit_bytes (char_units c).

(** A lone surrogate cannot be encoded; no [str] holds a code point
    above U+10FFFF. *)
Definition encode_char (c : N) : result bytes :=
  if is_surrogate c || (0x10FFFF <? c) then Raise UnicodeEncodeError
  else Ok (char_bytes c).

Fixpoint encode (s : str) : result bytes :=
  match s with
  | [] => Ok []
  | c :: s' =>
      b ← encode_char c;
      bs ← encode s';
      Ok (b ++ bs)
  end.

Fixpoint decode (bs : bytes) : result str :=
  match bs with
  | [] => Ok []
  | [_] => Raise UnicodeDecodeError
  | b0 :: b1 :: rest =>
      let u := b0 + 256 * b1 in
      if is_low u then Raise UnicodeDecodeError
      else if is_high u then
        match rest with
        | b2 :: b3 :: rest' =>
            let v := b2 + 256 * b3 in
            if is_low v then
              s ← decode rest';
              Ok (0x10000 + (u - 0xD800) * 0x400 + (v - 0xDC00) :: s)
            else Raise UnicodeDecodeError
        | _ => Raise UnicodeDecodeError
        end
      else
        s ← decode rest;
        Ok (u :: s)
  end.

End Utf16.

(** ** Slices, [str.replace], [html.escape], [str.lower] *)

(** [l[i:j]] with Python's clamping of negative and out-of-range
    indices; [None] stands for an omitted upper bound. *)
Definition clamp (len i : Z) : Z :=
  if (i <? 0)%Z then Z.max (i + len) 0 else Z.min i len.

Definition py_slice {A} (l : list A) (i : Z) (j : option Z) : list A :=
  let len := Z.of_nat (length l) in
  let start := clamp len i in
  let stop := match j with Some j => clamp len j | None => len end in
  take (Z.to_nat (stop - start)) (drop (Z.to_nat start) l).

(** [s.replace(c, r)] for a one-character pattern [c]. *)
Definition replace (c : N) (r : str) (s : str) : str :=
  flat_map (fun x => if x =? c then r else [x]) s.

Definition NL : N := 10.

(** [html.escape(s)] with its default [quote=True]: five replacements,
    the ampersand first. *)
Definition escape (s : str) : str :=
  let s := replace 38 (lit "&amp;") s in
  let s := replace 60 (lit "&lt;") s in
  let s := replace 62 (lit "&gt;") s in
  let s := replace 34 (lit "&quot;") s in
  let s := replace 39 (lit "&#x27;") s in
  s.

(** [html.escape] applied to an [int]: the call [s.replace] raises,
    an [int] has no such attribute. *)
Definition escape_int (n : Z) : result str := Raise AttributeError.

(** [str.lower], as far as the comparison with the five ASCII syntax
    names can observe it: the ASCII capitals and KELVIN SIGN (U+212A,
    whose lowercase is [k]) are mapped; every other code point lowercases
    to non-ASCII text or to itself, and is left alone here. *)
Definition lower_char (c : N) : N :=
  if (65 <=? c) && (c <=? 90) then c + 32
  else if c =? 0x212A then 107
  else c.

Definition lower (s : str) : str := map lower_char s.

(** ** Data model *)

Record _Tag := Tag { opening : str; closing : str }.

Global Instance _Tag_eq_dec : EqDecision _Tag.
Proof. solve_decision. Defined.

Record _PositionChange := PositionChange {
  to_open : list _Tag;
  to_close : list _Tag;
  br : bool
}.

(** The classes of [TypeMessageEntity]. *)
Inductive entity_kind :=
  | MessageEntityBankCard
  | MessageEntityBlockquote
  | MessageEntityBold
  | MessageEntityBotCommand
  | MessageEntityCashtag
  | MessageEntityCode
  | MessageEntityCustomEmoji
  | MessageEntityEmail
  | MessageEntityHashtag
  | MessageEntityItalic
  | MessageEntityMention
  | MessageEntityMentionName
  | MessageEntityPhone
  | MessageEntityPre
  | MessageEntitySpoiler
  | MessageEntityStrike
  | MessageEntityTextUrl
  | MessageEntityUnderline
  | MessageEntityUnknown
  | MessageEntityUrl
  | InputMessageEntityMentionName.

Global Instance entity_kind_eq_dec : EqDecision entity_kind.
Proof. solve_decision. Defined.

(** [type(e).__name__] *)
Definition type_name (k : entity_kind) : string :=
  match k with
  | MessageEntityBankCard => "MessageEntityBankCard"
  | MessageEntityBlockquote => "MessageEntityBlockquote"
  | MessageEntityBold => "MessageEntityBold"
  | MessageEntityBotCommand => "MessageEntityBotCommand"
  | MessageEntityCashtag => "MessageEntityCashtag"
  | MessageEntityCode => "MessageEntityCode"
  | MessageEntityCustomEmoji => "MessageEntityCustomEmoji"
  | MessageEntityEmail => "MessageEntityEmail"
  | MessageEntityHashtag => "MessageEntityHashtag"
  | MessageEntityItalic => "MessageEntityItalic"
  | MessageEntityMention => "MessageEntityMention"
  | MessageEntityMentionName => "MessageEntityMentionName"
  | MessageEntityPhone => "MessageEntityPhone"
  | MessageEntityPre => "MessageEntityPre"
  | MessageEntitySpoiler => "MessageEntitySpoiler"
  | MessageEntityStrike => "MessageEntityStrike"
  | MessageEntityTextUrl => "MessageEntityTextUrl"
  | MessageEntityUnderline => "MessageEntityUnderline"
  | MessageEntityUnknown => "MessageEntityUnknown"
  | MessageEntityUrl => "MessageEntityUrl"
  | InputMessageEntityMentionName => "InputMessageEntityMentionName"
  end.

(** An entity: its class, [offset] and [length] in UTF-16 units (the
    field is [length_] here, [length] being the length of lists), and
    the fields only some classes carry ([url] of a text URL, [language]
    of a pre block, [user_id] of a mention by id, an [int]); a field is
    read only by the tag makers of the class that has it. *)
Record entity := Entity {
  kind : entity_kind;
  offset : Z;
  length_ : Z;
  url : str;
  language : str;
  user_id : Z
}.

(** A value of a tag dictionary: [None], a [_Tag], or a
    [_TagMakerFunction]. *)
Inductive dict_value :=
  | PyNone
  | PyTag (t : _Tag)
  | PyFunc (f : entity -> str -> result _Tag).

Record MessageToSyntax := Self {
  _message : str;
  _entities : option (list entity);
  output : str;
  _message_b16 : bytes;
  _positions : gmap Z _PositionChange;
  _ENTITIES_TO_TAG : gmap string dict_value
}.

(** [for x in l: body], the state threaded through the iterations. *)
Fixpoint for_ {A S} (l : list A) (body : A -> S -> result S) (s : S)
  : result S :=
  match l with
  | [] => Ok s
  | x :: l' => s' ← body x s; for_ l' body s'
  end.

(** [l.pop()] *)
Definition pop {A} (l : list A) : result (list A) :=
  match l with
  | [] => Raise IndexError
  | _ => Ok (removelast l)
  end.

(** ** The tag dictionaries of [set_syntax_dict] *)

Definition docuwiki_dict : gmap string dict_value :=
  list_to_map [
    ("MessageEntityBankCard", PyNone);
    ("MessageEntityBlockquote", PyTag (Tag (lit "> ") []));
    ("MessageEntityBold", PyTag (Tag (lit "**") (lit "**")));
    ("MessageEntityBotCommand", PyNone);
    ("MessageEntityCashtag", PyNone);
    ("MessageEntityCode", PyTag (Tag ([NL] ++ lit "  ") []));
    ("MessageEntityCustomEmoji", PyNone);
    ("MessageEntityEmail", PyFunc (fun e s =>
       Ok (Tag (lit "[[mailto:" ++ escape s ++ lit "|") (lit "]]"))));
    ("MessageEntityHashtag", PyNone);
    ("MessageEntityItalic", PyTag (Tag (lit "//") (lit "//")));
    ("MessageEntityMention", PyFunc (fun e s =>
       Ok (Tag (lit "[[https://t.me/" ++ escape s ++ lit "|") (lit "]]"))));
    ("MessageEntityMentionName", PyFunc (fun e s =>
       u ← escape_int (user_id e);
       Ok (Tag (lit "[[https://t.me/" ++ u ++ lit "|") (lit "]]"))));
    ("MessageEntityPhone", PyFunc (fun e s =>
       Ok (Tag (lit "[[tel:" ++ escape s ++ lit "|") (lit "]]"))));
    ("MessageEntityPre", PyFunc (fun e s =>
       Ok (Tag (lit "<pre language=" ++ [34] ++ escape (language e)
                  ++ [34] ++ lit ">") (lit "</pre>"))));
    ("MessageEntitySpoiler", PyTag (Tag (lit "??") (lit "??")));
    ("MessageEntityStrike", PyTag (Tag (lit "<del>") (lit "</del>>")));
    ("MessageEntityTextUrl", PyFunc (fun e s =>
       Ok (Tag (lit "[[" ++ escape (url e) ++ lit "|") (lit "]]"))));
    ("MessageEntityUnderline", PyTag (Tag (lit "__") (lit "__")));
    ("MessageEntityUnknown", PyNone);
    ("MessageEntityUrl", PyFunc (fun e s =>
       Ok (Tag (lit "[[" ++ escape s ++ lit "|") (lit "]]"))));
    ("TagsParagraph", PyTag (Tag [] [NL]));
    ("TagsNewline", PyTag (Tag [] [NL]))
  ]%string.

Definition markdown_dict : gmap string dict_value :=
  list_to_map [
    ("MessageEntityBankCard", PyNone);
    ("MessageEntityBlockquote", PyTag (Tag (lit "> ") []));
    ("MessageEntityBold", PyTag (Tag (lit "**") (lit "**")));
    ("MessageEntityBotCommand", PyNone);
    ("MessageEntityCashtag", PyNone);
    ("MessageEntityCode", PyTag (Tag (lit "`") (lit "`")));
    ("MessageEntityCustomEmoji", PyNone);
    ("MessageEntityEmail", PyFunc (fun e s =>
       Ok (Tag (lit "[") (lit "](mailto:" ++ escape s ++ lit ")"))));
    ("MessageEntityHashtag", PyNone);
    ("MessageEntityItalic", PyTag (Tag (lit "*") (lit "*")));
    ("MessageEntityMention", PyFunc (fun e s =>
       Ok (Tag (lit "[") (lit "](https://t.me/" ++ escape s ++ lit ")"))));
    ("MessageEntityMentionName", PyFunc (fun e s =>
       u ← escape_int (user_id e);
       Ok (Tag (lit "[") (lit "](https://t.me/" ++ u ++ lit ")"))));
    ("MessageEntityPhone", PyFunc (fun e s =>
       Ok (Tag (lit "[") (lit "](tel:" ++ escape s ++ lit ")"))));
    ("MessageEntityPre", PyFunc (fun e s =>
       Ok (Tag (lit "```" ++ escape (language e) ++ [NL])
               ([NL] ++ lit "```"))));
    ("MessageEntitySpoiler", PyTag (Tag (lit "||") (lit "||")));
    ("MessageEntityStrike", PyTag (Tag (lit "~~") (lit "~~")));
    ("MessageEntityTextUrl", PyFunc (fun e s =>
       Ok (Tag (lit "[") (lit "](tel:" ++ escape (url e) ++ lit ")"))));
    ("MessageEntityUnderline", PyTag (Tag (lit "__") (lit "__")));
    ("MessageEntityUnknown", PyNone);
    ("MessageEntityUrl", PyFunc (fun e s =>
       Ok (Tag (lit "[") (lit "](" ++ escape s ++ lit ")"))));
    ("TagsParagraph", PyTag (Tag [] [NL]));
    ("TagsNewline", PyTag (Tag [] [NL]))
  ]%string.

(** [a_href p x] is the text [<a href="p x">] *)
Definition a_href (prefix x : str) : str :=
  lit "<a href=" ++ [34] ++ prefix ++ x ++ [34] ++ lit ">".

Definition html_dict : gmap string dict_value :=
  list_to_map [
    ("MessageEntityBankCard", PyNone);
    ("MessageEntityBlockquote",
       PyTag (Tag (lit "<blockquote>") (lit "</blockquote>")));
    ("MessageEntityBold", PyTag (Tag (lit "<b>") (lit "</b>")));
    ("MessageEntityBotCommand", PyNone);
    ("MessageEntityCashtag", PyNone);
    ("MessageEntityCode", PyTag (Tag (lit "<pre>") (lit "</pre>")));
    ("MessageEntityCustomEmoji", PyNone);
    ("MessageEntityEmail", PyFunc (fun e s =>
       Ok (Tag (a_href (lit "mailto:") (escape s)) (lit "</a>"))));
    ("MessageEntityHashtag",
       PyTag (Tag (a_href [] (lit "#")) (lit "</a>")));
    ("MessageEntityItalic", PyTag (Tag (lit "<i>") (lit "</i>")));
    ("MessageEntityMention", PyFunc (fun e s =>
       Ok (Tag (a_href (lit "https://t.me/") (escape s)) (lit "</a>"))));
    ("MessageEntityMentionName", PyFunc (fun e s =>
       u ← escape_int (user_id e);
       Ok (Tag (a_href (lit "https://t.me/") u) (lit "</a>"))));
    ("MessageEntityPhone", PyFunc (fun e s =>
       Ok (Tag (a_href (lit "tel:") (escape s)) (lit "</a>"))));
    ("MessageEntityPre", PyFunc (fun e s =>
       Ok (Tag (lit "<pre language=" ++ [34] ++ escape (language e)
                  ++ [34] ++ lit ">") (lit "</pre>"))));
    ("MessageEntitySpoiler", PyTag (Tag (lit "[") (lit "]")));
    ("MessageEntityStrike", PyTag (Tag (lit "<s>") (lit "</s>")));
    ("MessageEntityTextUrl", PyFunc (fun e s =>
       Ok (Tag (a_href [] (escape (url e))) (lit "</a>"))));
    ("MessageEntityUnderline",
       PyTag (Tag (lit "<span style=" ++ [34]
                     ++ lit "text-decoration: underline" ++ [34] ++ lit ">")
                  (lit "</span>")));
    ("MessageEntityUnknown", PyNone);
    ("MessageEntityUrl", PyFunc (fun e s =>
       Ok (Tag (a_href [] (escape s)) (lit "</a>"))));
    ("TagsParagraph", PyTag (Tag (lit "<p>") (lit "</p>")));
    ("TagsNewline", PyTag (Tag [] (lit "<br />")))
  ]%string.

(** The default case: plain text. The quotation marks of a block quote
    are U+00AB and U+00BB. *)
Definition text_dict : gmap string dict_value :=
  list_to_map [
    ("MessageEntityBankCard", PyNone);
    ("MessageEntityBlockquote", PyTag (Tag [0xAB] [0xBB]));
    ("MessageEntityBold", PyNone);
    ("MessageEntityBotCommand", PyNone);
    ("MessageEntityCashtag", PyNone);
    ("MessageEntityCode", PyNone);
    ("MessageEntityCustomEmoji", PyNone);
    ("MessageEntityEmail", PyNone);
    ("MessageEntityHashtag", PyNone);
    ("MessageEntityItalic", PyNone);
    ("MessageEntityMention", PyNone);
    ("MessageEntityMentionName", PyFunc (fun e s =>
       u ← escape_int (user_id e);
       Ok (Tag [] (lit " (" ++ u ++ lit ")"))));
    ("MessageEntityPhone", PyNone);
    ("MessageEntityPre", PyNone);
    ("MessageEntitySpoiler", PyNone);
    ("MessageEntityStrike", PyNone);
    ("MessageEntityTextUrl", PyFunc (fun e s =>
       Ok (Tag [] (lit " (" ++ escape (url e) ++ lit ")"))));
    ("MessageEntityUnderline", PyNone);
    ("MessageEntityUnknown", PyNone);
    ("MessageEntityUrl", PyNone);
    ("TagsParagraph", PyTag (Tag [] [NL]));
    ("TagsNewline", PyTag (Tag [] [NL]))
  ]%string.

Definition set_syntax_dict (type : str) : gmap string dict_value :=
  let t := lower type in
  if decide (t = lit "docuwiki" \/ t = lit "dw") then docuwiki_dict
  else if decide (t = lit "markdown" \/ t = lit "md") then markdown_dict
  else if decide (t = lit "html") then html_dict
  else text_dict.

(** ** The methods of [MessageToSyntax]

    A method reads some fields of [self] and changes one: the fields it
    reads are arguments here, and the field it changes ([_positions] in
    the builder, [output] and the local [opened_tags] in the main loop)
    is passed in and returned. *)

(** [MessageToSyntax(message, entities)] *)
Definition __init__ (message : str) (entities : option (list entity))
  : result MessageToSyntax :=
  b16 ← Utf16.encode message;
  Ok (Self message entities [] b16 ∅ ∅).

Definition _ensure_position_exists (i : Z)
  (positions : gmap Z _PositionChange) : gmap Z _PositionChange :=
  match positions !! i with
  | Some _ => positions
  | None => <[i := PositionChange [] [] false]> positions
  end.

(** [self._positions[i]] *)
Definition position (positions : gmap Z _PositionChange) (i : Z)
  : result _PositionChange :=
  match positions !! i with
  | Some pc => Ok pc
  | None => Raise KeyError
  end.

(** An in-place change of the record [self._positions[i]]. *)
Definition update_position (i : Z) (f : _PositionChange -> _PositionChange)
  (positions : gmap Z _PositionChange) : result (gmap Z _PositionChange) :=
  pc ← position positions i;
  Ok (<[i := f pc]> positions).

Definition set_br (pc : _PositionChange) : _PositionChange :=
  PositionChange (to_open pc) (to_close pc) true.

(** [pc.to_open.append(tag)] *)
Definition append_open (tag : _Tag) (pc : _PositionChange) : _PositionChange :=
  PositionChange (to_open pc ++ [tag]) (to_close pc) (br pc).

(** [pc.to_close.insert(0, tag)] *)
Definition insert_close (tag : _Tag) (pc : _PositionChange) : _PositionChange :=
  PositionChange (to_open pc) (tag :: to_close pc) (br pc).

(** The body of the loop of [_prepare_br_positions], at index [i]. *)
Definition br_position (message : str) (i : nat)
  (positions : gmap Z _PositionChange) : result (gmap Z _PositionChange) :=
  if decide (message !! i = Some NL) then
    b ← Utf16.encode (take i message);
    let i := Z.of_nat (length b) in
    update_position i set_br (_ensure_position_exists i positions)
  else Ok positions.

Definition _prepare_br_positions (message : str)
  (positions : gmap Z _PositionChange) : result (gmap Z _PositionChange) :=
  for_ (seq 0 (length message)) (br_position message) positions.

(** The bounds of an entity in bytes: two bytes a unit. *)
Definition start_of (e : entity) : Z := (offset e * 2)%Z.
Definition end_of (e : entity) : Z := ((offset e + length_ e) * 2)%Z.

(** The tag of one entity: [None] when the dictionary has [None] for its
    class, the [_Tag] of the dictionary, or the one its function makes
    from the entity and the text it covers. *)
Definition entity_tag (d : gmap string dict_value) (message_b16 : bytes)
  (e : entity) : result (option _Tag) :=
  match d !! type_name (kind e) with
  | None => Raise KeyError
  | Some PyNone => Ok None
  | Some (PyTag t) => Ok (Some t)
  | Some (PyFunc f) =>
      let txt_bytes :=
        py_slice message_b16 (start_of e) (Some (end_of e)) in
      txt ← Utf16.decode txt_bytes;
      tag ← f e txt;
      Ok (Some tag)
  end.

(** The body of the loop of [_prepare_entity_positions_utf16le]. *)
Definition entity_positions (d : gmap string dict_value) (message_b16 : bytes)
  (e : entity) (positions : gmap Z _PositionChange)
  : result (gmap Z _PositionChange) :=
  let start := start_of e in
  let end_ := end_of e in
  let positions := _ensure_position_exists start positions in
  let positions := _ensure_position_exists end_ positions in
  tag ← entity_tag d message_b16 e;
  match tag with
  | None => Ok positions
  | Some tag =>
      positions ← update_position start (append_open tag) positions;
      update_position end_ (insert_close tag) positions
  end.

Definition _prepare_entity_positions_utf16le (d : gmap string dict_value)
  (message_b16 : bytes) (entities : option (list entity))
  (positions : gmap Z _PositionChange) : result (gmap Z _PositionChange) :=
  match entities with
  | None | Some [] => Ok positions
  | Some entities => for_ entities (entity_positions d message_b16) positions
  end.

(** [d.get(key, default)], the value then used as a [_Tag]. *)
Definition get_tag (d : gmap string dict_value) (key : string)
  (default : _Tag) : result _Tag :=
  match d !! key with
  | None => Ok default
  | Some (PyTag t) => Ok t
  | Some _ => Raise AttributeError
  end.

(** [d['MessageEntityCode'] in opened_tags] *)
Definition code_is_open (d : gmap string dict_value) (opened_tags : list _Tag)
  : result bool :=
  match d !! "MessageEntityCode"%string with
  | None => Raise KeyError
  | Some (PyTag t) => Ok (bool_decide (t ∈ opened_tags))
  | Some _ => Ok false
  end.

(** The body of the loop "Close tags". *)
Definition close_tag (t : _Tag) (st : list _Tag * str)
  : result (list _Tag * str) :=
  let '(opened_tags, output) := st in
  opened_tags ← pop opened_tags;
  Ok (opened_tags, output ++ closing t).

(** The body of the loop "Open tags". *)
Definition open_tag (t : _Tag) (st : list _Tag * str)
  : result (list _Tag * str) :=
  let '(opened_tags, output) := st in
  Ok (opened_tags ++ [t], output ++ opening t).

Section main_loop.

(** What the loop reads and never changes. *)
Variable d : gmap string dict_value.
Variable message_b16 : bytes.
Variable positions : gmap Z _PositionChange.
Variables tag_paragraph tag_newline : _Tag.

(** "Handle line breaks", when the flag of the point is set. *)
Definition line_break (st : list _Tag * str) : result (list _Tag * str) :=
  let '(opened_tags, output) := st in
  c ← code_is_open d opened_tags;
  if (c : bool) then Ok (opened_tags, output ++ closing tag_newline)
  else Ok (opened_tags,
           output ++ (closing tag_paragraph ++ opening tag_paragraph)).

(** The markup of one separation point: close tags, handle the line
    break, open tags. *)
Definition markup (index : Z) (st : list _Tag * str)
  : result (list _Tag * str) :=
  (* Close tags *)
  pc ← position positions index;
  st ← for_ (to_close pc) close_tag st;
  (* Handle line breaks *)
  pc ← position positions index;
  st ← (if br pc then line_break st else Ok st);
  (* Open tags *)
  pc ← position positions index;
  for_ (to_open pc) open_tag st.

(** One round of the main loop, at [index], [rest] being the
    separation points after it. *)
Definition main_loop_body (index : Z) (rest : list Z)
  (st : list _Tag * str) : result (list _Tag * str) :=
  next_index ←
    (if decide (index ≠ Z.of_nat (length message_b16)) then
       match rest with
       | n :: _ => Ok (Some n)
       | [] => Raise IndexError
       end
     else Ok None);
  unchanged_part ← Utf16.decode (py_slice message_b16 index next_index);
  '(opened_tags, output) ← markup index st;
  (* Append text without changes, removing \n *)
  Ok (opened_tags, output ++ escape (replace NL [] unchanged_part)).

Fixpoint main_loop (separations_points : list Z) (st : list _Tag * str)
  : result (list _Tag * str) :=
  match separations_points with
  | [] => Ok st
  | index :: rest =>
      st ← main_loop_body index rest st;
      main_loop rest st
  end.

End main_loop.

(** [not self._entities] *)
Definition no_entities (entities : option (list entity)) : bool :=
  match entities with
  | None | Some [] => true
  | Some _ => false
  end.

(** [sorted(self._positions.keys())] *)
Definition sorted_keys (positions : gmap Z _PositionChange) : list Z :=
  merge_sort Z.le (map fst (map_to_list positions)).

(** "Wrap the result in paragraph tags if necessary" *)
Definition wrap (tag_paragraph : _Tag) (output : str) : str :=
  if bool_decide (opening tag_paragraph ≠ [] \/ closing tag_paragraph ≠ [])
  then opening tag_paragraph ++ output ++ closing tag_paragraph
  else output.

(** The position index of a conversion with the dictionary [d], as
    [to_syntax] builds it before its main loop. *)
Definition prepare_positions (d : gmap string dict_value)
  (self : MessageToSyntax) : result (gmap Z _PositionChange) :=
  (* Ensure that start and end positions exist *)
  let positions := _ensure_position_exists 0 (_positions self) in
  let positions :=
    _ensure_position_exists (Z.of_nat (length (_message_b16 self)))
      positions in
  (* Prepare tag positions and line breaks *)
  positions ←
    _prepare_entity_positions_utf16le d (_message_b16 self) (_entities self)
      positions;
  _prepare_br_positions (_message self) positions.

(** [to_syntax(type)]: the returned string and the object after the
    call. *)
Definition to_syntax (type : str) (self : MessageToSyntax)
  : result (str * MessageToSyntax) :=
  if no_entities (_entities self) && bool_decide (NL ∉ _message self) then
    Ok (_message self,
        Self (_message self) (_entities self) (_message self)
             (_message_b16 self) (_positions self) (_ENTITIES_TO_TAG self))
  else
    (* Load the dictionary of tags *)
    let d := set_syntax_dict type in
    tag_paragraph ← get_tag d "TagsParagraph" (Tag [] []);
    tag_newline ← get_tag d "TagsNewline" (Tag [] [NL]);
    positions ← prepare_positions d self;
    let separations_points := sorted_keys positions in
    (* Main loop for generating tags *)
    '(opened_tags, output) ←
      main_loop d (_message_b16 self) positions tag_paragraph tag_newline
        separations_points ([], output self);
    (* Wrap the result in paragraph tags if necessary *)
    let output := wrap tag_paragraph output in
    Ok (output,
        Self (_message self) (_entities self) output (_message_b16 self)
             positions d).

(** A conversion: build the object, call [to_syntax] once. *)
Definition convert (message : str) (entities : option (list entity))
  (type : str) : result str :=
  self ← __init__ message entities;
  r ← to_syntax type self;
  Ok r.1.

(** The position index of the conversion of a new object. *)
Definition position_index (message : str) (entities : option (list entity))
  (type : str) : result (gmap Z _PositionChange) :=
  self ← __init__ message entities;
  prepare_positions (set_syntax_dict type) self.

(** Entities of the classes without fields of their own. *)
Definition ent (k : entity_kind) (off len : Z) : entity :=
  Entity k off len [] [] 0.

(** * Properties *)

(** ** UTF-16: lengths, slices, and decoding what was encoded *)

Module Utf16Facts.
Import Utf16.

(** The text a [str] without lone surrogates encodes to. *)
Definition enc (s : str) : bytes := flat_map char_bytes s.

(** Its length in 16-bit units, and in bytes. *)
Definition units (s : str) : Z := Z.of_nat (length (flat_map char_units s)).
Definition size (s : str) : Z := Z.of_nat (length (enc s)).

Lemma encode_char_scalar c : scalar c -> encode_char c = Ok (char_bytes c).
Proof.
  unfold scalar, encode_char, is_surrogate. intros H.
  destruct (0xD800 <=? c) eqn:E1, (c <=? 0xDFFF) eqn:E2,
    (0x10FFFF <? c) eqn:E3; simpl; try reflexivity;
    apply N.leb_le in E1 || apply N.leb_gt in E1;
    apply N.leb_le in E2 || apply N.leb_gt in E2;
    apply N.ltb_lt in E3 || apply N.ltb_ge in E3; lia.
Qed.

Lemma encode_char_Ok c b : encode_char c = Ok b -> scalar c /\ b = char_bytes c.
Proof.
  unfold scalar, encode_char, is_surrogate.
  destruct (0xD800 <=? c) eqn:E1, (c <=? 0xDFFF) eqn:E2,
    (0x10FFFF <? c) eqn:E3; simpl; intros [= <-]; split; try reflexivity;
    apply N.leb_le in E1 || apply N.leb_gt in E1;
    apply N.leb_le in E2 || apply N.leb_gt in E2;
    apply N.ltb_lt in E3 || apply N.ltb_ge in E3; lia.
Qed.

Lemma encode_scalar s : Forall scalar s -> encode s = Ok (enc s).
Proof.
  induction 1 as [|c s Hc _ IH]; [reflexivity|].
  simpl. rewrite (encode_char_scalar c Hc). simpl. rewrite IH. reflexivity.
Qed.

Lemma encode_Ok s b : encode s = Ok b -> Forall scalar s /\ b = enc s.
Proof.
  revert b. induction s as [|c s IH]; simpl; intros b.
  - intros [= <-]. split; [constructor | reflexivity].
  - destruct (encode_char c) as [bc|] eqn:Ec; [|discriminate].
    apply encode_char_Ok in Ec as [Hc ->]. simpl.
    destruct (encode s) as [bs|]; [|discriminate].
    destruct (IH bs eq_refl) as [Hs ->]. simpl. intros [= <-].
    split; [by constructor | reflexivity].
Qed.

Lemma enc_app s t : enc (s ++ t) = enc s ++ enc t.
Proof. unfold enc. apply flat_map_app. Qed.

Lemma size_app s t : size (s ++ t) = (size s + size t)%Z.
Proof. unfold size. rewrite enc_app, length_app. lia. Qed.

Lemma char_units_length c :
  length (char_units c) = 1%nat \/ length (char_units c) = 2%nat.
Proof. unfold char_units. destruct (c <? 0x10000); auto. Qed.

Lemma char_bytes_length c :
  length (char_bytes c) = (2 * length (char_units c))%nat.
Proof. unfold char_bytes, char_units. by destruct (c <? 0x10000). Qed.

Lemma size_units s : size s = (units s * 2)%Z.
Proof.
  unfold size, units, enc. induction s as [|c s IH]; [reflexivity|].
  simpl. rewrite !length_app, char_bytes_length. lia.
Qed.

Lemma size_nonneg s : (0 <= size s)%Z.
Proof. unfold size. lia. Qed.

Lemma size_cons c s : (size [c] + size s = size (c :: s))%Z.
Proof. by rewrite <- size_app. Qed.

Lemma size_char_pos c : (2 <= size [c])%Z.
Proof.
  unfold size, enc. simpl. rewrite app_nil_r, char_bytes_length.
  destruct (char_units_length c); lia.
Qed.

Lemma size_pos s : s <> [] -> (2 <= size s)%Z.
Proof.
  destruct s as [|c s]; [done|]. intros _.
  pose proof (size_cons c s). pose proof (size_char_pos c).
  pose proof (size_nonneg s). lia.
Qed.

Lemma decode_unit b0 b1 rest :
  decode (b0 :: b1 :: rest) =
    let u := b0 + 256 * b1 in
    if is_low u then Raise UnicodeDecodeError
    else if is_high u then
      match rest with
      | b2 :: b3 :: rest' =>
          let v := b2 + 256 * b3 in
          if is_low v then
            s ← decode rest';
            Ok (0x10000 + (u - 0xD800) * 0x400 + (v - 0xDC00) :: s)
          else Raise UnicodeDecodeError
      | _ => Raise UnicodeDecodeError
      end
    else
      s ← decode rest;
      Ok (u :: s).
Proof. reflexivity. Qed.

Lemma unit_of_bytes u : u mod 256 + 256 * (u / 256) = u.
Proof. rewrite N.add_comm. symmetry. apply N.div_mod. lia. Qed.

Lemma is_low_spec u : is_low u = true <-> 0xDC00 <= u <= 0xDFFF.
Proof. unfold is_low. rewrite andb_true_iff, !N.leb_le. tauto. Qed.

Lemma is_high_spec u : is_high u = true <-> 0xD800 <= u <= 0xDBFF.
Proof. unfold is_high. rewrite andb_true_iff, !N.leb_le. tauto. Qed.

Lemma is_low_false u : u < 0xDC00 \/ 0xDFFF < u -> is_low u = false.
Proof.
  intros H. destruct (is_low u) eqn:E; [|done].
  apply is_low_spec in E. lia.
Qed.

Lemma is_high_false u : u < 0xD800 \/ 0xDBFF < u -> is_high u = false.
Proof.
  intros H. destruct (is_high u) eqn:E; [|done].
  apply is_high_spec in E. lia.
Qed.

(** Decoding resumes after the bytes of one encoded character. *)
Lemma decode_char c rest :
  scalar c ->
  decode (char_bytes c ++ rest) = (s ← decode rest; Ok (c :: s)).
Proof.
  intros Hc. unfold char_bytes, char_units.
  destruct (c <? 0x10000) eqn:E.
  - apply N.ltb_lt in E. cbn [flat_map app unit_bytes].
    rewrite decode_unit. cbv zeta.
    rewrite unit_of_bytes.
    rewrite is_low_false, is_high_false by (unfold scalar in Hc; lia).
    reflexivity.
  - apply N.ltb_ge in E. unfold scalar in Hc.
    set (v := c - 0x10000).
    assert (Hv : v < 0x100000) by (unfold v; lia).
    assert (Hq : v / 0x400 < 0x400)
      by (apply N.Div0.div_lt_upper_bound; lia).
    assert (Hr : v mod 0x400 < 0x400) by (apply N.mod_lt; lia).
    pose proof (N.div_mod v 0x400 ltac:(lia)) as Hdm.
    cbn [flat_map app unit_bytes]. rewrite decode_unit. cbv zeta.
    rewrite !unit_of_bytes.
    set (q := v / 0x400) in *. set (r := v mod 0x400) in *.
    rewrite is_low_false by lia.
    replace (is_high (0xD800 + q)) with true
      by (symmetry; apply is_high_spec; lia).
    replace (is_low (0xDC00 + r)) with true
      by (symmetry; apply is_low_spec; lia).
    replace (0x10000 + (0xD800 + q - 0xD800) * 0x400 + (0xDC00 + r - 0xDC00))
      with c; [reflexivity|].
    unfold v in *. lia.
Qed.

Lemma decode_enc_app s rest :
  Forall scalar s ->
  decode (enc s ++ rest) = (t ← decode rest; Ok (s ++ t)).
Proof.
  induction 1 as [|c s Hc _ IH]; simpl.
  - by destruct (decode rest).
  - unfold enc in *. rewrite <- app_assoc, decode_char by done.
    rewrite IH. by destruct (decode rest).
Qed.

(** Decoding undoes encoding. *)
Lemma decode_enc s : Forall scalar s -> decode (enc s) = Ok s.
Proof.
  intros H. rewrite <- (app_nil_r (enc s)), decode_enc_app by done.
  simpl. by rewrite app_nil_r.
Qed.

(** ** Slices of an encoded text *)

Lemma py_slice_middle {A} (x y z : list A) :
  py_slice (x ++ y ++ z) (Z.of_nat (length x))
    (Some (Z.of_nat (length x + length y))) = y.
Proof.
  unfold py_slice, clamp. rewrite !length_app.
  destruct (Z.ltb_spec (Z.of_nat (length x)) 0); [lia|].
  destruct (Z.ltb_spec (Z.of_nat (length x + length y)) 0); [lia|].
  rewrite !Z.min_l by lia.
  replace (Z.to_nat (Z.of_nat (length x + length y) - Z.of_nat (length x)))
    with (length y) by lia.
  rewrite Nat2Z.id, drop_app_length. by rewrite take_app_length.
Qed.

Lemma py_slice_end {A} (x : list A) :
  py_slice x (Z.of_nat (length x)) None = [].
Proof.
  unfold py_slice, clamp.
  destruct (Z.ltb_spec (Z.of_nat (length x)) 0); [lia|].
  rewrite Z.min_l by lia. by rewrite Z.sub_diag.
Qed.

Lemma slice_enc x y z :
  py_slice (enc (x ++ y ++ z)) (size x) (Some (size (x ++ y))) = enc y.
Proof.
  rewrite !enc_app. unfold size. rewrite enc_app, length_app.
  apply py_slice_middle.
Qed.

End Utf16Facts.

(** ** Strings: [replace] and [escape] work character by character *)

Definition escape_char (c : N) : str :=
  if c =? 38 then lit "&amp;"
  else if c =? 60 then lit "&lt;"
  else if c =? 62 then lit "&gt;"
  else if c =? 34 then lit "&quot;"
  else if c =? 39 then lit "&#x27;"
  else [c].

Lemma replace_app c r s t : replace c r (s ++ t) = replace c r s ++ replace c r t.
Proof. apply flat_map_app. Qed.

Lemma escape_app s t : escape (s ++ t) = escape s ++ escape t.
Proof. unfold escape. by rewrite !replace_app. Qed.

Lemma replace_other c r x : x <> c -> replace c r [x] = [x].
Proof. intros H. unfold replace. simpl. by apply N.eqb_neq in H as ->. Qed.

Lemma escape_one c : escape [c] = escape_char c.
Proof.
  unfold escape_char.
  destruct (N.eqb_spec c 38) as [->|]; [reflexivity|].
  destruct (N.eqb_spec c 60) as [->|]; [reflexivity|].
  destruct (N.eqb_spec c 62) as [->|]; [reflexivity|].
  destruct (N.eqb_spec c 34) as [->|]; [reflexivity|].
  destruct (N.eqb_spec c 39) as [->|]; [reflexivity|].
  unfold escape. by rewrite !replace_other.
Qed.

Lemma escape_flat_map s : escape s = flat_map escape_char s.
Proof.
  induction s as [|c s IH]; [reflexivity|].
  change (c :: s) with ([c] ++ s). rewrite escape_app, escape_one, IH.
  simpl. reflexivity.
Qed.

(** The literal text of one round: line breaks removed, then escaped. *)
Definition literal (s : str) : str := escape (replace NL [] s).

Lemma literal_app s t : literal (s ++ t) = literal s ++ literal t.
Proof. unfold literal. by rewrite replace_app, escape_app. Qed.

Lemma replace_absent c r s : c ∉ s -> replace c r s = s.
Proof.
  induction s as [|x s IH]; [done|]. intros H.
  apply not_elem_of_cons in H as [Hx Hs].
  change (x :: s) with ([x] ++ s).
  rewrite replace_app, replace_other, IH by done. reflexivity.
Qed.

Lemma literal_no_break s : NL ∉ s -> literal s = escape s.
Proof. intros H. unfold literal. by rewrite replace_absent. Qed.

Lemma elem_of_flat_map {A B} (f : A -> list B) (l : list A) (y : B) :
  y ∈ flat_map f l <-> exists x, x ∈ l /\ y ∈ f x.
Proof.
  rewrite list_elem_of_In, in_flat_map.
  by setoid_rewrite list_elem_of_In.
Qed.

(** ** The position index *)

(** The record of an offset, the empty one where the index has none. *)
Definition getd (positions : gmap Z _PositionChange) (k : Z) : _PositionChange :=
  default (PositionChange [] [] false) (positions !! k).

Lemma position_Ok positions k :
  k ∈ dom positions -> position positions k = Ok (getd positions k).
Proof.
  intros [pc H]%elem_of_dom. unfold position, getd. by rewrite H.
Qed.

Lemma ensure_dom i positions :
  dom (_ensure_position_exists i positions) = {[i]} ∪ dom positions.
Proof.
  unfold _ensure_position_exists.
  destruct (positions !! i) eqn:E.
  - apply elem_of_dom_2 in E. set_solver.
  - by rewrite dom_insert_L.
Qed.

Lemma ensure_getd i positions k :
  getd (_ensure_position_exists i positions) k = getd positions k.
Proof.
  unfold _ensure_position_exists, getd.
  destruct (positions !! i) eqn:E; [done|].
  destruct (decide (k = i)) as [->|].
  - by rewrite lookup_insert_eq, E.
  - by rewrite lookup_insert_ne.
Qed.

Lemma update_position_Ok i f positions :
  i ∈ dom positions ->
  update_position i f positions = Ok (<[i := f (getd positions i)]> positions).
Proof. intros H. unfold update_position. by rewrite position_Ok. Qed.

Lemma insert_getd i v (positions : gmap Z _PositionChange) k :
  getd (<[i := v]> positions) k = if decide (k = i) then v else getd positions k.
Proof.
  unfold getd. destruct (decide (k = i)) as [->|].
  - by rewrite lookup_insert_eq.
  - by rewrite lookup_insert_ne.
Qed.

Section builder.

Variable d : gmap string dict_value.
Variable message_b16 : bytes.

(** The tags that entities paired with their tags open and close at
    offset [k]: opened in the order of the list, closed in its
    reverse. *)
Definition opens_at (k : Z) (ets : list (entity * option _Tag)) : list _Tag :=
  flat_map (fun et => if decide (start_of et.1 = k) then option_list et.2
                      else []) ets.

Definition closes_at (k : Z) (ets : list (entity * option _Tag)) : list _Tag :=
  rev (flat_map (fun et => if decide (end_of et.1 = k) then option_list et.2
                           else []) ets).

Definition bounds (es : list entity) : list Z :=
  flat_map (fun e => [start_of e; end_of e]) es.

(** Every entity of the list resolves to the tag it is paired with. *)
Definition resolved (ets : list (entity * option _Tag)) : Prop :=
  Forall (fun et => entity_tag d message_b16 et.1 = Ok et.2) ets.

Lemma entity_positions_spec e t positions :
  entity_tag d message_b16 e = Ok t ->
  exists positions',
    entity_positions d message_b16 e positions = Ok positions'
    /\ dom positions' = {[start_of e; end_of e]} ∪ dom positions
    /\ forall k,
         getd positions' k =
           PositionChange
             (to_open (getd positions k) ++ opens_at k [(e, t)])
             (closes_at k [(e, t)] ++ to_close (getd positions k))
             (br (getd positions k)).
Proof.
  intros Ht. unfold entity_positions. rewrite Ht. simpl.
  set (p2 := _ensure_position_exists (end_of e)
               (_ensure_position_exists (start_of e) positions)).
  assert (Hdom : dom p2 = {[start_of e; end_of e]} ∪ dom positions)
    by (unfold p2; rewrite !ensure_dom; set_solver).
  assert (Hget : forall k, getd p2 k = getd positions k)
    by (intros k; unfold p2; by rewrite !ensure_getd).
  unfold opens_at, closes_at. simpl.
  destruct t as [tag|].
  - rewrite update_position_Ok by set_solver. simpl.
    rewrite update_position_Ok by (rewrite dom_insert_L; set_solver).
    eexists. split; [reflexivity|]. split.
    + rewrite !dom_insert_L. set_solver.
    + intros k. rewrite !insert_getd, !Hget.
      destruct (decide (k = end_of e)) as [->|He];
        destruct (decide _) as [Hs|Hs]; simpl;
        repeat (destruct (decide _); try congruence); simpl;
        rewrite ?Hget, ?Hs, ?app_nil_r; try done;
        by destruct (getd positions _).
  - eexists. split; [reflexivity|]. split; [done|].
    intros k. rewrite Hget.
    repeat (destruct (decide _)); simpl; rewrite ?app_nil_r;
      by destruct (getd positions k).
Qed.

Lemma opens_at_app k l1 l2 : opens_at k (l1 ++ l2) = opens_at k l1 ++ opens_at k l2.
Proof. apply flat_map_app. Qed.

Lemma closes_at_app k l1 l2 :
  closes_at k (l1 ++ l2) = closes_at k l2 ++ closes_at k l1.
Proof. unfold closes_at. by rewrite flat_map_app, rev_app_distr. Qed.

(** The index after the entity loop: an offset is a key when it was
    one or bounds an entity; its open list has grown at the end by the
    tags of the entities that start there, in their order, and its
    close list at the front by the tags of those that end there, in
    reverse order. *)
Lemma entity_loop_spec ets positions :
  resolved ets ->
  exists positions',
    for_ ets.*1 (entity_positions d message_b16) positions = Ok positions'
    /\ dom positions' = list_to_set (bounds ets.*1) ∪ dom positions
    /\ forall k,
         getd positions' k =
           PositionChange
             (to_open (getd positions k) ++ opens_at k ets)
             (closes_at k ets ++ to_close (getd positions k))
             (br (getd positions k)).
Proof.
  intros H. revert positions.
  induction H as [|[e t] ets Het _ IH]; intros positions.
  - exists positions. split; [done|]. split; [set_solver|].
    intros k. simpl. rewrite app_nil_r. by destruct (getd positions k).
  - destruct (entity_positions_spec e t positions Het)
      as (p1 & Hp1 & Hd1 & Hg1).
    destruct (IH p1) as (p2 & Hp2 & Hd2 & Hg2).
    exists p2. split; [|split].
    + simpl. rewrite Hp1. exact Hp2.
    + rewrite Hd2, Hd1. simpl. set_solver.
    + intros k. rewrite Hg2, Hg1. cbn [to_open to_close br].
      change ((e, t) :: ets) with ([(e, t)] ++ ets).
      rewrite opens_at_app, closes_at_app, <- !app_assoc. reflexivity.
Qed.

End builder.

Section br_positions.
Import Utf16Facts.

Variable message : str.
Hypothesis message_scalar : Forall Utf16.scalar message.

(** The byte offsets of the line breaks at the indices [idx]. *)
Definition br_offsets (idx : list nat) : list Z :=
  flat_map (fun i => if decide (message !! i = Some NL)
                     then [size (take i message)] else []) idx.

Lemma br_position_spec i positions :
  exists positions',
    br_position message i positions = Ok positions'
    /\ dom positions' = list_to_set (br_offsets [i]) ∪ dom positions
    /\ forall k,
         getd positions' k =
           PositionChange (to_open (getd positions k))
             (to_close (getd positions k))
             (br (getd positions k) || bool_decide (k ∈ br_offsets [i])).
Proof.
  unfold br_position, br_offsets. simpl.
  destruct (decide (message !! i = Some NL)) as [Hi|Hi].
  - rewrite encode_scalar by by apply Forall_take.
    simpl. fold (size (take i message)).
    rewrite update_position_Ok by (rewrite ensure_dom; set_solver).
    eexists. split; [reflexivity|]. split.
    + rewrite dom_insert_L, ensure_dom. set_solver.
    + intros k. rewrite insert_getd, !ensure_getd.
      destruct (decide (k = size (take i message))) as [->|Hk].
      * rewrite bool_decide_true by set_solver.
        by rewrite orb_true_r.
      * rewrite bool_decide_false by set_solver.
        rewrite orb_false_r. by destruct (getd positions k).
  - exists positions. split; [done|]. split; [set_solver|].
    intros k. rewrite bool_decide_false by set_solver.
    rewrite orb_false_r. by destruct (getd positions k).
Qed.

Lemma br_offsets_app l1 l2 : br_offsets (l1 ++ l2) = br_offsets l1 ++ br_offsets l2.
Proof. apply flat_map_app. Qed.

(** The index after the line-break loop over the indices [idx]: the
    offsets of their line breaks are keys, flagged; the lists of tags
    are as they were. *)
Lemma br_loop_spec idx positions :
  exists positions',
    for_ idx (br_position message) positions = Ok positions'
    /\ dom positions' = list_to_set (br_offsets idx) ∪ dom positions
    /\ forall k,
         getd positions' k =
           PositionChange (to_open (getd positions k))
             (to_close (getd positions k))
             (br (getd positions k) || bool_decide (k ∈ br_offsets idx)).
Proof.
  revert positions. induction idx as [|i idx IH]; intros positions.
  - exists positions. split; [done|]. split; [set_solver|].
    intros k. rewrite bool_decide_false by set_solver.
    rewrite orb_false_r. by destruct (getd positions k).
  - destruct (br_position_spec i positions) as (p1 & Hp1 & Hd1 & Hg1).
    destruct (IH p1) as (p2 & Hp2 & Hd2 & Hg2).
    exists p2. split; [|split].
    + simpl. rewrite Hp1. exact Hp2.
    + rewrite Hd2, Hd1. change (i :: idx) with ([i] ++ idx).
      rewrite br_offsets_app. set_solver.
    + intros k. rewrite Hg2, Hg1. cbn [to_open to_close br].
      f_equal. change (i :: idx) with ([i] ++ idx).
      rewrite br_offsets_app, <- orb_assoc. f_equal.
      apply eq_true_iff_eq. rewrite orb_true_iff, !bool_decide_eq_true.
      set_solver.
Qed.

End br_positions.

(** ** The main loop, character by character

    The separation points cut the text into segments; the loop emits the
    markup of a point and then the literal text up to the next one. The
    same output is reached by walking the text one character at a time
    and emitting the markup of every boundary that is a key. *)

Section bounds_after.
Import Utf16Facts.

(** The byte offsets behind each character of [todo]. *)
Fixpoint bounds_after (pre todo : str) : list Z :=
  match todo with
  | [] => []
  | c :: todo' => size (pre ++ [c]) :: bounds_after (pre ++ [c]) todo'
  end.

Lemma bounds_after_app pre s t :
  bounds_after pre (s ++ t) = bounds_after pre s ++ bounds_after (pre ++ s) t.
Proof.
  revert pre. induction s as [|c s IH]; intros pre; simpl.
  - by rewrite app_nil_r.
  - rewrite IH, <- app_assoc. reflexivity.
Qed.

Lemma bounds_after_gt pre todo k :
  k ∈ bounds_after pre todo -> (size pre < k <= size (pre ++ todo))%Z.
Proof.
  revert pre. induction todo as [|c todo IH]; intros pre; simpl.
  - by intros ?%elem_of_nil.
  - pose proof (size_char_pos c). pose proof (size_nonneg todo).
    intros [->|Hk]%elem_of_cons.
    + rewrite !size_app. change (c :: todo) with ([c] ++ todo).
      rewrite size_app. lia.
    + apply IH in Hk. rewrite <- app_assoc in Hk. simpl in Hk.
      rewrite size_app in Hk. lia.
Qed.

Lemma bounds_after_last pre todo :
  todo <> [] -> size (pre ++ todo) ∈ bounds_after pre todo.
Proof.
  revert pre. induction todo as [|c todo IH]; intros pre; [done|].
  intros _. simpl. destruct todo as [|c' todo].
  - set_solver.
  - apply elem_of_cons. right.
    change (pre ++ c :: c' :: todo) with (pre ++ [c] ++ c' :: todo).
    rewrite app_assoc. by apply IH.
Qed.

Lemma bounds_after_sorted pre todo :
  StronglySorted Z.lt (size pre :: bounds_after pre todo).
Proof.
  revert pre. induction todo as [|c todo IH]; intros pre; simpl.
  - repeat constructor.
  - constructor; [apply IH|].
    apply Forall_forall. intros k Hk.
    change (size (pre ++ [c]) :: bounds_after (pre ++ [c]) todo)
      with (bounds_after pre (c :: todo)) in Hk.
    apply bounds_after_gt in Hk. lia.
Qed.

End bounds_after.

Section render.
Import Utf16Facts.

Variable d : gmap string dict_value.
Variable positions : gmap Z _PositionChange.
Variables tag_paragraph tag_newline : _Tag.
Variable message : str.
Hypothesis message_scalar : Forall Utf16.scalar message.

Definition add_text (s : str) (st : list _Tag * str) : list _Tag * str :=
  (st.1, st.2 ++ literal s).

Definition markup_if_key (k : Z) (st : list _Tag * str)
  : result (list _Tag * str) :=
  if decide (k ∈ dom positions)
  then markup d positions tag_paragraph tag_newline k st
  else Ok st.

(** The characters [todo] after the prefix [pre]: each is emitted,
    then the markup of the boundary behind it. *)
Fixpoint char_tail (pre todo : str) (st : list _Tag * str)
  : result (list _Tag * str) :=
  match todo with
  | [] => Ok st
  | c :: todo' =>
      st ← markup_if_key (size (pre ++ [c])) (add_text [c] st);
      char_tail (pre ++ [c]) todo' st
  end.

Lemma add_text_nil st : add_text [] st = st.
Proof. destruct st. unfold add_text. simpl. by rewrite app_nil_r. Qed.

Lemma add_text_app s t st : add_text t (add_text s st) = add_text (s ++ t) st.
Proof. unfold add_text. simpl. by rewrite literal_app, app_assoc. Qed.

Lemma main_loop_body_segment index rest next part st :
  (if decide (index ≠ Z.of_nat (length (enc message))) then
     match rest with
     | n :: _ => Ok (Some n)
     | [] => Raise IndexError
     end
   else Ok None) = Ok next ->
  Utf16.decode (py_slice (enc message) index next) = Ok part ->
  main_loop_body d (enc message) positions tag_paragraph tag_newline
    index rest st
  = (st ← markup d positions tag_paragraph tag_newline index st;
     Ok (add_text part st)).
Proof.
  intros Hn Hp. unfold main_loop_body. rewrite Hn. simpl. rewrite Hp. simpl.
  by destruct (markup _ _ _ _ _ _) as [[o out]|].
Qed.

Lemma main_loop_cons b16 index rest st :
  main_loop d b16 positions tag_paragraph tag_newline (index :: rest) st
  = (st ← main_loop_body d b16 positions tag_paragraph tag_newline
            index rest st;
     main_loop d b16 positions tag_paragraph tag_newline rest st).
Proof. reflexivity. Qed.

(** The loop from a key [size pre] on, the segment [seg] behind it
    holding no further key. *)
Lemma main_loop_chars todo seg pre st :
  message = pre ++ seg ++ todo ->
  size message ∈ dom positions ->
  (forall k, k ∈ bounds_after pre seg -> k ∉ dom positions) ->
  main_loop d (enc message) positions tag_paragraph tag_newline
    (size pre :: filter (fun k => k ∈ dom positions)
                   (bounds_after (pre ++ seg) todo)) st
  = (st ← markup d positions tag_paragraph tag_newline (size pre) st;
     char_tail (pre ++ seg) todo (add_text seg st)).
Proof.
  revert seg pre st. induction todo as [|c todo IH]; intros seg pre st Hm HL Hseg.
  - destruct seg as [|c seg].
    + simpl. rewrite app_nil_r in Hm. subst pre.
      erewrite main_loop_body_segment with (next := None) (part := []).
      * destruct (markup _ _ _ _ _ _) as [st1|]; [|done]. done.
      * unfold size. by rewrite decide_False by naive_solver.
      * unfold size. by rewrite py_slice_end.
    + exfalso. apply (Hseg (size message)); [|done].
      rewrite Hm, app_nil_r. by apply bounds_after_last.
  - cbn [bounds_after]. rewrite filter_cons.
    destruct (decide (size ((pre ++ seg) ++ [c]) ∈ dom positions)) as [Hk|Hk].
    + rewrite main_loop_cons.
      erewrite main_loop_body_segment
        with (next := Some (size ((pre ++ seg) ++ [c]))) (part := seg ++ [c]).
      * specialize (IH [] ((pre ++ seg) ++ [c])).
        rewrite !app_nil_r in IH.
        destruct (markup _ _ _ _ (size pre) st) as [st1|]; [|done].
        rewrite !bind_Ok, IH.
        -- cbn [char_tail]. unfold markup_if_key.
           rewrite decide_True by done.
           rewrite add_text_app.
           destruct (markup _ _ _ _ _ _) as [st2|]; [|done].
           rewrite !bind_Ok. by rewrite add_text_nil.
        -- rewrite Hm, <- !app_assoc. reflexivity.
        -- done.
        -- by intros k ?%elem_of_nil.
      * rewrite decide_True; [done|].
        fold (size message). rewrite Hm, !size_app.
        pose proof (size_char_pos c). pose proof (size_nonneg seg).
        pose proof (size_nonneg todo).
        change (c :: todo) with ([c] ++ todo). rewrite size_app. lia.
      * assert (Hsl : py_slice (enc message) (size pre)
                        (Some (size ((pre ++ seg) ++ [c]))) = enc (seg ++ [c])).
        { rewrite Hm, <- (app_assoc pre seg [c]).
          replace (pre ++ seg ++ c :: todo)
            with (pre ++ (seg ++ [c]) ++ todo)
            by (by rewrite <- !app_assoc).
          apply slice_enc. }
        rewrite Hsl. apply decode_enc.
        rewrite Hm in message_scalar.
        apply Forall_app in message_scalar as [_ Hs].
        apply Forall_app in Hs as [Hs Hc].
        apply Forall_app. split; [done|].
        apply Forall_cons in Hc as [Hc _]. by constructor.
    + specialize (IH (seg ++ [c]) pre st).
      rewrite !app_assoc in IH. rewrite IH.
      * destruct (markup _ _ _ _ (size pre) st) as [st1|]; [|done].
        rewrite !bind_Ok. cbn [char_tail]. unfold markup_if_key.
        rewrite decide_False by done.
        rewrite bind_Ok. by rewrite add_text_app.
      * rewrite Hm, <- !app_assoc. reflexivity.
      * done.
      * intros k. rewrite bounds_after_app. simpl.
        intros [?|Hk']%elem_of_app; [by apply Hseg|].
        apply list_elem_of_singleton in Hk' as ->. done.
Qed.

End render.

(** ** The separation points *)

Lemma StronglySorted_filter {A} (R : relation A) (P : A -> Prop)
  `{forall x, Decision (P x)} l :
  StronglySorted R l -> StronglySorted R (filter P l).
Proof.
  induction 1 as [|x l Hl IH Hx]; [constructor|].
  rewrite filter_cons. destruct (decide (P x)); [|done].
  constructor; [done|].
  apply Forall_forall. intros y [_ Hy]%list_elem_of_filter.
  rewrite Forall_forall in Hx. by apply Hx.
Qed.

Lemma StronglySorted_lt_le l : StronglySorted Z.lt l -> Sorted Z.le l.
Proof.
  induction 1 as [|x l Hl IH Hx]; constructor; [done|].
  destruct l as [|y l]; constructor.
  apply Forall_cons in Hx as [Hx _]. lia.
Qed.

Lemma StronglySorted_lt_NoDup l : StronglySorted Z.lt l -> NoDup l.
Proof.
  induction 1 as [|x l Hl IH Hx]; constructor; [|done].
  intros Hin. rewrite Forall_forall in Hx. specialize (Hx x Hin). lia.
Qed.

Lemma elem_of_keys (positions : gmap Z _PositionChange) k :
  k ∈ (map_to_list positions).*1 <-> k ∈ dom positions.
Proof.
  rewrite elem_of_dom. split.
  - intros ([k' pc] & -> & Hin)%list_elem_of_fmap.
    apply elem_of_map_to_list in Hin. by exists pc.
  - intros [pc Hpc]. apply list_elem_of_fmap. exists (k, pc).
    split; [done|]. by apply elem_of_map_to_list.
Qed.

(** The sorted keys are the one sorted list without repetition that
    holds the keys. *)
Lemma sorted_keys_unique positions l :
  StronglySorted Z.lt l ->
  (forall k, k ∈ l <-> k ∈ dom positions) ->
  sorted_keys positions = l.
Proof.
  intros Hl Hk. unfold sorted_keys.
  apply (Sorted_unique Z.le).
  - apply Sorted_merge_sort. apply _.
  - by apply StronglySorted_lt_le.
  - rewrite merge_sort_Permutation.
    apply NoDup_Permutation.
    + apply NoDup_fst_map_to_list.
    + by apply StronglySorted_lt_NoDup.
    + intros k. rewrite elem_of_keys. by rewrite Hk.
Qed.

Lemma sorted_keys_bounds positions message :
  0%Z ∈ dom positions ->
  (forall k, k ∈ dom positions ->
             k = 0%Z \/ k ∈ bounds_after [] message) ->
  sorted_keys positions
  = 0%Z :: filter (fun k => k ∈ dom positions) (bounds_after [] message).
Proof.
  intros H0 Hb. apply sorted_keys_unique.
  - assert (Hs := bounds_after_sorted [] message).
    change (Utf16Facts.size []) with 0%Z in Hs.
    apply (StronglySorted_filter _ (fun k => k ∈ dom positions)) in Hs.
    rewrite filter_cons in Hs. by rewrite decide_True in Hs.
  - intros k. rewrite elem_of_cons, list_elem_of_filter. naive_solver.
Qed.

(** ** The markup of one separation point, in closed form *)

Lemma for_open_tag ts o out :
  for_ ts open_tag (o, out) = Ok (o ++ ts, out ++ concat (opening <$> ts)).
Proof.
  revert o out. induction ts as [|t ts IH]; intros o out; simpl.
  - by rewrite !app_nil_r.
  - rewrite IH. by rewrite <- !app_assoc.
Qed.

Lemma pop_Ok {A} (l : list A) :
  l <> [] -> pop l = Ok (take (length l - 1) l).
Proof.
  intros H. unfold pop. destruct l as [|x l]; [done|].
  rewrite removelast_firstn_len. do 2 f_equal. simpl. lia.
Qed.

(** Closing pops one tag a closure. *)
Lemma for_close_tag cl o out :
  (length cl <= length o)%nat ->
  for_ cl close_tag (o, out)
  = Ok (take (length o - length cl) o, out ++ concat (closing <$> cl)).
Proof.
  revert o out. induction cl as [|t cl IH]; intros o out Hlen; simpl.
  - by rewrite Nat.sub_0_r, firstn_all, app_nil_r.
  - simpl in Hlen. rewrite pop_Ok by (destruct o; simpl in *; [lia|done]).
    rewrite bind_Ok, bind_Ok, IH by (rewrite length_take; lia).
    rewrite length_take, take_take, <- app_assoc.
    do 3 f_equal. lia.
Qed.

(** With more to close than is open, the pop of the empty list raises. *)
Lemma for_close_tag_Raise cl o out :
  (length o < length cl)%nat ->
  for_ cl close_tag (o, out) = Raise IndexError.
Proof.
  revert o out. induction cl as [|t cl IH]; intros o out Hlen; simpl in *.
  - lia.
  - destruct o as [|x o]; [done|].
    rewrite pop_Ok by done. rewrite !bind_Ok. apply IH.
    rewrite length_take. simpl in *. lia.
Qed.

Section markup_spec.

Variable d : gmap string dict_value.
Variable positions : gmap Z _PositionChange.
Variables tag_paragraph tag_newline : _Tag.

Lemma markup_Ok k o out :
  k ∈ dom positions ->
  (length (to_close (getd positions k)) <= length o)%nat ->
  markup d positions tag_paragraph tag_newline k (o, out)
  = (let pc := getd positions k in
     let st := (take (length o - length (to_close pc)) o,
                out ++ concat (closing <$> to_close pc)) in
     '(o, out) ← (if br pc then line_break d tag_paragraph tag_newline st
                  else Ok st);
     Ok (o ++ to_open pc, out ++ concat (opening <$> to_open pc))).
Proof.
  intros Hk Hlen. unfold markup. rewrite position_Ok by done.
  rewrite !bind_Ok, for_close_tag by done. rewrite !bind_Ok. cbv zeta.
  destruct (if br _ then _ else _) as [[o1 out1]|]; [|done].
  rewrite !bind_Ok. apply for_open_tag.
Qed.

Lemma markup_Raise k o out :
  k ∈ dom positions ->
  (length o < length (to_close (getd positions k)))%nat ->
  markup d positions tag_paragraph tag_newline k (o, out) = Raise IndexError.
Proof.
  intros Hk Hlen. unfold markup. rewrite position_Ok by done.
  rewrite !bind_Ok, for_close_tag_Raise by done. reflexivity.
Qed.

End markup_spec.

(** ** The dictionaries' paragraph, line-break and code tags *)

Definition is_html (type : str) : Prop := lower type = lit "html".

Definition paragraph_tag (type : str) : _Tag :=
  if decide (is_html type) then Tag (lit "<p>") (lit "</p>") else Tag [] [NL].

Definition newline_tag (type : str) : _Tag :=
  if decide (is_html type) then Tag [] (lit "<br />") else Tag [] [NL].

Ltac case_syntax type :=
  unfold paragraph_tag, newline_tag, is_html, set_syntax_dict;
  repeat (destruct (decide _) as [?|?]); try reflexivity;
  repeat match goal with
    | H : _ \/ _ |- _ => destruct H
    | H : ?x = lit _, H' : ?x = lit _ |- _ => rewrite H in H'; discriminate H'
    end; tauto.

Lemma get_tag_paragraph type :
  get_tag (set_syntax_dict type) "TagsParagraph" (Tag [] [])
  = Ok (paragraph_tag type).
Proof. case_syntax type. Qed.

Lemma get_tag_newline type :
  get_tag (set_syntax_dict type) "TagsNewline" (Tag [] [NL])
  = Ok (newline_tag type).
Proof. case_syntax type. Qed.

(** The value of the key [MessageEntityCode], when it is a tag. *)
Definition code_tag (d : gmap string dict_value) : option _Tag :=
  match d !! "MessageEntityCode"%string with
  | Some (PyTag t) => Some t
  | _ => None
  end.

Lemma code_is_open_dict type o :
  code_is_open (set_syntax_dict type) o
  = Ok (match code_tag (set_syntax_dict type) with
        | Some t => bool_decide (t ∈ o)
        | None => false
        end).
Proof. unfold set_syntax_dict. repeat (destruct (decide _)); reflexivity. Qed.

(** ** A conversion, character by character *)

Definition entity_list (entities : option (list entity)) : list entity :=
  default [] entities.

Lemma prepare_entity_positions_for d b16 entities positions :
  _prepare_entity_positions_utf16le d b16 entities positions
  = for_ (entity_list entities) (entity_positions d b16) positions.
Proof. by destruct entities as [[|e es]|]. Qed.

Lemma no_entities_list entities :
  no_entities entities = bool_decide (entity_list entities = []).
Proof. by destruct entities as [[|e es]|]. Qed.

Section convert_chars.
Import Utf16Facts.

Variable message : str.
Hypothesis message_scalar : Forall Utf16.scalar message.

(** The offsets of all line breaks of the message. *)
Definition breaks : list Z := br_offsets message (seq 0 (length message)).

Lemma size_take_bound i :
  size (take i message) = 0%Z \/ size (take i message) ∈ bounds_after [] message.
Proof.
  destruct (take i message) as [|c s] eqn:E; [by left|right].
  rewrite <- (take_drop i message).
  rewrite bounds_after_app. apply elem_of_app. left.
  rewrite E. by apply (bounds_after_last []).
Qed.

Lemma breaks_bound k :
  k ∈ breaks -> k = 0%Z \/ k ∈ bounds_after [] message.
Proof.
  unfold breaks, br_offsets. rewrite elem_of_flat_map.
  intros (i & _ & Hk). destruct (decide _); [|by apply elem_of_nil in Hk].
  apply list_elem_of_singleton in Hk as ->. apply size_take_bound.
Qed.

Lemma size_message_bound :
  size message = 0%Z \/ size message ∈ bounds_after [] message.
Proof.
  pose proof (size_take_bound (length message)) as H.
  by rewrite firstn_all in H.
Qed.

(** The position index of a conversion whose entities resolve: its
    keys are both ends of the text, the bounds of the entities and the
    offsets of the line breaks; an offset opens the tags of the
    entities that start there in the order of the list, closes the tags
    of those that end there in the reverse order, and is flagged when a
    line break is there. *)
Lemma position_index_spec entities ets type :
  ets.*1 = entity_list entities ->
  resolved (set_syntax_dict type) (enc message) ets ->
  exists positions,
    position_index message entities type = Ok positions
    /\ dom positions
      = {[0%Z; size message]} ∪ list_to_set (bounds ets.*1)
        ∪ list_to_set breaks
    /\ (forall k, getd positions k
                  = PositionChange (opens_at k ets) (closes_at k ets)
                      (bool_decide (k ∈ breaks))).
Proof using message_scalar.
  intros Hets Hres.
  set (d := set_syntax_dict type).
  set (p0 := _ensure_position_exists (size message)
               (_ensure_position_exists 0 ∅)).
  destruct (entity_loop_spec d (enc message) ets p0 Hres)
    as (p1 & Hp1 & Hd1 & Hg1).
  destruct (br_loop_spec message message_scalar (seq 0 (length message)) p1)
    as (p2 & Hp2 & Hd2 & Hg2).
  assert (Hd0 : dom p0 = {[0%Z; size message]})
    by (unfold p0; rewrite !ensure_dom, dom_empty_L; set_solver).
  assert (Hg0 : forall k, getd p0 k = PositionChange [] [] false)
    by (intros k; unfold p0; by rewrite !ensure_getd).
  exists p2. split; [|split].
  - unfold position_index, __init__. rewrite encode_scalar by done.
    rewrite !bind_Ok. unfold prepare_positions.
    cbn [_positions _message_b16 _entities _message].
    fold (size message). fold p0. fold d.
    rewrite prepare_entity_positions_for, <- Hets, Hp1, bind_Ok.
    exact Hp2.
  - rewrite Hd2, Hd1, Hd0. fold breaks. set_solver.
  - intros k. rewrite Hg2, Hg1, Hg0. simpl. by rewrite app_nil_r.
Qed.

(** What a conversion returns when the fast path is not taken, every
    entity resolves to a tag or to none, and every entity starts and
    ends between two characters of the text: the output as the walk
    over the characters gives it. *)
Theorem convert_chars entities ets type :
  ets.*1 = entity_list entities ->
  ets <> [] \/ NL ∈ message ->
  resolved (set_syntax_dict type) (enc message) ets ->
  (forall k, k ∈ bounds ets.*1 -> k = 0%Z \/ k ∈ bounds_after [] message) ->
  exists positions,
    position_index message entities type = Ok positions
    /\ dom positions
      = {[0%Z; size message]} ∪ list_to_set (bounds ets.*1)
        ∪ list_to_set breaks
    /\ (forall k, getd positions k
                  = PositionChange (opens_at k ets) (closes_at k ets)
                      (bool_decide (k ∈ breaks)))
    /\ convert message entities type
       = ('(o, out) ←
            (st ← markup (set_syntax_dict type) positions
                    (paragraph_tag type) (newline_tag type) 0 ([], []);
             char_tail (set_syntax_dict type) positions
               (paragraph_tag type) (newline_tag type) [] message st);
          Ok (wrap (paragraph_tag type) out)).
Proof using message_scalar.
  intros Hets Hfull Hres Hbounds.
  destruct (position_index_spec entities ets type Hets Hres)
    as (p2 & Hidx & Hdom & Hget).
  exists p2. split; [done|]. split; [done|]. split; [done|].
  unfold position_index, __init__ in Hidx.
  rewrite encode_scalar in Hidx by done. rewrite !bind_Ok in Hidx.
  unfold convert, __init__. rewrite encode_scalar by done.
  rewrite !bind_Ok. unfold to_syntax. cbn [_entities _message].
  destruct (no_entities entities && _) eqn:Hfast.
  { exfalso. apply andb_true_iff in Hfast as [Hno Hnl].
    rewrite no_entities_list, <- Hets in Hno.
    apply bool_decide_eq_true in Hno, Hnl.
    destruct Hfull as [H|H]; [by destruct ets | done]. }
  rewrite get_tag_paragraph, get_tag_newline, !bind_Ok.
  rewrite Hidx, bind_Ok.
  cbn [_positions _message_b16 _entities _message output].
  rewrite (sorted_keys_bounds p2 message).
  - change 0%Z with (size []) at 1.
    change (bounds_after [] message)
      with (bounds_after ([] ++ []) message).
    rewrite (main_loop_chars _ p2 _ _ message message_scalar message [] []).
    + change (size []) with 0%Z. change ([] ++ []) with (@nil N).
      destruct (markup _ _ _ _ _ _) as [st1|]; [|done].
      rewrite !bind_Ok, add_text_nil.
      by destruct (char_tail _ _ _ _ _ _ _) as [[o out]|].
    + done.
    + rewrite Hdom. set_solver.
    + by intros k ?%elem_of_nil.
  - rewrite Hdom. set_solver.
  - intros k. rewrite Hdom. fold breaks.
    rewrite !elem_of_union, !elem_of_list_to_set.
    intros [[[Hk|Hk]|Hk]|Hk].
    + left. set_solver.
    + apply elem_of_singleton in Hk as ->. apply size_message_bound.
    + by apply Hbounds.
    + by apply breaks_bound.
Qed.

End convert_chars.

(** ** A text without entities *)

Section plain_text.
Import Utf16Facts.

Variable message : str.
Hypothesis message_scalar : Forall Utf16.scalar message.

Lemma size_take_inj i j :
  (i <= j <= length message)%nat ->
  size (take i message) = size (take j message) -> i = j.
Proof.
  intros Hij Hs. destruct (decide (i = j)) as [|Hne]; [done|exfalso].
  assert (Hj : take j message = take i message ++ take (j - i) (drop i message)).
  { rewrite <- (take_drop i (take j message)) at 1.
    rewrite take_take, Nat.min_l by lia. f_equal.
    rewrite firstn_skipn_comm. do 2 f_equal. lia. }
  rewrite Hj, size_app in Hs.
  assert (take (j - i) (drop i message) <> []).
  { intros E. apply (f_equal length) in E.
    rewrite length_take, length_drop in E. simpl in E. lia. }
  pose proof (size_pos _ H). lia.
Qed.

(** A boundary is the offset of a line break when the next character
    is one. *)
Lemma breaks_prefix pre todo :
  message = pre ++ todo ->
  size pre ∈ breaks message <-> head todo = Some NL.
Proof.
  intros Hm. unfold breaks, br_offsets. rewrite elem_of_flat_map.
  assert (Hpre : take (length pre) message = pre)
    by (by rewrite Hm, take_app_length).
  split.
  - intros (i & Hi & Hk). apply elem_of_seq in Hi.
    destruct (decide (message !! i = Some NL)) as [Hnl|];
      [|by apply elem_of_nil in Hk].
    apply list_elem_of_singleton in Hk. rewrite <- Hpre in Hk.
    assert (length pre = i) as <-.
    { assert (length pre <= length message)%nat
        by (rewrite Hm, length_app; lia).
      destruct (decide (length pre <= i)%nat).
      - apply size_take_inj; [lia|done].
      - symmetry. apply size_take_inj; [lia|done]. }
    rewrite Hm, lookup_app_r, Nat.sub_diag in Hnl by done.
    by destruct todo.
  - intros Hh. exists (length pre). destruct todo as [|c todo]; [done|].
    simpl in Hh. injection Hh as ->. split.
    + apply elem_of_seq. rewrite Hm, length_app. simpl. lia.
    + rewrite decide_True.
      * rewrite Hpre. set_solver.
      * rewrite Hm. by rewrite list_lookup_middle.
Qed.

Variable type : str.

(** What one character of a text without entities turns into. *)
Definition plain_char (c : N) : str :=
  if decide (c = NL)
  then closing (paragraph_tag type) ++ opening (paragraph_tag type)
  else escape [c].

Definition break_markup (b : bool) : str :=
  if b then closing (paragraph_tag type) ++ opening (paragraph_tag type)
  else [].

Variable positions : gmap Z _PositionChange.
Hypothesis positions_breaks : forall k, k ∈ breaks message -> k ∈ dom positions.
Hypothesis positions_getd :
  forall k, getd positions k
            = PositionChange [] [] (bool_decide (k ∈ breaks message)).

Lemma markup_plain k out :
  k ∈ dom positions ->
  markup (set_syntax_dict type) positions (paragraph_tag type)
    (newline_tag type) k ([], out)
  = Ok ([], out ++ break_markup (bool_decide (k ∈ breaks message))).
Proof.
  intros Hk. rewrite markup_Ok by (rewrite ?positions_getd; done).
  rewrite positions_getd. cbn [to_open to_close br]. cbv zeta.
  unfold break_markup.
  destruct (bool_decide (k ∈ breaks message)); simpl.
  - rewrite code_is_open_dict.
    destruct (code_tag _); simpl; by rewrite !app_nil_r.
  - by rewrite !app_nil_r.
Qed.

Lemma markup_if_key_plain k out :
  markup_if_key (set_syntax_dict type) positions (paragraph_tag type)
    (newline_tag type) k ([], out)
  = Ok ([], out ++ break_markup (bool_decide (k ∈ breaks message))).
Proof.
  unfold markup_if_key. destruct (decide (k ∈ dom positions)) as [Hk|Hk].
  - by apply markup_plain.
  - rewrite bool_decide_false by naive_solver.
    simpl. by rewrite app_nil_r.
Qed.

Lemma plain_char_break c :
  break_markup (bool_decide (Some c = Some NL)) ++ literal [c] = plain_char c.
Proof.
  unfold plain_char, break_markup. destruct (decide (c = NL)) as [->|Hc].
  - rewrite bool_decide_true by done. by rewrite app_nil_r.
  - rewrite bool_decide_false by congruence.
    simpl. apply literal_no_break. set_solver.
Qed.

Lemma char_tail_plain todo pre out :
  message = pre ++ todo ->
  char_tail (set_syntax_dict type) positions (paragraph_tag type)
    (newline_tag type) pre todo
    ([], out ++ break_markup (bool_decide (head todo = Some NL)))
  = Ok ([], out ++ flat_map plain_char todo).
Proof.
  revert pre out. induction todo as [|c todo IH]; intros pre out Hm.
  - simpl. done.
  - cbn [char_tail]. unfold add_text. cbn [fst snd].
    rewrite markup_if_key_plain, bind_Ok.
    rewrite <- (app_assoc out). cbn [head]. rewrite plain_char_break.
    rewrite (bool_decide_ext _ (head todo = Some NL)).
    + rewrite IH by (by rewrite <- app_assoc). simpl.
      by rewrite <- app_assoc.
    + apply breaks_prefix. by rewrite <- app_assoc.
Qed.

End plain_text.

(** A text with a line break and no entity: every line break turns into
    the closing and the opening text of the paragraph tag, every other
    character into its escaped form, and the whole is wrapped once. *)
Theorem convert_plain message entities type :
  Forall Utf16.scalar message ->
  entity_list entities = [] ->
  NL ∈ message ->
  convert message entities type
  = Ok (wrap (paragraph_tag type) (flat_map (plain_char type) message)).
Proof.
  intros Hm He Hnl.
  destruct (convert_chars message Hm entities [] type)
    as (positions & _ & Hdom & Hget & ->); [done|by right|constructor|set_solver|].
  assert (Hbr : forall k, k ∈ breaks message -> k ∈ dom positions)
    by (intros k Hk; rewrite Hdom; set_solver).
  rewrite (markup_plain message type positions Hget) by (rewrite Hdom; set_solver).
  rewrite bind_Ok. simpl app.
  rewrite (bool_decide_ext _ (head message = Some NL))
    by (apply (breaks_prefix message Hm []); done).
  change (break_markup type (bool_decide (head message = Some NL)))
    with ([] ++ break_markup type (bool_decide (head message = Some NL))).
  rewrite (char_tail_plain message Hm type positions Hbr Hget) by done.
  reflexivity.
Qed.

(** ** A text with entities, segment by segment *)

Section segment_text.

Variable type : str.

(** What a line break turns into while the tags [o] are open. *)
Definition break_text (o : list _Tag) : str :=
  match code_tag (set_syntax_dict type) with
  | Some t =>
      if bool_decide (t ∈ o) then closing (newline_tag type)
      else closing (paragraph_tag type) ++ opening (paragraph_tag type)
  | None => closing (paragraph_tag type) ++ opening (paragraph_tag type)
  end.

(** What one character turns into while the tags [o] are open. *)
Definition seg_char (o : list _Tag) (c : N) : str :=
  if decide (c = NL) then break_text o else escape [c].

Definition lead (o : list _Tag) (b : bool) : str :=
  if b then break_text o else [].

Lemma line_break_text o out :
  line_break (set_syntax_dict type) (paragraph_tag type) (newline_tag type)
    (o, out)
  = Ok (o, out ++ break_text o).
Proof.
  unfold line_break, break_text. rewrite code_is_open_dict, bind_Ok.
  destruct (code_tag _); [|done]. by destruct (bool_decide _).
Qed.

Lemma seg_char_lead o c :
  lead o (bool_decide (Some c = Some NL)) ++ literal [c] = seg_char o c.
Proof.
  unfold seg_char, lead. destruct (decide (c = NL)) as [->|Hc].
  - rewrite bool_decide_true by done. by rewrite app_nil_r.
  - rewrite bool_decide_false by congruence.
    simpl. apply literal_no_break. set_solver.
Qed.

(** The text of a segment behind a key: the markup of a line break
    at its head belongs to the key. *)
Definition seg_body (o : list _Tag) (seg : str) : str :=
  match seg with
  | [] => []
  | c :: s => literal [c] ++ flat_map (seg_char o) s
  end.

Lemma seg_body_chars o seg :
  lead o (bool_decide (head seg = Some NL)) ++ seg_body o seg
  = flat_map (seg_char o) seg.
Proof.
  destruct seg as [|c s]; cbn [head seg_body flat_map].
  - by rewrite bool_decide_false.
  - by rewrite app_assoc, seg_char_lead.
Qed.

End segment_text.

Section segments.
Import Utf16Facts.

Variable message : str.
Hypothesis message_scalar : Forall Utf16.scalar message.
Variable type : str.
Variable positions : gmap Z _PositionChange.
Hypothesis positions_breaks : forall k, k ∈ breaks message -> k ∈ dom positions.
Hypothesis positions_br :
  forall k, br (getd positions k) = bool_decide (k ∈ breaks message).

(** The markup of a key: the closing texts, the line break under the
    tags that stay open, the opening texts. *)
Lemma markup_key k o out :
  k ∈ dom positions ->
  (length (to_close (getd positions k)) <= length o)%nat ->
  markup (set_syntax_dict type) positions (paragraph_tag type)
    (newline_tag type) k (o, out)
  = (let pc := getd positions k in
     let o' := take (length o - length (to_close pc)) o in
     Ok (o' ++ to_open pc,
         out ++ concat (closing <$> to_close pc)
             ++ lead type o' (bool_decide (k ∈ breaks message))
             ++ concat (opening <$> to_open pc))).
Proof.
  intros Hk Hlen. rewrite markup_Ok by done. cbv zeta.
  rewrite positions_br. unfold lead.
  destruct (bool_decide (k ∈ breaks message)).
  - rewrite line_break_text, bind_Ok. by rewrite <- !app_assoc.
  - rewrite bind_Ok. simpl. by rewrite <- !app_assoc.
Qed.

(** A boundary where no tag opens or closes emits at most a line
    break. *)
Lemma markup_if_key_text k o out :
  to_open (getd positions k) = [] ->
  to_close (getd positions k) = [] ->
  markup_if_key (set_syntax_dict type) positions (paragraph_tag type)
    (newline_tag type) k (o, out)
  = Ok (o, out ++ lead type o (bool_decide (k ∈ breaks message))).
Proof.
  intros Hop Hcl. unfold markup_if_key.
  destruct (decide (k ∈ dom positions)) as [Hk|Hk].
  - rewrite markup_key by (rewrite ?Hcl; simpl; done || lia).
    cbv zeta. rewrite Hop, Hcl. simpl.
    by rewrite Nat.sub_0_r, firstn_all, !app_nil_r.
  - rewrite bool_decide_false by naive_solver. simpl. by rewrite app_nil_r.
Qed.

(** A segment [c :: s] behind a key, no tag opening or closing inside
    it: the walk emits its text, line breaks turned into markup, and
    reaches the boundary at its end. *)
Lemma char_tail_text s pre c todo o out :
  message = pre ++ (c :: s) ++ todo ->
  (forall k, k ∈ bounds_after pre (c :: s) -> k <> size (pre ++ c :: s) ->
             to_open (getd positions k) = []
             /\ to_close (getd positions k) = []) ->
  char_tail (set_syntax_dict type) positions (paragraph_tag type)
    (newline_tag type) pre ((c :: s) ++ todo) (o, out)
  = (st ← markup_if_key (set_syntax_dict type) positions
            (paragraph_tag type) (newline_tag type) (size (pre ++ c :: s))
            (o, out ++ literal [c] ++ flat_map (seg_char type o) s);
     char_tail (set_syntax_dict type) positions (paragraph_tag type)
       (newline_tag type) (pre ++ c :: s) todo st).
Proof.
  revert pre c out. induction s as [|c' s IH]; intros pre c out Hm Hin.
  - cbn [char_tail app flat_map]. unfold add_text. cbn [fst snd].
    by rewrite app_nil_r.
  - change ((c :: c' :: s) ++ todo) with (c :: (c' :: s) ++ todo).
    cbn [char_tail]. unfold add_text. cbn [fst snd].
    assert (Hlt : (size (pre ++ [c]) < size (pre ++ c :: c' :: s))%Z).
    { change (c :: c' :: s) with ([c] ++ c' :: s).
      rewrite app_assoc, (size_app (pre ++ [c])).
      pose proof (size_pos (c' :: s) ltac:(done)). lia. }
    destruct (Hin (size (pre ++ [c]))) as [Hop Hcl];
      [simpl; set_solver | lia |].
    rewrite markup_if_key_text, bind_Ok by done.
    rewrite (bool_decide_ext _ (head (c' :: s ++ todo) = Some NL)).
    2:{ apply breaks_prefix; [done|]. rewrite Hm, <- app_assoc. done. }
    replace (pre ++ c :: c' :: s) with ((pre ++ [c]) ++ c' :: s)
      by (by rewrite <- app_assoc).
    rewrite IH.
    + cbn [head flat_map]. rewrite <- !app_assoc.
      rewrite (app_assoc (lead type o _)), seg_char_lead. reflexivity.
    + rewrite Hm, <- app_assoc. done.
    + intros k Hk Hne. apply Hin.
      * simpl. set_solver.
      * by rewrite <- app_assoc in Hne.
Qed.

(** The first key, offset 0. *)
Lemma walk_start :
  0%Z ∈ dom positions ->
  to_close (getd positions 0) = [] ->
  markup (set_syntax_dict type) positions (paragraph_tag type)
    (newline_tag type) 0 ([], [])
  = Ok (to_open (getd positions 0),
        lead type [] (bool_decide (head message = Some NL))
        ++ concat (opening <$> to_open (getd positions 0))).
Proof.
  intros H0 Hcl. rewrite markup_key by (rewrite ?Hcl; done).
  cbv zeta. rewrite Hcl. simpl.
  rewrite (bool_decide_ext _ (head message = Some NL)); [done|].
  by apply (breaks_prefix message message_scalar []).
Qed.

(** From a key over a segment to the key at its end. *)
Lemma walk_segment pre seg todo o out :
  message = pre ++ seg ++ todo ->
  seg <> [] ->
  (forall k, (size pre < k < size (pre ++ seg))%Z ->
             to_open (getd positions k) = []
             /\ to_close (getd positions k) = []) ->
  size (pre ++ seg) ∈ dom positions ->
  (length (to_close (getd positions (size (pre ++ seg)))) <= length o)%nat ->
  char_tail (set_syntax_dict type) positions (paragraph_tag type)
    (newline_tag type) pre (seg ++ todo) (o, out)
  = (let pc := getd positions (size (pre ++ seg)) in
     let o' := take (length o - length (to_close pc)) o in
     char_tail (set_syntax_dict type) positions (paragraph_tag type)
       (newline_tag type) (pre ++ seg) todo
       (o' ++ to_open pc,
        out ++ seg_body type o seg ++ concat (closing <$> to_close pc)
            ++ lead type o' (bool_decide (head todo = Some NL))
            ++ concat (opening <$> to_open pc))).
Proof.
  intros Hm Hseg Hin Hk Hlen. destruct seg as [|c s]; [done|].
  rewrite char_tail_text; [|done|].
  - unfold markup_if_key. rewrite decide_True by done.
    rewrite markup_key by done. rewrite bind_Ok. cbv zeta.
    rewrite (bool_decide_ext _ (head todo = Some NL))
      by (apply breaks_prefix; [done|]; by rewrite <- app_assoc).
    simpl seg_body. by rewrite <- !app_assoc.
  - intros k Hk1 Hk2. apply Hin. apply bounds_after_gt in Hk1. lia.
Qed.

Lemma walk_end pre st :
  char_tail (set_syntax_dict type) positions (paragraph_tag type)
    (newline_tag type) pre [] st = Ok st.
Proof. reflexivity. Qed.

End segments.

Lemma size_prefix_bound message p q :
  message = p ++ q ->
  Utf16Facts.size p = 0%Z \/ Utf16Facts.size p ∈ bounds_after [] message.
Proof.
  intros ->. pose proof (size_take_bound (p ++ q) (length p)) as H.
  by rewrite take_app_length in H.
Qed.

(** ** One entity *)

Lemma opens_at_one k e t :
  opens_at k [(e, Some t)] = if decide (start_of e = k) then [t] else [].
Proof. unfold opens_at. simpl. destruct (decide _); by rewrite ?app_nil_r. Qed.

Lemma closes_at_one k e t :
  closes_at k [(e, Some t)] = if decide (end_of e = k) then [t] else [].
Proof. unfold closes_at. simpl. by destruct (decide _). Qed.

Ltac decide_lia :=
  repeat match goal with
    | |- context [decide ?P] =>
        first [ rewrite (decide_True (P := P)) by lia
              | rewrite (decide_False (P := P)) by lia ]
    end.

Section one_entity.
Import Utf16Facts.

Variables pre mid post : str.
Variable type : str.
Variable e : entity.
Variable t : _Tag.

Let message := pre ++ mid ++ post.

Hypothesis message_scalar : Forall Utf16.scalar message.
Hypothesis mid_not_empty : mid <> [].
Hypothesis e_offset : offset e = units pre.
Hypothesis e_length : length_ e = units mid.
Hypothesis e_tag :
  entity_tag (set_syntax_dict type) (enc message) e = Ok (Some t).

Lemma one_entity_start : start_of e = size pre.
Proof using e_offset. unfold start_of. by rewrite e_offset, size_units. Qed.

Lemma one_entity_end : end_of e = size (pre ++ mid).
Proof using e_offset e_length.
  unfold end_of. rewrite e_offset, e_length, size_app, !size_units. lia.
Qed.

(** The tag opens before the first character the entity covers and
    closes behind the last one. *)
Lemma convert_one_entity :
  convert message (Some [e]) type
  = Ok (wrap (paragraph_tag type)
          (flat_map (seg_char type []) pre
           ++ lead type [] (bool_decide (head mid = Some NL))
           ++ opening t ++ seg_body type [t] mid ++ closing t
           ++ flat_map (seg_char type []) post)).
Proof using All.
  pose proof one_entity_start as Hs. pose proof one_entity_end as He.
  pose proof (size_pos mid mid_not_empty) as Hmid.
  pose proof (size_nonneg pre) as Hpre0.
  pose proof (size_nonneg post) as Hpost0.
  assert (Hsz : size message = (size pre + size mid + size post)%Z)
    by (unfold message; rewrite !size_app; lia).
  assert (Hpm : size (pre ++ mid) = (size pre + size mid)%Z)
    by (by rewrite size_app).
  assert (Hpmp : (pre ++ mid) ++ post = message)
    by (unfold message; by rewrite <- app_assoc).
  destruct (convert_chars message message_scalar (Some [e]) [(e, Some t)] type)
    as (positions & _ & Hdom & Hget & ->).
  { done. }
  { by left. }
  { by repeat constructor. }
  { intros k. simpl. rewrite Hs, He. intros Hk.
    apply elem_of_cons in Hk as [->|Hk].
    - apply (size_prefix_bound message pre (mid ++ post)). done.
    - apply list_elem_of_singleton in Hk as ->.
      by apply (size_prefix_bound message (pre ++ mid) post). }
  assert (Hbr : forall k, k ∈ breaks message -> k ∈ dom positions)
    by (intros k Hk; rewrite Hdom; set_solver).
  assert (Hb : forall k, br (getd positions k)
                         = bool_decide (k ∈ breaks message))
    by (intros k; by rewrite Hget).
  assert (Hop : forall k, to_open (getd positions k)
                          = if decide (size pre = k) then [t] else [])
    by (intros k; rewrite Hget, <- Hs; cbn [to_open];
        by rewrite opens_at_one).
  assert (Hcl : forall k, to_close (getd positions k)
                          = if decide (size (pre ++ mid) = k) then [t] else [])
    by (intros k; rewrite Hget, <- He; cbn [to_close];
        by rewrite closes_at_one).
  assert (H0 : 0%Z ∈ dom positions) by (rewrite Hdom; set_solver).
  assert (Ha : size pre ∈ dom positions)
    by (rewrite Hdom; simpl; rewrite Hs; set_solver).
  assert (Hbd : size (pre ++ mid) ∈ dom positions)
    by (rewrite Hdom; simpl; rewrite He; set_solver).
  assert (HL : size message ∈ dom positions) by (rewrite Hdom; set_solver).
  (* behind the entity *)
  assert (Hpost_walk : forall out,
    char_tail (set_syntax_dict type) positions (paragraph_tag type)
      (newline_tag type) (pre ++ mid) post
      ([], out ++ lead type [] (bool_decide (head post = Some NL)))
    = Ok ([], out ++ flat_map (seg_char type []) post)).
  { intros out. destruct (decide (post = [])) as [Ep|Ep].
    - rewrite Ep. simpl. by rewrite !app_nil_r.
    - pose proof (size_pos post Ep) as Hpost.
      rewrite <- (app_nil_r post) at 1.
      rewrite (walk_segment message message_scalar type positions Hbr Hb
                 (pre ++ mid) post [] []); try done.
      + cbv zeta. rewrite Hop, Hcl, Hpmp. decide_lia.
        cbn [concat fmap list_fmap length take app head].
        rewrite (bool_decide_false (None = Some NL)) by done.
        rewrite walk_end, <- (seg_body_chars type [] post).
        cbn [lead]. by rewrite !app_nil_r, <- !app_assoc.
      + by rewrite app_nil_r.
      + intros k Hk. rewrite Hop, Hcl. rewrite Hpmp in Hk. by decide_lia.
      + by rewrite Hpmp.
      + rewrite Hcl, Hpmp. decide_lia. simpl. lia. }
  (* over the entity *)
  assert (Hmid_walk : forall out,
    char_tail (set_syntax_dict type) positions (paragraph_tag type)
      (newline_tag type) pre (mid ++ post) ([t], out)
    = Ok ([], out ++ seg_body type [t] mid ++ closing t
                  ++ flat_map (seg_char type []) post)).
  { intros out.
    rewrite (walk_segment message message_scalar type positions Hbr Hb
               pre mid post [t] out); try done.
    - cbv zeta. rewrite Hop, Hcl, Hpm. decide_lia.
      cbn [concat fmap list_fmap length take app Nat.sub].
      rewrite !app_nil_r.
      rewrite !app_assoc, Hpost_walk. by rewrite <- !app_assoc.
    - intros k Hk. rewrite Hop, Hcl. by decide_lia.
    - rewrite Hcl. decide_lia. done. }
  rewrite (walk_start message message_scalar type positions Hb H0)
    by (rewrite Hcl; by decide_lia).
  rewrite bind_Ok, Hop.
  destruct (decide (pre = [])) as [Ep|Ep].
  - assert (Hp0 : size pre = 0%Z) by (by rewrite Ep).
    rewrite decide_True by lia.
    rewrite (bool_decide_ext (head message = Some NL) (head mid = Some NL))
      by (unfold message; rewrite Ep; by destruct mid).
    unfold message. rewrite Ep in Hmid_walk |- *.
    cbn [flat_map app concat fmap list_fmap].
    rewrite Hmid_walk, bind_Ok. by rewrite !app_nil_r, <- !app_assoc.
  - pose proof (size_pos pre Ep) as Hpre.
    rewrite decide_False by lia. unfold message at 3.
    rewrite (walk_segment message message_scalar type positions Hbr Hb
               [] pre (mid ++ post) [] _); try done.
    + cbv zeta. cbn [app]. rewrite Hop, Hcl. decide_lia.
      cbn [concat fmap list_fmap length take app Nat.sub].
      rewrite (bool_decide_ext (head (mid ++ post) = Some NL)
                 (head mid = Some NL)) by (by destruct mid).
      rewrite !app_nil_r, Hmid_walk, bind_Ok. cbn [snd].
      rewrite <- (seg_body_chars type [] pre).
      rewrite (bool_decide_ext (head message = Some NL) (head pre = Some NL))
        by (unfold message; by destruct pre).
      by rewrite <- !app_assoc.
    + intros k Hk. rewrite Hop, Hcl. change (size []) with 0%Z in Hk.
      cbn [app] in Hk. by decide_lia.
    + rewrite Hcl. cbn [app]. decide_lia. simpl. lia.
Qed.

End one_entity.

Lemma opens_at_none k e : opens_at k [(e, None)] = [].
Proof. unfold opens_at. simpl. by destruct (decide _). Qed.

Lemma closes_at_none k e : closes_at k [(e, None)] = [].
Proof. unfold closes_at. simpl. by destruct (decide _). Qed.

(** An entity whose class has no tag leaves the text as a text without
    entities is rendered, line break or not. *)
Lemma convert_untagged_entity pre mid post type e :
  let message := pre ++ mid ++ post in
  Forall Utf16.scalar message ->
  offset e = Utf16Facts.units pre ->
  length_ e = Utf16Facts.units mid ->
  entity_tag (set_syntax_dict type) (Utf16Facts.enc message) e = Ok None ->
  convert message (Some [e]) type
  = Ok (wrap (paragraph_tag type) (flat_map (seg_char type []) message)).
Proof.
  intros message Hm Hoff Hlen Htag.
  pose proof (one_entity_start pre e Hoff) as Hs.
  pose proof (one_entity_end pre mid e Hoff Hlen) as He.
  destruct (convert_chars message Hm (Some [e]) [(e, None)] type)
    as (positions & _ & Hdom & Hget & ->).
  { done. }
  { by left. }
  { by repeat constructor. }
  { intros k. simpl. rewrite Hs, He. intros Hk.
    apply elem_of_cons in Hk as [->|Hk].
    - by apply (size_prefix_bound message pre (mid ++ post)).
    - apply list_elem_of_singleton in Hk as ->.
      apply (size_prefix_bound message (pre ++ mid) post).
      unfold message. by rewrite <- app_assoc. }
  assert (Hbr : forall k, k ∈ breaks message -> k ∈ dom positions)
    by (intros k Hk; rewrite Hdom; set_solver).
  assert (Hb : forall k, br (getd positions k) = bool_decide (k ∈ breaks message))
    by (intros k; by rewrite Hget).
  assert (Hop : forall k, to_open (getd positions k) = [])
    by (intros k; rewrite Hget; apply opens_at_none).
  assert (Hcl : forall k, to_close (getd positions k) = [])
    by (intros k; rewrite Hget; apply closes_at_none).
  rewrite (walk_start message Hm type positions Hb)
    by (done || rewrite Hdom; set_solver).
  rewrite bind_Ok, Hop. destruct (decide (message = [])) as [E|E].
  - rewrite E. simpl. by rewrite ?app_nil_r.
  - match goal with
    | |- context [char_tail _ _ _ _ [] message (?o, ?out)] =>
        pose proof (walk_segment message Hm type positions Hbr Hb
                      [] message [] o out) as Hw
    end.
    rewrite app_nil_r in Hw. rewrite Hw; try done.
    + cbv zeta. cbn [app]. rewrite Hop, Hcl.
      cbn [concat fmap list_fmap length take app Nat.sub head].
      rewrite (bool_decide_false (None = Some NL)) by done.
      rewrite walk_end, bind_Ok, <- (seg_body_chars type [] message).
      cbn [lead]. by rewrite !app_nil_r.
    + rewrite Hdom. set_solver.
    + rewrite Hcl. simpl. lia.
Qed.

(** ** Two entities, one strictly inside the other *)

Section nested_entities.
Import Utf16Facts.

Variables pre mid post : str.
Variable type : str.
Variables outer inner : entity.
Variables B I : _Tag.

Let message := pre ++ mid ++ post.

Hypothesis message_scalar : Forall Utf16.scalar message.
Hypothesis pre_not_empty : pre <> [].
Hypothesis mid_not_empty : mid <> [].
Hypothesis post_not_empty : post <> [].
Hypothesis outer_offset : offset outer = 0%Z.
Hypothesis outer_length : length_ outer = units message.
Hypothesis inner_offset : offset inner = units pre.
Hypothesis inner_length : length_ inner = units mid.
Hypothesis outer_tag :
  entity_tag (set_syntax_dict type) (enc message) outer = Ok (Some B).
Hypothesis inner_tag :
  entity_tag (set_syntax_dict type) (enc message) inner = Ok (Some I).

(** In either order of the two entities the inner tag opens after
    the outer one and closes before it. *)
Lemma convert_nested entities :
  entities = [outer; inner] \/ entities = [inner; outer] ->
  convert message (Some entities) type
  = Ok (wrap (paragraph_tag type)
          (lead type [] (bool_decide (head pre = Some NL))
           ++ opening B ++ seg_body type [B] pre
           ++ lead type [B] (bool_decide (head mid = Some NL))
           ++ opening I ++ seg_body type [B; I] mid ++ closing I
           ++ lead type [B] (bool_decide (head post = Some NL))
           ++ seg_body type [B] post ++ closing B)).
Proof using All.
  intros Hent.
  pose proof (one_entity_start pre inner inner_offset) as Hsi.
  pose proof (one_entity_end pre mid inner inner_offset inner_length) as Hei.
  assert (Hso : start_of outer = 0%Z)
    by (unfold start_of; rewrite outer_offset; lia).
  assert (Heo : end_of outer = size message)
    by (unfold end_of; rewrite outer_offset, outer_length, size_units; lia).
  pose proof (size_pos pre pre_not_empty) as Hpre.
  pose proof (size_pos mid mid_not_empty) as Hmid.
  pose proof (size_pos post post_not_empty) as Hpost.
  assert (Hsz : size message = (size pre + size mid + size post)%Z)
    by (unfold message; rewrite !size_app; lia).
  assert (Hpm : size (pre ++ mid) = (size pre + size mid)%Z)
    by (by rewrite size_app).
  assert (Hpmp : (pre ++ mid) ++ post = message)
    by (unfold message; by rewrite <- app_assoc).
  assert (exists ets,
            ets.*1 = entities /\ ets <> []
            /\ resolved (set_syntax_dict type) (enc message) ets
            /\ (forall k, opens_at k ets
                          = if decide (k = 0%Z) then [B]
                            else if decide (k = size pre) then [I] else [])
            /\ (forall k, closes_at k ets
                          = if decide (k = size message) then [B]
                            else if decide (k = size (pre ++ mid)) then [I]
                            else []))
    as (ets & Hets & Hne & Hres & Hopens & Hcloses).
  { destruct Hent as [-> | ->];
      [exists [(outer, Some B); (inner, Some I)]
      |exists [(inner, Some I); (outer, Some B)]];
      (split; [done|]); (split; [done|]);
      (split; [by repeat constructor|]); split; intros k.
    all: try change (opens_at k [?x; ?y]) with (opens_at k ([x] ++ [y])).
    all: try change (closes_at k [?x; ?y]) with (closes_at k ([x] ++ [y])).
    all: rewrite ?opens_at_app, ?closes_at_app, ?opens_at_one,
           ?closes_at_one, ?Hso, ?Hsi, ?Heo, ?Hei.
    all: repeat (destruct (decide _)); try done; lia. }
  destruct (convert_chars message message_scalar (Some entities) ets type)
    as (positions & _ & Hdom & Hget & ->).
  { done. }
  { by left. }
  { done. }
  { intros k Hk.
    assert (Hk' : k ∈ [0%Z; size message; size pre; size (pre ++ mid)]).
    { rewrite Hets in Hk. rewrite <- Hso, <- Heo, <- Hsi, <- Hei.
      destruct Hent as [-> | ->]; simpl in Hk; set_solver. }
    repeat (apply elem_of_cons in Hk' as [->|Hk']); try by left.
    - apply size_message_bound.
    - by apply (size_prefix_bound message pre (mid ++ post)).
    - by apply (size_prefix_bound message (pre ++ mid) post).
    - by apply elem_of_nil in Hk'. }
  assert (Hbr : forall k, k ∈ breaks message -> k ∈ dom positions)
    by (intros k Hk; rewrite Hdom; set_solver).
  assert (Hb : forall k, br (getd positions k)
                         = bool_decide (k ∈ breaks message))
    by (intros k; by rewrite Hget).
  assert (Hop : forall k, to_open (getd positions k)
                          = if decide (k = 0%Z) then [B]
                            else if decide (k = size pre) then [I] else [])
    by (intros k; rewrite Hget; apply Hopens).
  assert (Hcl : forall k, to_close (getd positions k)
                          = if decide (k = size message) then [B]
                            else if decide (k = size (pre ++ mid)) then [I]
                            else [])
    by (intros k; rewrite Hget; apply Hcloses).
  assert (Hkeys : 0%Z ∈ dom positions /\ size pre ∈ dom positions
                  /\ size (pre ++ mid) ∈ dom positions
                  /\ size message ∈ dom positions).
  { rewrite Hdom, Hets. rewrite <- Hsi, <- Hei.
    destruct Hent as [-> | ->]; simpl; set_solver. }
  destruct Hkeys as (H0 & Ha & Hbd & HL).
  rewrite (walk_start message message_scalar type positions Hb H0)
    by (rewrite Hcl; by decide_lia).
  rewrite bind_Ok, Hop. decide_lia. unfold message at 3.
  rewrite (walk_segment message message_scalar type positions Hbr Hb
             [] pre (mid ++ post) [B] _); try done.
  2:{ intros k Hk. rewrite Hop, Hcl. change (size []) with 0%Z in Hk.
      cbn [app] in Hk. by decide_lia. }
  2:{ rewrite Hcl. cbn [app]. decide_lia. simpl. lia. }
  cbv zeta. cbn [app]. rewrite Hop, Hcl. decide_lia.
  cbn [concat fmap list_fmap length take app Nat.sub].
  rewrite (walk_segment message message_scalar type positions Hbr Hb
             pre mid post [B; I] _); try done.
  2:{ intros k Hk. rewrite Hop, Hcl. by decide_lia. }
  2:{ rewrite Hcl. decide_lia. simpl. lia. }
  cbv zeta. rewrite Hop, Hcl. decide_lia.
  cbn [concat fmap list_fmap length take app Nat.sub].
  match goal with
  | |- context [char_tail _ _ _ _ (pre ++ mid) post (?o, ?out)] =>
      pose proof (walk_segment message message_scalar type positions Hbr Hb
                    (pre ++ mid) post [] o out) as Hw
  end.
  rewrite app_nil_r in Hw. rewrite Hw; try done.
  2:{ intros k Hk. rewrite Hop, Hcl. rewrite Hpmp in Hk. by decide_lia. }
  2:{ by rewrite Hpmp. }
  2:{ rewrite Hcl, Hpmp. decide_lia. simpl. lia. }
  cbv zeta. rewrite Hop, Hcl, Hpmp. decide_lia.
  cbn [concat fmap list_fmap length take app Nat.sub head].
  rewrite (bool_decide_false (None = Some NL)) by done.
  rewrite walk_end, bind_Ok. cbn [lead].
  rewrite (bool_decide_ext (head message = Some NL) (head pre = Some NL))
    by (unfold message; by destruct pre).
  rewrite (bool_decide_ext (head (mid ++ post) = Some NL)
             (head mid = Some NL)) by (by destruct mid).
  by rewrite !app_nil_r, <- !app_assoc.
Qed.

End nested_entities.

(** ** The stack of open tags: how many are open *)

Section stack.

Variable d : gmap string dict_value.
Variable message_b16 : bytes.
Variable positions : gmap Z _PositionChange.
Variables tag_paragraph tag_newline : _Tag.

Lemma line_break_stack o out o' out' :
  line_break d tag_paragraph tag_newline (o, out) = Ok (o', out') -> o' = o.
Proof.
  unfold line_break. destruct (code_is_open d o) as [[]|]; simpl; congruence.
Qed.

(** A round that does not raise had enough open tags to close, and
    leaves the closed ones off and the opened ones on the stack. *)
Lemma markup_stack k o out o' out' :
  k ∈ dom positions ->
  markup d positions tag_paragraph tag_newline k (o, out) = Ok (o', out') ->
  (length (to_close (getd positions k)) <= length o)%nat
  /\ length o' = (length o - length (to_close (getd positions k))
                  + length (to_open (getd positions k)))%nat.
Proof.
  intros Hk H.
  destruct (decide (length (to_close (getd positions k)) <= length o)%nat)
    as [Hle|Hgt].
  - split; [done|]. rewrite markup_Ok in H by done. cbv zeta in H.
    destruct (br (getd positions k)).
    + destruct (line_break _ _ _ _) as [[o1 out1]|] eqn:Hlb; [|done].
      apply line_break_stack in Hlb as ->. rewrite bind_Ok in H.
      injection H as <- _. rewrite length_app, length_take. lia.
    + rewrite bind_Ok in H. injection H as <- _.
      rewrite length_app, length_take. lia.
  - rewrite markup_Raise in H by (done || lia). done.
Qed.

Definition opened (l : list Z) : nat :=
  sum_list ((fun k => length (to_open (getd positions k))) <$> l).

Definition closed (l : list Z) : nat :=
  sum_list ((fun k => length (to_close (getd positions k))) <$> l).

Lemma main_loop_body_stack k rest o out o' out' :
  k ∈ dom positions ->
  main_loop_body d message_b16 positions tag_paragraph tag_newline
    k rest (o, out) = Ok (o', out') ->
  (length (to_close (getd positions k)) <= length o)%nat
  /\ length o' = (length o - length (to_close (getd positions k))
                  + length (to_open (getd positions k)))%nat.
Proof.
  intros Hk. unfold main_loop_body.
  destruct (if decide _ then _ else _) as [next|]; [|done].
  rewrite bind_Ok. destruct (Utf16.decode _); [|done]. rewrite bind_Ok.
  destruct (markup _ _ _ _ _ _) as [[o1 out1]|] eqn:Hm; [|done].
  rewrite bind_Ok. intros [= <- _]. by eapply markup_stack.
Qed.

(** When the loop does not raise, at every point the tags to close
    there were open: no more were closed so far than were opened. *)
Lemma main_loop_stack l1 k l2 o out st :
  (forall x, x ∈ l1 ++ k :: l2 -> x ∈ dom positions) ->
  main_loop d message_b16 positions tag_paragraph tag_newline
    (l1 ++ k :: l2) (o, out) = Ok st ->
  (closed l1 + length (to_close (getd positions k))
   <= length o + opened l1)%nat.
Proof.
  revert o out. induction l1 as [|k0 l1 IH]; intros o out Hdom H.
  - simpl in H.
    destruct (main_loop_body _ _ _ _ _ _ _ _) as [[o1 out1]|] eqn:Hb;
      [|done].
    apply main_loop_body_stack in Hb as [Hle _]; [|apply Hdom; set_solver].
    unfold closed, opened. rewrite ?fmap_cons, ?fmap_nil.
    cbn [sum_list_with id]. lia.
  - simpl in H.
    destruct (main_loop_body _ _ _ _ _ _ _ _) as [[o1 out1]|] eqn:Hb;
      [|done].
    apply main_loop_body_stack in Hb as [Hle Hlen]; [|apply Hdom; set_solver].
    rewrite bind_Ok in H. apply IH in H; [|intros x Hx; apply Hdom; set_solver].
    unfold closed, opened in *. rewrite ?fmap_cons, ?fmap_nil.
    cbn [sum_list_with id]. lia.
Qed.

End stack.

(** ** Counting the tagged entities *)

(** The number of entities with a tag that satisfy [P]. *)
Definition tagged_count (P : entity -> Prop) `{forall e, Decision (P e)}
  (ets : list (entity * option _Tag)) : nat :=
  sum_list ((fun et => if decide (P et.1) then length (option_list et.2)
                       else 0%nat) <$> ets).

Lemma tagged_count_cons P `{forall e, Decision (P e)} et ets :
  tagged_count P (et :: ets)
  = ((if decide (P et.1) then length (option_list et.2) else 0)
     + tagged_count P ets)%nat.
Proof. reflexivity. Qed.

Lemma length_opens_at k ets :
  length (opens_at k ets) = tagged_count (fun f => start_of f = k) ets.
Proof.
  induction ets as [|et ets IH]; [done|].
  rewrite tagged_count_cons, <- IH. unfold opens_at. simpl.
  rewrite length_app. by destruct (decide _).
Qed.

Lemma length_closes_at k ets :
  length (closes_at k ets) = tagged_count (fun f => end_of f = k) ets.
Proof.
  induction ets as [|et ets IH]; [done|].
  rewrite tagged_count_cons, <- IH. unfold closes_at. simpl.
  rewrite !length_rev, length_app. by destruct (decide _).
Qed.

Lemma tagged_count_sum (f : entity -> Z) l ets :
  NoDup l ->
  sum_list ((fun k => tagged_count (fun e => f e = k) ets) <$> l)
  = tagged_count (fun e => f e ∈ l) ets.
Proof.
  induction 1 as [|k l Hk Hl IH].
  - simpl. induction ets as [|et ets IHe]; [done|].
    rewrite tagged_count_cons, <- IHe.
    rewrite decide_False by (by intros ?%elem_of_nil). done.
  - rewrite fmap_cons. cbn [sum_list_with id]. rewrite IH. clear IH.
    induction ets as [|et ets IHe]; [done|].
    rewrite !tagged_count_cons, <- IHe.
    destruct (decide (f et.1 = k)) as [E|E].
    + rewrite decide_False by (by rewrite E).
      rewrite decide_True by (rewrite E; set_solver). lia.
    + destruct (decide (f et.1 ∈ l)) as [E'|E'].
      * rewrite decide_True by set_solver. lia.
      * rewrite decide_False by set_solver. lia.
Qed.

(** More entities satisfy a weaker property, and strictly more when a
    tagged one satisfies only the weaker. *)
Lemma tagged_count_lt P Q `{forall e, Decision (P e)} `{forall e, Decision (Q e)}
  ets e t :
  (forall f, f ∈ ets.*1 -> P f -> Q f) ->
  (e, Some t) ∈ ets -> ~ P e -> Q e ->
  (tagged_count P ets < tagged_count Q ets)%nat.
Proof.
  intros Himp Hin HP HQ.
  assert (Hle : forall l, (forall f, f ∈ l.*1 -> P f -> Q f) ->
                          (tagged_count P l <= tagged_count Q l)%nat).
  { clear. induction l as [|et l IH]; intros Himp; [done|].
    rewrite !tagged_count_cons.
    assert (tagged_count P l <= tagged_count Q l)%nat
      by (apply IH; intros f Hf; apply Himp; set_solver).
    destruct (decide (P et.1)) as [HP|HP].
    - rewrite decide_True by (apply Himp; [set_solver|done]). lia.
    - destruct (decide (Q et.1)); lia. }
  induction ets as [|et ets IH]; [by apply elem_of_nil in Hin|].
  rewrite !tagged_count_cons.
  assert (tagged_count P ets <= tagged_count Q ets)%nat
    by (apply Hle; intros f Hf; apply Himp; set_solver).
  apply elem_of_cons in Hin as [<-|Hin].
  - simpl. rewrite decide_False, decide_True by done. simpl. lia.
  - assert (tagged_count P ets < tagged_count Q ets)%nat
      by (apply IH; [intros f Hf; apply Himp; set_solver|done]).
    destruct (decide (P et.1)) as [HP'|HP'].
    + rewrite decide_True by (apply Himp; [set_solver|done]). lia.
    + destruct (decide (Q et.1)); lia.
Qed.

(** The keys below a key, as the sorted keys list them. *)
Lemma sorted_keys_split positions k :
  k ∈ dom positions ->
  exists l1 l2,
    sorted_keys positions = l1 ++ k :: l2
    /\ NoDup l1
    /\ forall x, x ∈ l1 <-> x ∈ dom positions /\ (x < k)%Z.
Proof.
  intros Hk.
  assert (Hperm : sorted_keys positions ≡ₚ (map_to_list positions).*1)
    by apply merge_sort_Permutation.
  assert (Hnd : NoDup (sorted_keys positions))
    by (rewrite Hperm; apply NoDup_fst_map_to_list).
  assert (Hss : StronglySorted Z.le (sorted_keys positions))
    by (apply StronglySorted_merge_sort; apply _).
  assert (Hin : forall x, x ∈ sorted_keys positions <-> x ∈ dom positions)
    by (intros x; by rewrite Hperm, elem_of_keys).
  destruct (list_elem_of_split (sorted_keys positions) k) as (l1 & l2 & E);
    [by apply Hin|].
  exists l1, l2. rewrite E in *. split; [done|].
  apply NoDup_app in Hnd as (Hnd1 & Hdis & Hnd2). split; [done|].
  apply NoDup_cons in Hnd2 as [Hk2 _].
  intros x. split.
  - intros Hx. split; [apply Hin; set_solver|].
    assert (x <= k)%Z
      by (eapply (StronglySorted_app_1_elem_of Z.le); [done..|set_solver]).
    assert (x <> k) by (intros ->; apply (Hdis k); set_solver).
    lia.
  - intros [Hx Hlt]. apply Hin in Hx.
    apply elem_of_app in Hx as [Hx|Hx]; [done|].
    apply elem_of_cons in Hx as [->|Hx]; [lia|].
    apply StronglySorted_app_1_r in Hss.
    apply StronglySorted_inv in Hss as [_ Hall].
    rewrite Forall_forall in Hall. specialize (Hall x Hx). lia.
Qed.

Lemma for_entity_positions_inv d b16 es positions positions' :
  for_ es (entity_positions d b16) positions = Ok positions' ->
  exists ets, ets.*1 = es /\ resolved d b16 ets.
Proof.
  revert positions. induction es as [|e es IH]; intros positions H.
  - exists []. split; [done|constructor].
  - simpl in H.
    destruct (entity_positions d b16 e positions) as [p1|] eqn:He; [|done].
    rewrite bind_Ok in H. destruct (IH _ H) as (ets & <- & Hres).
    unfold entity_positions in He.
    destruct (entity_tag d b16 e) as [t|] eqn:Ht; [|done].
    exists ((e, t) :: ets). split; [done|]. by constructor.
Qed.

(** The class of an entity that resolves has a dictionary value, and a
    tag comes out unless that value is [None]. *)
Lemma entity_tag_Some d b16 e t :
  d !! type_name (kind e) <> Some PyNone ->
  entity_tag d b16 e = Ok t -> exists tag, t = Some tag.
Proof.
  unfold entity_tag. intros Hne.
  destruct (d !! type_name (kind e)) as [[|tag|f]|]; try done.
  - intros [= <-]. by exists tag.
  - destruct (Utf16.decode _); [|done]. rewrite bind_Ok.
    destruct (f e _) as [tag|]; [|done]. intros [= <-]. by exists tag.
Qed.

(** What a conversion that returns went through. *)
Lemma convert_Ok_inv message es type s :
  es <> [] ->
  convert message (Some es) type = Ok s ->
  exists ets positions st,
    ets.*1 = es
    /\ resolved (set_syntax_dict type) (Utf16Facts.enc message) ets
    /\ (forall k, k ∈ bounds es -> k ∈ dom positions)
    /\ (forall k, to_open (getd positions k) = opens_at k ets)
    /\ (forall k, to_close (getd positions k) = closes_at k ets)
    /\ main_loop (set_syntax_dict type) (Utf16Facts.enc message) positions
         (paragraph_tag type) (newline_tag type) (sorted_keys positions)
         ([], []) = Ok st.
Proof.
  intros Hes. unfold convert, __init__.
  destruct (Utf16.encode message) as [b16|] eqn:Henc; [|done].
  apply Utf16Facts.encode_Ok in Henc as [Hm ->]. rewrite !bind_Ok.
  unfold to_syntax. cbn [_entities _message _positions _message_b16 output].
  replace (no_entities (Some es)) with false by (by destruct es).
  cbn [andb]. rewrite get_tag_paragraph, get_tag_newline, !bind_Ok.
  unfold prepare_positions.
  cbn [_entities _message _positions _message_b16 output].
  rewrite prepare_entity_positions_for.
  change (entity_list (Some es)) with es.
  set (p0 := _ensure_position_exists _ (_ensure_position_exists 0 ∅)).
  destruct (for_ es _ p0) as [p1|] eqn:Hfor; [|done].
  destruct (for_entity_positions_inv _ _ _ _ _ Hfor) as (ets & Hets & Hres).
  destruct (entity_loop_spec _ _ ets p0 Hres) as (p1' & Hp1 & Hd1 & Hg1).
  rewrite Hets, Hfor in Hp1. injection Hp1 as <-.
  rewrite bind_Ok. unfold _prepare_br_positions.
  destruct (br_loop_spec message Hm (seq 0 (length message)) p1)
    as (p2 & -> & Hd2 & Hg2).
  rewrite bind_Ok.
  destruct (main_loop _ _ _ _ _ _ _) as [st|] eqn:Hloop; [|done].
  intros _. exists ets, p2, st.
  assert (Hg0 : forall k, getd p0 k = PositionChange [] [] false)
    by (intros k; unfold p0; by rewrite !ensure_getd).
  split; [done|]. split; [done|]. split; [|split; [|split]].
  - intros k Hk. rewrite Hd2, Hd1, Hets. set_solver.
  - intros k. by rewrite Hg2, Hg1, Hg0.
  - intros k. rewrite Hg2, Hg1, Hg0. simpl. by rewrite app_nil_r.
  - done.
Qed.

(** ** The four syntaxes *)

Lemma set_syntax_dict_html type :
  is_html type -> set_syntax_dict type = html_dict.
Proof.
  unfold is_html. intros H. unfold set_syntax_dict. rewrite H.
  rewrite !decide_False by (intros [?|?]; discriminate).
  by rewrite decide_True.
Qed.

Lemma paragraph_tag_html type :
  is_html type -> paragraph_tag type = Tag (lit "<p>") (lit "</p>").
Proof. intros H. unfold paragraph_tag. by rewrite decide_True. Qed.

Lemma paragraph_tag_other type :
  ~ is_html type -> paragraph_tag type = Tag [] [NL].
Proof. intros H. unfold paragraph_tag. by rewrite decide_False. Qed.

(** The wrapper is never empty: the paragraph tag of every dictionary
    has a closing text. *)
Lemma wrap_paragraph type out :
  wrap (paragraph_tag type) out
  = opening (paragraph_tag type) ++ out ++ closing (paragraph_tag type).
Proof.
  unfold wrap, paragraph_tag.
  destruct (decide (is_html type)); by rewrite bool_decide_true by (by right).
Qed.

Definition pre_tag : _Tag := Tag (lit "<pre>") (lit "</pre>").

Lemma break_text_html type o :
  is_html type -> pre_tag ∉ o -> break_text type o = lit "</p><p>".
Proof.
  intros H Ho. unfold break_text.
  rewrite set_syntax_dict_html, paragraph_tag_html by done.
  change (code_tag html_dict) with (Some pre_tag). cbv beta iota.
  by rewrite bool_decide_false.
Qed.

(** What a character of the text turns into under HTML outside a code
    span. *)
Definition html_char (c : N) : str :=
  if decide (c = NL) then lit "</p><p>" else escape_char c.

Lemma seg_char_html type o c :
  is_html type -> pre_tag ∉ o -> seg_char type o c = html_char c.
Proof.
  intros H Ho. unfold seg_char, html_char.
  destruct (decide (c = NL)); [by apply break_text_html|apply escape_one].
Qed.

Lemma flat_map_seg_char_html type o s :
  is_html type -> pre_tag ∉ o ->
  flat_map (seg_char type o) s = flat_map html_char s.
Proof.
  intros H Ho. apply flat_map_ext. intros c. by apply seg_char_html.
Qed.

Lemma seg_body_html type o s :
  is_html type -> pre_tag ∉ o -> seg_body type o s = seg_body type [] s.
Proof.
  intros H Ho. destruct s as [|c s]; [done|]. simpl.
  rewrite !(flat_map_seg_char_html type) by (done || set_solver). done.
Qed.

Lemma lead_html type o b :
  is_html type -> pre_tag ∉ o -> lead type o b = lead type [] b.
Proof.
  intros H Ho. unfold lead. destruct b; [|done].
  rewrite !break_text_html by (done || set_solver). done.
Qed.

(** Under HTML, the paragraph break of a text that begins with a line
    break, and the text behind it. *)
Definition html_lead (s : str) : str :=
  if bool_decide (head s = Some NL) then lit "</p><p>" else [].

Definition html_body (s : str) : str :=
  match s with
  | [] => []
  | c :: s' => literal [c] ++ flat_map html_char s'
  end.

Lemma html_lead_body s : html_lead s ++ html_body s = flat_map html_char s.
Proof.
  destruct s as [|c s]; [done|]. unfold html_lead, html_body, html_char.
  cbn [head flat_map]. destruct (decide (c = NL)) as [->|Hc].
  - by rewrite bool_decide_true.
  - rewrite bool_decide_false by congruence.
    rewrite literal_no_break by set_solver. by rewrite escape_one.
Qed.

Lemma lead_html_lead type s :
  is_html type -> lead type [] (bool_decide (head s = Some NL)) = html_lead s.
Proof.
  intros H. unfold lead, html_lead. destruct (bool_decide _); [|done].
  apply break_text_html; [done|set_solver].
Qed.

Lemma seg_body_html_body type s :
  is_html type -> seg_body type [] s = html_body s.
Proof.
  intros H. destruct s as [|c s]; [done|]. simpl.
  by rewrite flat_map_seg_char_html by (done || set_solver).
Qed.

Global Instance scalar_dec c : Decision (Utf16.scalar c).
Proof. unfold Utf16.scalar. apply _. Defined.

(** Closed facts about concrete texts, settled by evaluation. *)
Ltac by_compute := apply (bool_decide_unpack _); vm_compute; exact I.

(** * The claims *)

(** C1. A text without line break, converted with no entity list or an
    empty one, comes back as it is under every syntax selector: nothing
    is escaped and nothing wrapped, whatever characters the text holds.
    [to_syntax] does so on every object; a conversion from the text does
    so when the object can be built, which a lone surrogate in the text
    prevents: the constructor's [encode] raises on it. *)
Theorem fast_path_identity :
  (forall self type,
     no_entities (_entities self) = true ->
     NL ∉ _message self ->
     exists self',
       to_syntax type self = Ok (_message self, self')
       /\ output self' = _message self)
  /\ (forall message entities type,
        Forall Utf16.scalar message ->
        entity_list entities = [] ->
        NL ∉ message ->
        convert message entities type = Ok message).
Proof.
  split.
  - intros self type He Hnl. unfold to_syntax.
    rewrite He, bool_decide_true by done. by eexists.
  - intros message entities type Hm He Hnl. unfold convert, __init__.
    rewrite Utf16Facts.encode_scalar by done. rewrite !bind_Ok.
    unfold to_syntax. cbn [_entities _message].
    rewrite no_entities_list, He.
    rewrite bool_decide_true by done. rewrite bool_decide_true by done.
    reflexivity.
Qed.

Lemma fast_path_identity_witness :
  convert (lit "1 < 2 && *x*") None (lit "html") = Ok (lit "1 < 2 && *x*").
Proof.
  apply (proj2 fast_path_identity).
  - by_compute.
  - reflexivity.
  - by_compute.
Defined.

Definition bold_tag : _Tag := Tag (lit "<b>") (lit "</b>").
Definition italic_tag : _Tag := Tag (lit "<i>") (lit "</i>").

Lemma entity_tag_static d b16 e t :
  d !! type_name (kind e) = Some (PyTag t) -> entity_tag d b16 e = Ok (Some t).
Proof. intros H. unfold entity_tag. by rewrite H. Qed.

Lemma entity_tag_none d b16 e :
  d !! type_name (kind e) = Some PyNone -> entity_tag d b16 e = Ok None.
Proof. intros H. unfold entity_tag. by rewrite H. Qed.

(** C2, as stated, fails: the tags that close at one offset are closed
    in the reverse of the order of the entity list, not of the order
    they were opened in. With the Italic entity over [cd] listed before
    the Bold entity over [abcd], Bold opens at offset 0 and Italic at
    byte offset 4, and at byte offset 8 the close list is Bold, Italic:
    the output closes [</b>] before [</i>]. *)
Lemma close_order_counterexample :
  let entities :=
    Some [ent MessageEntityItalic 2 2; ent MessageEntityBold 0 4] in
  (positions ← position_index (lit "abcd") entities (lit "html");
   Ok (to_open (getd positions 0), to_open (getd positions 4),
       to_close (getd positions 8)))
  = Ok ([bold_tag], [italic_tag], [bold_tag; italic_tag])
  /\ convert (lit "abcd") entities (lit "html")
     = Ok (lit "<p><b>ab<i>cd</b></i></p>").
Proof. split; vm_compute; reflexivity. Qed.

(** C2, amended. Under HTML, a Bold entity over the whole text and an
    Italic entity strictly inside it, in either order of the list, give
    [<b>], [<i>], [</i>], [</b>] in that order around the escaped text
    (a line break of the text being [</p><p>], emitted before a tag
    that opens in front of it). For every entity list,
    the open list of an offset holds the tags of the entities that start
    there in the order of the list, and its close list the tags of those
    that end there in the reverse of that order; the markup of an offset
    is the closing texts of its close list, in the order of that list,
    and then the opening texts of its open list. *)
Theorem close_order :
  (forall pre mid post type entities,
     let message := pre ++ mid ++ post in
     let bold := ent MessageEntityBold 0 (Utf16Facts.units message) in
     let italic :=
       ent MessageEntityItalic (Utf16Facts.units pre) (Utf16Facts.units mid) in
     is_html type ->
     Forall Utf16.scalar message ->
     pre <> [] -> mid <> [] -> post <> [] ->
     entities = [bold; italic] \/ entities = [italic; bold] ->
     convert message (Some entities) type
     = Ok (lit "<p>" ++ html_lead pre ++ lit "<b>" ++ html_body pre
           ++ html_lead mid ++ lit "<i>" ++ html_body mid ++ lit "</i>"
           ++ flat_map html_char post ++ lit "</b>" ++ lit "</p>"))
  /\ (forall message entities ets type,
        Forall Utf16.scalar message ->
        ets.*1 = entity_list entities ->
        resolved (set_syntax_dict type) (Utf16Facts.enc message) ets ->
        exists positions,
          position_index message entities type = Ok positions
          /\ forall k,
               to_open (getd positions k) = opens_at k ets
               /\ to_close (getd positions k) = closes_at k ets)
  /\ (forall d positions tag_paragraph tag_newline k o out,
        k ∈ dom positions ->
        br (getd positions k) = false ->
        (length (to_close (getd positions k)) <= length o)%nat ->
        markup d positions tag_paragraph tag_newline k (o, out)
        = let pc := getd positions k in
          Ok (take (length o - length (to_close pc)) o ++ to_open pc,
              out ++ concat (closing <$> to_close pc)
                  ++ concat (opening <$> to_open pc))).
Proof.
  split; [|split]; cycle 2.
  { intros d positions tp tn k o out Hk Hbr Hlen.
    rewrite markup_Ok by done. cbv zeta. rewrite Hbr, bind_Ok.
    by rewrite <- app_assoc. }
  - intros pre mid post type entities message bold italic Hty Hm Hpre Hmid
      Hpost Hent.
    rewrite (convert_nested pre mid post type bold italic bold_tag italic_tag);
      try done.
    + rewrite wrap_paragraph, paragraph_tag_html by done.
      assert (Hb : pre_tag ∉ [bold_tag])
        by (apply (bool_decide_unpack _); by vm_compute).
      assert (Hbi : pre_tag ∉ [bold_tag; italic_tag])
        by (apply (bool_decide_unpack _); by vm_compute).
      assert (Hp : lead type [bold_tag] (bool_decide (head post = Some NL))
                   ++ seg_body type [bold_tag] post
                   = flat_map html_char post).
      { rewrite seg_body_chars. by apply flat_map_seg_char_html. }
      rewrite (app_assoc (lead type [bold_tag] _) (seg_body type [bold_tag] post)).
      rewrite Hp.
      rewrite (lead_html type [bold_tag]), (seg_body_html type [bold_tag]),
        (seg_body_html type [bold_tag; italic_tag]) by done.
      rewrite !lead_html_lead, !seg_body_html_body by done.
      cbn [opening closing bold_tag italic_tag].
      by rewrite <- !app_assoc.
    + apply entity_tag_static. by rewrite set_syntax_dict_html.
    + apply entity_tag_static. by rewrite set_syntax_dict_html.
  - intros message entities ets type Hm Hets Hres.
    destruct (position_index_spec message Hm entities ets type Hets Hres)
      as (positions & Hidx & _ & Hget).
    exists positions. split; [done|]. intros k. by rewrite Hget.
Qed.

Lemma close_order_witness :
  convert (lit "abcdef")
    (Some [ent MessageEntityItalic 2 2; ent MessageEntityBold 0 6])
    (lit "HTML")
  = Ok (lit "<p><b>ab<i>cd</i>ef</b></p>")
  /\ exists positions,
       position_index (lit "abcd")
         (Some [ent MessageEntityItalic 2 2; ent MessageEntityBold 0 4])
         (lit "html") = Ok positions
       /\ forall k,
            to_open (getd positions k)
            = opens_at k [(ent MessageEntityItalic 2 2, Some italic_tag);
                          (ent MessageEntityBold 0 4, Some bold_tag)]
            /\ to_close (getd positions k)
               = closes_at k [(ent MessageEntityItalic 2 2, Some italic_tag);
                              (ent MessageEntityBold 0 4, Some bold_tag)].
Proof.
  split.
  - apply (proj1 close_order (lit "ab") (lit "cd") (lit "ef") (lit "HTML")).
    + reflexivity.
    + by_compute.
    + done.
    + done.
    + done.
    + right. reflexivity.
  - apply (proj1 (proj2 close_order) (lit "abcd")).
    + by_compute.
    + reflexivity.
    + repeat constructor.
Defined.

(** C3. The text A, line break, B without entities under HTML gives
    [<p>A</p><p>B</p>]. The paragraph tag of every dictionary has a
    closing text, and every text with a line break and without entities
    comes out wrapped once: the opening text of the paragraph tag, the
    characters of the text, each line break replaced by the closing and
    the opening text of the paragraph tag, and the closing text. Every
    conversion that returns off the fast path returns the output of the
    main loop between the opening and the closing text of the paragraph
    tag. *)
Theorem paragraph_wrapping :
  convert (lit "A" ++ [NL] ++ lit "B") None (lit "html")
  = Ok (lit "<p>A</p><p>B</p>")
  /\ (forall type, closing (paragraph_tag type) <> [])
  /\ (forall message entities type,
        Forall Utf16.scalar message ->
        entity_list entities = [] ->
        NL ∈ message ->
        convert message entities type
        = Ok (opening (paragraph_tag type)
              ++ flat_map (plain_char type) message
              ++ closing (paragraph_tag type)))
  /\ (forall message entities type out,
        no_entities entities && bool_decide (NL ∉ message) = false ->
        convert message entities type = Ok out ->
        exists positions opened_tags body,
          position_index message entities type = Ok positions
          /\ main_loop (set_syntax_dict type) (Utf16Facts.enc message)
               positions (paragraph_tag type) (newline_tag type)
               (sorted_keys positions) ([], []) = Ok (opened_tags, body)
          /\ out = opening (paragraph_tag type) ++ body
                   ++ closing (paragraph_tag type)).
Proof.
  split; [by vm_compute|]. split; [|split].
  - intros type. unfold paragraph_tag. by destruct (decide _).
  - intros message entities type Hm He Hnl.
    rewrite convert_plain by done. by rewrite wrap_paragraph.
  - intros message entities type out Hfast Hc. unfold convert in Hc.
    destruct (__init__ message entities) as [self|] eqn:Hinit; [|done].
    assert (Hself : self = Self message entities [] (Utf16Facts.enc message)
                             ∅ ∅).
    { unfold __init__ in Hinit.
      destruct (Utf16.encode message) as [b16|] eqn:Henc; [|done].
      apply Utf16Facts.encode_Ok in Henc as [_ ->]. by injection Hinit. }
    rewrite bind_Ok in Hc. unfold to_syntax in Hc.
    rewrite Hself in Hc. cbn [_entities _message] in Hc.
    rewrite Hfast, get_tag_paragraph, get_tag_newline, !bind_Ok in Hc.
    rewrite <- Hself in Hc.
    destruct (prepare_positions _ self) as [positions|] eqn:Hprep; [|done].
    rewrite bind_Ok, Hself in Hc. cbn [_message_b16 output] in Hc.
    destruct (main_loop _ _ _ _ _ _ _) as [[opened_tags body]|] eqn:Hloop;
      [|done].
    rewrite !bind_Ok in Hc. cbn [fst] in Hc. injection Hc as <-.
    exists positions, opened_tags, body. split; [|split].
    + unfold position_index. by rewrite Hinit, bind_Ok.
    + done.
    + by rewrite wrap_paragraph.
Qed.

Lemma paragraph_wrapping_witness :
  convert (lit "A" ++ [NL; NL] ++ lit "B" ++ [NL]) (Some []) (lit "html")
  = Ok (lit "<p>A</p><p></p><p>B</p><p></p>")
  /\ exists positions opened_tags body,
       position_index (lit "ab") (Some [ent MessageEntityBold 0 2]) (lit "md")
       = Ok positions
       /\ main_loop (set_syntax_dict (lit "md")) (Utf16Facts.enc (lit "ab"))
            positions (paragraph_tag (lit "md")) (newline_tag (lit "md"))
            (sorted_keys positions) ([], []) = Ok (opened_tags, body)
       /\ lit "**ab**" ++ [NL]
          = opening (paragraph_tag (lit "md")) ++ body
            ++ closing (paragraph_tag (lit "md")).
Proof.
  split.
  - apply (proj1 (proj2 (proj2 paragraph_wrapping))
             (lit "A" ++ [NL; NL] ++ lit "B" ++ [NL]) (Some []) (lit "html")).
    + by_compute.
    + reflexivity.
    + by_compute.
  - apply (proj2 (proj2 (proj2 paragraph_wrapping))
             (lit "ab") (Some [ent MessageEntityBold 0 2]) (lit "md")).
    + reflexivity.
    + by vm_compute.
Defined.

Lemma plain_char_html type c :
  is_html type -> plain_char type c = html_char c.
Proof.
  intros H. unfold plain_char, html_char. rewrite paragraph_tag_html by done.
  destruct (decide (c = NL)); [done|apply escape_one].
Qed.

(** What a character of the text turns into under the three other
    dictionaries, outside a code span. *)
Definition text_char (c : N) : str :=
  if decide (c = NL) then [NL] else escape_char c.

Lemma plain_char_other type c :
  ~ is_html type -> plain_char type c = text_char c.
Proof.
  intros H. unfold plain_char, text_char. rewrite paragraph_tag_other by done.
  destruct (decide (c = NL)); [done|apply escape_one].
Qed.

Lemma head_not_break type o s :
  head s <> Some NL -> seg_body type o s = flat_map (seg_char type o) s.
Proof.
  intros H. rewrite <- seg_body_chars. by rewrite bool_decide_false.
Qed.

(** C8. Under HTML the literal text is escaped whenever the full
    algorithm runs: without entities when the text has a line break, and
    with an entity (a Bold one here) with or without a line break, every
    character of the text other than a line break comes out as
    [escape_char] gives it, [&], [<], [>] and the two quotes as character
    references. *)
Theorem html_escapes_text :
  (forall message entities type,
     is_html type ->
     Forall Utf16.scalar message ->
     entity_list entities = [] ->
     NL ∈ message ->
     convert message entities type
     = Ok (lit "<p>" ++ flat_map html_char message ++ lit "</p>"))
  /\ (forall pre mid post type,
        is_html type ->
        Forall Utf16.scalar (pre ++ mid ++ post) ->
        mid <> [] -> head mid <> Some NL ->
        convert (pre ++ mid ++ post)
          (Some [ent MessageEntityBold (Utf16Facts.units pre)
                   (Utf16Facts.units mid)]) type
        = Ok (lit "<p>" ++ flat_map html_char pre ++ lit "<b>"
              ++ flat_map html_char mid ++ lit "</b>"
              ++ flat_map html_char post ++ lit "</p>")).
Proof.
  split.
  - intros message entities type Hty Hm He Hnl.
    rewrite convert_plain, wrap_paragraph, paragraph_tag_html by done.
    do 3 f_equal. apply flat_map_ext. intros c. by apply plain_char_html.
  - intros pre mid post type Hty Hm Hmid Hhead.
    rewrite (convert_one_entity pre mid post type _ bold_tag); try done.
    + rewrite wrap_paragraph, paragraph_tag_html by done.
      assert (Hb : pre_tag ∉ [bold_tag]) by by_compute.
      rewrite bool_decide_false by done.
      rewrite head_not_break by done.
      rewrite !(flat_map_seg_char_html type) by (done || set_solver).
      cbn [lead opening closing bold_tag app]. by rewrite <- !app_assoc.
    + apply entity_tag_static. by rewrite set_syntax_dict_html.
Qed.

Lemma html_escapes_text_witness :
  convert (lit "a<b" ++ [NL] ++ lit "c&d>e") None (lit "Html")
  = Ok (lit "<p>a&lt;b</p><p>c&amp;d&gt;e</p>")
  /\ convert (lit "1<2 & 3>2") (Some [ent MessageEntityBold 2 5]) (lit "html")
     = Ok (lit "<p>1&lt;<b>2 &amp; 3</b>&gt;2</p>").
Proof.
  split.
  - apply (proj1 html_escapes_text
             (lit "a<b" ++ [NL] ++ lit "c&d>e") None (lit "Html")).
    + reflexivity.
    + by_compute.
    + reflexivity.
    + by_compute.
  - apply (proj2 html_escapes_text (lit "1<") (lit "2 & 3") (lit ">2")
             (lit "html")).
    + reflexivity.
    + by_compute.
    + done.
    + done.
Defined.

Definition is_markdown (type : str) : Prop :=
  lower type = lit "markdown" \/ lower type = lit "md".

Lemma set_syntax_dict_markdown type :
  is_markdown type -> set_syntax_dict type = markdown_dict.
Proof.
  intros H. unfold set_syntax_dict.
  rewrite decide_False by (destruct H as [H|H]; rewrite H; intros [?|?]; discriminate).
  by rewrite decide_True.
Qed.

Lemma markdown_not_html type : is_markdown type -> ~ is_html type.
Proof. unfold is_html. intros [H|H]; rewrite H; discriminate. Qed.

Definition md_bold_tag : _Tag := Tag (lit "**") (lit "**").

Lemma break_text_markdown type :
  is_markdown type -> break_text type [md_bold_tag] = [NL]
                      /\ break_text type [] = [NL].
Proof.
  intros H. unfold break_text.
  rewrite set_syntax_dict_markdown, paragraph_tag_other
    by (done || by apply markdown_not_html).
  change (code_tag markdown_dict) with (Some (Tag (lit "`") (lit "`"))).
  cbv beta iota. rewrite !bool_decide_false; [done|set_solver|by_compute].
Qed.

Lemma seg_char_markdown type c :
  is_markdown type ->
  seg_char type [md_bold_tag] c = text_char c
  /\ seg_char type [] c = text_char c.
Proof.
  intros H. destruct (break_text_markdown type H) as [H1 H2].
  unfold seg_char, text_char. rewrite H1, H2.
  destruct (decide (c = NL)); [done|]. by rewrite escape_one.
Qed.

(** C9. The literal text is escaped the same way under the other
    dictionaries (docuwiki, markdown and the plain-text default): a text
    with a line break and no entity comes out as its characters escaped
    by [escape_char], the line breaks kept, and a final line break; so
    does a text with a Bold entity under markdown, between the two
    [**]. *)
Theorem every_syntax_escapes_text :
  (forall message entities type,
     ~ is_html type ->
     Forall Utf16.scalar message ->
     entity_list entities = [] ->
     NL ∈ message ->
     convert message entities type
     = Ok (flat_map text_char message ++ [NL]))
  /\ convert (lit "a&b" ++ [NL] ++ lit "c") None (lit "markdown")
     = Ok (lit "a&amp;b" ++ [NL] ++ lit "c" ++ [NL])
  /\ (forall pre mid post type,
        is_markdown type ->
        Forall Utf16.scalar (pre ++ mid ++ post) ->
        mid <> [] -> head mid <> Some NL ->
        convert (pre ++ mid ++ post)
          (Some [ent MessageEntityBold (Utf16Facts.units pre)
                   (Utf16Facts.units mid)]) type
        = Ok (flat_map text_char pre ++ lit "**" ++ flat_map text_char mid
              ++ lit "**" ++ flat_map text_char post ++ [NL])).
Proof.
  split; [|split; [by vm_compute|]].
  - intros message entities type Hty Hm He Hnl.
    rewrite convert_plain, wrap_paragraph, paragraph_tag_other by done.
    cbn [opening closing app]. do 2 f_equal.
    apply flat_map_ext. intros c. by apply plain_char_other.
  - intros pre mid post type Hty Hm Hmid Hhead.
    rewrite (convert_one_entity pre mid post type _ md_bold_tag); try done.
    + rewrite wrap_paragraph, paragraph_tag_other by (by apply markdown_not_html).
      rewrite bool_decide_false by done.
      rewrite head_not_break by done.
      rewrite (flat_map_ext _ _ (fun c => proj1 (seg_char_markdown type c Hty))).
      rewrite !(flat_map_ext _ _ (fun c => proj2 (seg_char_markdown type c Hty))).
      cbn [lead opening closing md_bold_tag app]. by rewrite <- !app_assoc.
    + apply entity_tag_static. by rewrite set_syntax_dict_markdown.
Qed.

Lemma every_syntax_escapes_text_witness :
  convert (lit "<a href='x'>" ++ [NL] ++ lit "R&D") None (lit "docuwiki")
  = Ok (lit "&lt;a href=&#x27;x&#x27;&gt;" ++ [NL] ++ lit "R&amp;D" ++ [NL])
  /\ convert (lit "x < y") (Some [ent MessageEntityBold 0 5]) (lit "MD")
     = Ok (lit "**x &lt; y**" ++ [NL]).
Proof.
  split.
  - apply (proj1 every_syntax_escapes_text
             (lit "<a href='x'>" ++ [NL] ++ lit "R&D") None (lit "docuwiki")).
    + by vm_compute.
    + by_compute.
    + reflexivity.
    + by_compute.
  - apply (proj2 (proj2 every_syntax_escapes_text) [] (lit "x < y") []
             (lit "MD")).
    + right. reflexivity.
    + by_compute.
    + done.
    + done.
Defined.

(** C4, as stated, fails: the line break looks for the code tag
    anywhere among the open tags, not on top of the stack. With a Bold
    entity inside a Code entity the top of the stack at the line break is
    the Bold tag, and the Newline tag's closing text is emitted, not a
    paragraph break. *)
Lemma line_break_counterexample :
  let entities := Some [ent MessageEntityCode 0 3; ent MessageEntityBold 0 3] in
  let opened_tags := [pre_tag; bold_tag] in
  last opened_tags = Some bold_tag
  /\ bold_tag <> pre_tag
  /\ line_break html_dict (Tag (lit "<p>") (lit "</p>"))
       (Tag [] (lit "<br />")) (opened_tags, [])
     = Ok (opened_tags, lit "<br />")
  /\ convert (lit "a" ++ [NL] ++ lit "b") entities (lit "html")
     = Ok (lit "<p><pre><b>a<br />b</b></pre></p>").
Proof. repeat split; by vm_compute. Qed.

Lemma code_tag_lookup d t :
  code_tag d = Some t -> d !! "MessageEntityCode"%string = Some (PyTag t).
Proof.
  unfold code_tag. destruct (d !! _) as [[|t'|f]|]; try done.
  by intros [= ->].
Qed.

(** What a character turns into inside a code span. *)
Definition code_char (type : str) (c : N) : str :=
  if decide (c = NL) then closing (newline_tag type) else escape [c].

Lemma seg_char_code type t c :
  code_tag (set_syntax_dict type) = Some t ->
  seg_char type [t] c = code_char type c.
Proof.
  intros H. unfold seg_char, code_char, break_text. rewrite H.
  by rewrite bool_decide_true by set_solver.
Qed.

(** C4, amended. At an offset whose line-break flag is set the markup
    is the closing texts of the tags to close, then the text of the line
    break, then the opening texts of the tags to open; the text of the
    line break is the Newline tag's closing text when the dictionary's
    code tag is anywhere among the tags still open, and the Paragraph
    tag's closing text followed by its opening text otherwise. For a
    Code entity over a text that does not begin with a line break, every
    line break inside the span comes out as the Newline tag's closing
    text. *)
Theorem line_break_rule :
  (forall type positions k o out,
     k ∈ dom positions ->
     br (getd positions k) = true ->
     (length (to_close (getd positions k)) <= length o)%nat ->
     markup (set_syntax_dict type) positions (paragraph_tag type)
       (newline_tag type) k (o, out)
     = let pc := getd positions k in
       let o' := take (length o - length (to_close pc)) o in
       Ok (o' ++ to_open pc,
           out ++ concat (closing <$> to_close pc)
               ++ break_text type o'
               ++ concat (opening <$> to_open pc)))
  /\ (forall type t o,
        code_tag (set_syntax_dict type) = Some t ->
        break_text type o
        = if bool_decide (t ∈ o) then closing (newline_tag type)
          else closing (paragraph_tag type) ++ opening (paragraph_tag type))
  /\ (forall pre c mid post type t,
        code_tag (set_syntax_dict type) = Some t ->
        Forall Utf16.scalar (pre ++ (c :: mid) ++ post) ->
        c <> NL ->
        convert (pre ++ (c :: mid) ++ post)
          (Some [ent MessageEntityCode (Utf16Facts.units pre)
                   (Utf16Facts.units (c :: mid))]) type
        = Ok (wrap (paragraph_tag type)
                (flat_map (seg_char type []) pre
                 ++ opening t ++ escape [c] ++ flat_map (code_char type) mid
                 ++ closing t ++ flat_map (seg_char type []) post))).
Proof.
  split; [|split].
  - intros type positions k o out Hk Hbr Hlen.
    rewrite markup_Ok by done. cbv zeta. rewrite Hbr.
    rewrite line_break_text, bind_Ok. by rewrite <- !app_assoc.
  - intros type t o Ht. unfold break_text. by rewrite Ht.
  - intros pre c mid post type t Ht Hm Hc.
    rewrite (convert_one_entity pre (c :: mid) post type _ t); try done.
    + cbn [head seg_body]. rewrite bool_decide_false by congruence.
      rewrite literal_no_break by set_solver.
      rewrite (flat_map_ext _ _ (fun x => seg_char_code type t x Ht)).
      cbn [lead app]. by rewrite <- !app_assoc.
    + apply entity_tag_static. by apply code_tag_lookup.
Qed.

Lemma line_break_rule_witness :
  markup (set_syntax_dict (lit "html"))
    {[2%Z := PositionChange [italic_tag] [bold_tag] true]}
    (paragraph_tag (lit "html")) (newline_tag (lit "html")) 2
    ([pre_tag; bold_tag], [])
  = Ok ([pre_tag; italic_tag], lit "</b><br /><i>")
  /\ break_text (lit "md") [md_bold_tag] = [NL]
  /\ convert (lit "x = " ++ lit "a" ++ [NL] ++ lit "b" ++ [NL] ++ lit "c")
       (Some [ent MessageEntityCode 4 5]) (lit "html")
     = Ok (lit "<p>x = <pre>a<br />b<br />c</pre></p>").
Proof.
  split; [|split].
  - etransitivity.
    + apply (proj1 line_break_rule (lit "html")
               {[2%Z := PositionChange [italic_tag] [bold_tag] true]} 2%Z
               [pre_tag; bold_tag] []).
      * by_compute.
      * reflexivity.
      * vm_compute. lia.
    + by vm_compute.
  - apply (proj1 (proj2 line_break_rule) (lit "md")
             (Tag (lit "`") (lit "`")) [md_bold_tag]).
    reflexivity.
  - apply (proj2 (proj2 line_break_rule) (lit "x = ") 97
             ([NL] ++ lit "b" ++ [NL] ++ lit "c") [] (lit "html") pre_tag).
    + reflexivity.
    + by_compute.
    + done.
Defined.

(** The bytes between the bounds of an entity decode to the text it
    covers. *)
Lemma entity_text pre mid post e :
  Forall Utf16.scalar (pre ++ mid ++ post) ->
  offset e = Utf16Facts.units pre ->
  length_ e = Utf16Facts.units mid ->
  Utf16.decode
    (py_slice (Utf16Facts.enc (pre ++ mid ++ post)) (start_of e)
       (Some (end_of e)))
  = Ok mid.
Proof.
  intros Hm Hoff Hlen.
  rewrite (one_entity_start pre e Hoff), (one_entity_end pre mid e Hoff Hlen).
  rewrite Utf16Facts.slice_enc. apply Utf16Facts.decode_enc.
  apply Forall_app in Hm as [_ Hm]. by apply Forall_app in Hm as [Hm _].
Qed.

(** C5. An entity whose offset and length count the 16-bit units of
    the text before it and of the text it covers delimits that text,
    whatever characters outside the basic plane the message holds: the
    bytes between its bounds decode to the covered text, a tag function
    of the dictionary is called with that text, and the opening tag
    stands before the first covered character and the closing tag behind
    the last one. *)
Theorem entity_span pre mid post type e t :
  let message := pre ++ mid ++ post in
  Forall Utf16.scalar message ->
  mid <> [] ->
  offset e = Utf16Facts.units pre ->
  length_ e = Utf16Facts.units mid ->
  entity_tag (set_syntax_dict type) (Utf16Facts.enc message) e = Ok (Some t) ->
  Utf16.decode
    (py_slice (Utf16Facts.enc message) (start_of e) (Some (end_of e)))
  = Ok mid
  /\ (forall f,
        set_syntax_dict type !! type_name (kind e) = Some (PyFunc f) ->
        f e mid = Ok t)
  /\ convert message (Some [e]) type
     = Ok (wrap (paragraph_tag type)
             (flat_map (seg_char type []) pre
              ++ lead type [] (bool_decide (head mid = Some NL))
              ++ opening t ++ seg_body type [t] mid ++ closing t
              ++ flat_map (seg_char type []) post)).
Proof.
  intros message Hm Hmid Hoff Hlen Htag.
  assert (Hslice : Utf16.decode
            (py_slice (Utf16Facts.enc message) (start_of e) (Some (end_of e)))
          = Ok mid) by (by apply entity_text).
  split; [done|]. split.
  - intros f Hf. unfold entity_tag in Htag. rewrite Hf, Hslice, bind_Ok in Htag.
    destruct (f e mid); [|done]. by injection Htag as ->.
  - by apply convert_one_entity.
Qed.

Lemma entity_span_witness :
  let message := lit "a" ++ [0x1F600] ++ lit "b" in
  let e := ent MessageEntityUrl 1 2 in
  Utf16.decode
    (py_slice (Utf16Facts.enc message) (start_of e) (Some (end_of e)))
  = Ok [0x1F600]
  /\ convert message (Some [e]) (lit "html")
     = Ok (lit "<p>a" ++ a_href [] [0x1F600] ++ [0x1F600] ++ lit "</a>b</p>").
Proof.
  intros message e.
  destruct (entity_span (lit "a") [0x1F600] (lit "b") (lit "html") e
              (Tag (a_href [] [0x1F600]) (lit "</a>")))
    as (H1 & _ & H3).
  - by_compute.
  - done.
  - reflexivity.
  - reflexivity.
  - reflexivity.
  - split; [exact H1|exact H3].
Defined.

(** C6 fails on the code: [output] and [_positions] are set in
    [__init__] only, and a second call of [to_syntax] appends to the
    output of the first and adds every tag to the index again. *)
Theorem second_call_accumulates :
  (self ← __init__ (lit "A" ++ [NL] ++ lit "B") None;
   first ← to_syntax (lit "html") self;
   second ← to_syntax (lit "html") first.2;
   Ok (first.1, second.1))
  = Ok (lit "<p>A</p><p>B</p>", lit "<p><p>A</p><p>B</p>A</p><p>B</p>")
  /\ (self ← __init__ (lit "ab") (Some [ent MessageEntityBold 0 2]);
      first ← to_syntax (lit "html") self;
      second ← to_syntax (lit "html") first.2;
      Ok (first.1, second.1))
     = Ok (lit "<p><b>ab</b></p>",
           lit "<p><p><b>ab</b></p><b><b>ab</b></b></p>").
Proof. split; by vm_compute. Qed.

(** On the fast path the output is assigned, and a second call returns
    what the first did. *)
Lemma second_call_fast_path self type r :
  to_syntax type self = Ok r ->
  no_entities (_entities self) && bool_decide (NL ∉ _message self) = true ->
  exists r', to_syntax type r.2 = Ok r' /\ r'.1 = r.1.
Proof.
  unfold to_syntax. intros H Hfast. rewrite Hfast in H. injection H as <-.
  cbn [snd _entities _message]. rewrite Hfast. by eexists.
Qed.

(** A mention by id raises under every dictionary: its tag function
    passes the numeric [user_id] to [escape]. *)
Lemma mention_name_raises :
  Forall (fun type =>
            convert (lit "bob hi")
              (Some [Entity MessageEntityMentionName 0 3 [] [] 42]) type
            = Raise AttributeError)
    [lit "html"; lit "markdown"; lit "docuwiki"; lit "text"].
Proof. repeat constructor; by vm_compute. Qed.

Definition recognized (type : str) : Prop :=
  lower type ∈ [lit "docuwiki"; lit "dw"; lit "markdown"; lit "md"; lit "html"].

Lemma set_syntax_dict_text type :
  ~ recognized type -> set_syntax_dict type = text_dict.
Proof.
  unfold recognized. intros H. unfold set_syntax_dict.
  rewrite !decide_False; [done|set_solver..].
Qed.

Lemma not_recognized_not_html type : ~ recognized type -> ~ is_html type.
Proof. unfold recognized, is_html. set_solver. Qed.

(** The classes the plain-text dictionary maps to [None]. *)
Definition text_untagged : list entity_kind :=
  [MessageEntityBankCard; MessageEntityBold; MessageEntityBotCommand;
   MessageEntityCashtag; MessageEntityCode; MessageEntityCustomEmoji;
   MessageEntityEmail; MessageEntityHashtag; MessageEntityItalic;
   MessageEntityMention; MessageEntityPhone; MessageEntityPre;
   MessageEntitySpoiler; MessageEntityStrike; MessageEntityUnderline;
   MessageEntityUnknown; MessageEntityUrl].

(** C7, as stated, fails for mentions: the plain-text dictionary has
    [None] for a mention by handle, and its text is rendered without an
    annotation. *)
Lemma mention_counterexample :
  set_syntax_dict (lit "plain") !! type_name MessageEntityMention = Some PyNone
  /\ convert (lit "@bob hi") (Some [ent MessageEntityMention 0 4]) (lit "plain")
     = Ok (lit "@bob hi" ++ [NL]).
Proof. split; by vm_compute. Qed.

Lemma seg_char_text type o c :
  ~ recognized type -> seg_char type o c = text_char c.
Proof.
  intros H. unfold seg_char, text_char, break_text.
  rewrite set_syntax_dict_text, paragraph_tag_other
    by (done || by apply not_recognized_not_html).
  change (code_tag text_dict) with (@None _Tag). cbv beta iota.
  destruct (decide (c = NL)); [done|apply escape_one].
Qed.

(** C7, amended. A selector that is none of the five names, in any
    case, selects the plain-text dictionary. It has [None] for seventeen
    classes, the mention by handle among them: an entity of such a class
    leaves the text as it is rendered without entities. A labeled link
    renders the text it covers followed by the escaped URL in
    parentheses. *)
Theorem fallback_dictionary type :
  ~ recognized type ->
  set_syntax_dict type = text_dict
  /\ (forall k, k ∈ text_untagged ->
                text_dict !! type_name k = Some PyNone)
  /\ (forall pre mid post e,
        Forall Utf16.scalar (pre ++ mid ++ post) ->
        kind e ∈ text_untagged ->
        offset e = Utf16Facts.units pre ->
        length_ e = Utf16Facts.units mid ->
        convert (pre ++ mid ++ post) (Some [e]) type
        = Ok (flat_map text_char (pre ++ mid ++ post) ++ [NL]))
  /\ (forall pre mid post e,
        Forall Utf16.scalar (pre ++ mid ++ post) ->
        mid <> [] -> head mid <> Some NL ->
        kind e = MessageEntityTextUrl ->
        offset e = Utf16Facts.units pre ->
        length_ e = Utf16Facts.units mid ->
        convert (pre ++ mid ++ post) (Some [e]) type
        = Ok (flat_map text_char pre ++ flat_map text_char mid
              ++ lit " (" ++ escape (url e) ++ lit ")"
              ++ flat_map text_char post ++ [NL])).
Proof.
  intros Hty.
  assert (Hun : forall k, k ∈ text_untagged ->
                          text_dict !! type_name k = Some PyNone).
  { intros k Hk. unfold text_untagged in Hk.
    repeat (apply elem_of_cons in Hk as [->|Hk]; [reflexivity|]).
    by apply elem_of_nil in Hk. }
  split; [by apply set_syntax_dict_text|]. split; [done|]. split.
  - intros pre mid post e Hm Hk Hoff Hlen.
    rewrite (convert_untagged_entity pre mid post type e); try done.
    + rewrite wrap_paragraph, paragraph_tag_other
        by (by apply not_recognized_not_html).
      cbn [opening closing app]. do 2 f_equal.
      apply flat_map_ext. intros c. by apply seg_char_text.
    + apply entity_tag_none. rewrite set_syntax_dict_text by done. by apply Hun.
  - intros pre mid post e Hm Hmid Hhead Hk Hoff Hlen.
    rewrite (convert_one_entity pre mid post type e
               (Tag [] (lit " (" ++ escape (url e) ++ lit ")"))); try done.
    + rewrite wrap_paragraph, paragraph_tag_other
        by (by apply not_recognized_not_html).
      rewrite bool_decide_false by done. rewrite head_not_break by done.
      rewrite !(flat_map_ext _ _ (fun c => seg_char_text type _ c Hty)).
      cbn [lead opening closing app]. by rewrite <- !app_assoc.
    + unfold entity_tag. rewrite set_syntax_dict_text, Hk by done.
      cbn [type_name].
      change (text_dict !! "MessageEntityTextUrl"%string)
        with (Some (PyFunc (fun e s =>
                Ok (Tag [] (lit " (" ++ escape (url e) ++ lit ")"))))).
      cbv beta iota. by rewrite entity_text.
Qed.

Lemma fallback_dictionary_witness :
  set_syntax_dict (lit "rst") = text_dict
  /\ convert (lit "@bob hi") (Some [ent MessageEntityMention 0 4]) (lit "rst")
     = Ok (lit "@bob hi" ++ [NL])
  /\ convert (lit "see docs now")
       (Some [Entity MessageEntityTextUrl 4 4 (lit "http://x/?a=1&b=2") [] 0])
       (lit "rst")
     = Ok (lit "see docs (http://x/?a=1&amp;b=2) now" ++ [NL]).
Proof.
  assert (Hty : ~ recognized (lit "rst")) by by_compute.
  split; [|split].
  - apply (proj1 (fallback_dictionary (lit "rst") Hty)).
  - apply (proj1 (proj2 (proj2 (fallback_dictionary (lit "rst") Hty)))
             [] (lit "@bob") (lit " hi")).
    + by_compute.
    + by_compute.
    + reflexivity.
    + reflexivity.
  - apply (proj2 (proj2 (proj2 (fallback_dictionary (lit "rst") Hty)))
             (lit "see ") (lit "docs") (lit " now")).
    + by_compute.
    + done.
    + done.
    + reflexivity.
    + reflexivity.
    + reflexivity.
Defined.

(** C10. A conversion with an entity of length 0 whose class has a tag
    in the dictionary, no entity of the list extending over both sides
    of its offset, raises: at that offset there is more to close than is
    open, and the close loop, which runs before the open loop, pops from
    an empty list. The Bold entity of length 0 under HTML raises
    [IndexError]. *)
Theorem zero_length_entity_raises :
  (forall message entities type e,
     e ∈ entities ->
     length_ e = 0%Z ->
     set_syntax_dict type !! type_name (kind e) <> Some PyNone ->
     (forall f, f ∈ entities ->
                ~ (start_of f < start_of e < end_of f)%Z) ->
     exists err, convert message (Some entities) type = Raise err)
  /\ convert (lit "ab") (Some [ent MessageEntityBold 1 0]) (lit "html")
     = Raise IndexError.
Proof.
  split; [|by vm_compute].
  intros message entities type e Hin Hlen Htag Hno.
  destruct (convert message (Some entities) type) as [s|err] eqn:Hc;
    [exfalso|by exists err].
  apply convert_Ok_inv in Hc
    as (ets & positions & st & Hets & Hres & Hdom & Hop & Hcl & Hloop);
    [|by intros ->; apply elem_of_nil in Hin].
  set (k := start_of e).
  assert (Hend : end_of e = k)
    by (unfold k, start_of, end_of; rewrite Hlen; lia).
  assert (Hk : k ∈ dom positions)
    by (apply Hdom; unfold bounds; apply elem_of_flat_map; exists e;
        split; [done|set_solver]).
  destruct (sorted_keys_split positions k Hk) as (l1 & l2 & Hsp & Hnd & Hl1).
  rewrite Hsp in Hloop.
  apply main_loop_stack in Hloop.
  2:{ intros x Hx. rewrite <- Hsp in Hx. unfold sorted_keys in Hx.
      rewrite merge_sort_Permutation in Hx. by apply elem_of_keys. }
  assert (Hopened : opened positions l1
                    = tagged_count (fun f => start_of f ∈ l1) ets).
  { unfold opened. rewrite <- tagged_count_sum by done. f_equal.
    apply list_fmap_ext. intros _ x _. by rewrite Hop, length_opens_at. }
  assert (Hclosed : (closed positions l1
                     + length (to_close (getd positions k)))%nat
                    = tagged_count (fun f => end_of f ∈ k :: l1) ets).
  { rewrite <- tagged_count_sum.
    - rewrite fmap_cons. cbn [sum_list_with id].
      rewrite Hcl, length_closes_at, Nat.add_comm. f_equal.
      unfold closed. f_equal.
      apply list_fmap_ext. intros _ x _. by rewrite Hcl, length_closes_at.
    - constructor; [|done]. rewrite Hl1. lia. }
  assert (Het : exists t, (e, Some t) ∈ ets).
  { rewrite <- Hets in Hin. apply list_elem_of_fmap in Hin as ([e' t] & -> & Hin).
    unfold resolved in Hres. rewrite Forall_forall in Hres.
    pose proof (Hres _ Hin) as He. simpl in He.
    apply entity_tag_Some in He as [tag ->]; [|done]. by exists tag. }
  destruct Het as [t Het].
  assert (tagged_count (fun f => start_of f ∈ l1) ets
          < tagged_count (fun f => end_of f ∈ k :: l1) ets)%nat.
  { apply (tagged_count_lt _ _ ets e t); [|done|..].
    - intros f Hf Hs. apply Hl1 in Hs as [_ Hs].
      rewrite Hets in Hf. specialize (Hno f Hf). fold k in Hno.
      destruct (decide (end_of f = k)) as [->|Hne]; [set_solver|].
      apply elem_of_cons. right. apply Hl1. split; [|lia].
      apply Hdom. unfold bounds. apply elem_of_flat_map. exists f.
      split; [done|set_solver].
    - rewrite Hl1. fold k. lia.
    - rewrite Hend. set_solver. }
  simpl in Hloop. lia.
Qed.

Lemma zero_length_entity_raises_witness :
  exists err,
    convert (lit "abcd")
      (Some [ent MessageEntityItalic 0 2; ent MessageEntityBold 2 0])
      (lit "md") = Raise err.
Proof.
  apply (proj1 zero_length_entity_raises _ _ _ (ent MessageEntityBold 2 0)).
  - set_solver.
  - reflexivity.
  - by vm_compute.
  - intros f Hf. apply elem_of_cons in Hf as [->|Hf].
    + vm_compute. intros [_ H]. discriminate H.
    + apply list_elem_of_singleton in Hf as ->.
      vm_compute. intros [H _]. discriminate H.
Defined.

(** * Further properties of the code *)

(** ** The constructor and the encoded text *)

Lemma encode_surrogate s c :
  c ∈ s -> Utf16.is_surrogate c = true ->
  Utf16.encode s = Raise UnicodeEncodeError.
Proof.
  induction s as [|x s IH]; [by intros ?%elem_of_nil|].
  intros [->|Hin]%elem_of_cons Hc; simpl.
  - unfold Utf16.encode_char. by rewrite Hc.
  - unfold Utf16.encode_char.
    destruct (Utf16.is_surrogate x || (0x10FFFF <? x)); [done|].
    rewrite bind_Ok, IH by done. reflexivity.
Qed.

(** X1. A text with a lone surrogate is refused by the constructor, whatever
    the entities, and so no conversion of it returns, the fast path
    included. *)
Theorem lone_surrogate_rejected message entities type c :
  c ∈ message -> Utf16.is_surrogate c = true ->
  __init__ message entities = Raise UnicodeEncodeError
  /\ convert message entities type = Raise UnicodeEncodeError.
Proof.
  intros Hin Hc. unfold convert, __init__.
  by rewrite (encode_surrogate message c).
Qed.

Lemma lone_surrogate_rejected_witness :
  __init__ (lit "a" ++ [0xD83D]) None = Raise UnicodeEncodeError
  /\ convert (lit "a" ++ [0xD83D]) None (lit "html") = Raise UnicodeEncodeError.
Proof.
  apply (lone_surrogate_rejected _ None (lit "html") 0xD83D).
  - set_solver.
  - reflexivity.
Defined.

(** X2. The constructor of a text without lone surrogate returns an object
    with an empty output and an empty index; the bytes it stores are two
    for every 16-bit unit of the text, and decode to the text. *)
Theorem message_b16_round_trip message entities :
  Forall Utf16.scalar message ->
  exists b16,
    __init__ message entities = Ok (Self message entities [] b16 ∅ ∅)
    /\ Utf16.decode b16 = Ok message
    /\ Z.of_nat (length b16) = (2 * Utf16Facts.units message)%Z.
Proof.
  intros Hm. exists (Utf16Facts.enc message). split; [|split].
  - unfold __init__. by rewrite Utf16Facts.encode_scalar.
  - by apply Utf16Facts.decode_enc.
  - fold (Utf16Facts.size message). rewrite Utf16Facts.size_units. lia.
Qed.

Lemma message_b16_round_trip_witness :
  exists b16,
    __init__ (lit "a" ++ [0x1F600]) None
    = Ok (Self (lit "a" ++ [0x1F600]) None [] b16 ∅ ∅)
    /\ Utf16.decode b16 = Ok (lit "a" ++ [0x1F600])
    /\ length b16 = 6%nat.
Proof.
  destruct (message_b16_round_trip (lit "a" ++ [0x1F600]) None)
    as (b16 & H1 & H2 & H3); [by_compute|].
  exists b16. split; [exact H1|]. split; [exact H2|].
  change (Z.of_nat (length b16) = 6%Z) in H3. lia.
Defined.

(** ** The index of positions *)

Lemma positions_eq (p q : gmap Z _PositionChange) :
  dom p = dom q -> (forall k, getd p k = getd q k) -> p = q.
Proof.
  intros Hd Hg. apply map_eq. intros k.
  destruct (p !! k) as [x|] eqn:Ep, (q !! k) as [y|] eqn:Eq.
  - specialize (Hg k). unfold getd in Hg. rewrite Ep, Eq in Hg. simpl in Hg.
    by rewrite Hg.
  - apply elem_of_dom_2 in Ep. apply not_elem_of_dom in Eq. set_solver.
  - apply elem_of_dom_2 in Eq. apply not_elem_of_dom in Ep. set_solver.
  - done.
Qed.

Lemma ensure_lookup i positions k :
  _ensure_position_exists i positions !! k
  = if decide (k = i) then Some (getd positions i) else positions !! k.
Proof.
  unfold _ensure_position_exists, getd.
  destruct (positions !! i) eqn:E; destruct (decide (k = i)) as [->|Hk];
    simpl; try done.
  - by rewrite lookup_insert_eq.
  - by rewrite lookup_insert_ne.
Qed.

(** X3. [_ensure_position_exists] adds the empty record at a missing offset
    and never touches a record that is there; a second call changes
    nothing, and the order of two calls does not matter. *)
Theorem ensure_position_exists_laws i j positions :
  (forall k,
     _ensure_position_exists i positions !! k
     = if decide (k = i)
       then Some (default (PositionChange [] [] false) (positions !! i))
       else positions !! k)
  /\ _ensure_position_exists i (_ensure_position_exists i positions)
     = _ensure_position_exists i positions
  /\ _ensure_position_exists i (_ensure_position_exists j positions)
     = _ensure_position_exists j (_ensure_position_exists i positions).
Proof.
  split; [|split].
  - intros k. apply ensure_lookup.
  - apply map_eq. intros k. rewrite !ensure_lookup, ensure_getd.
    by destruct (decide (k = i)).
  - apply map_eq. intros k. rewrite !ensure_lookup, !ensure_getd.
    by destruct (decide (k = i)) as [Hi|Hi], (decide (k = j)) as [Hj|Hj];
      subst.
Qed.
(** ** Entities that cover text: the conversion returns *)

Lemma tagged_count_split P Q R
  `{forall e, Decision (P e)} `{forall e, Decision (Q e)}
  `{forall e, Decision (R e)} ets :
  (forall e, e ∈ ets.*1 -> (R e <-> P e \/ Q e) /\ ~ (P e /\ Q e)) ->
  tagged_count R ets = (tagged_count P ets + tagged_count Q ets)%nat.
Proof.
  induction ets as [|et ets IH]; intros Hall; [done|].
  rewrite !tagged_count_cons, IH by (intros e He; apply Hall; set_solver).
  destruct (Hall et.1) as [Hiff Hdis]; [set_solver|].
  destruct (decide (R et.1)), (decide (P et.1)), (decide (Q et.1));
    try lia; tauto.
Qed.

Lemma tagged_count_ext P Q
  `{forall e, Decision (P e)} `{forall e, Decision (Q e)} ets :
  (forall e, e ∈ ets.*1 -> P e <-> Q e) ->
  tagged_count P ets = tagged_count Q ets.
Proof.
  induction ets as [|et ets IH]; intros Hall; [done|].
  rewrite !tagged_count_cons, IH by (intros e He; apply Hall; set_solver).
  destruct (Hall et.1) as [H1 H2]; [set_solver|].
  destruct (decide (P et.1)), (decide (Q et.1)); try lia; tauto.
Qed.

Lemma closes_at_nil k ets :
  (forall e, e ∈ ets.*1 -> end_of e <> k) -> closes_at k ets = [].
Proof.
  intros Hall. apply nil_length_inv. rewrite length_closes_at.
  induction ets as [|et ets IH]; [done|].
  rewrite tagged_count_cons, IH by (intros e He; apply Hall; set_solver).
  rewrite decide_False; [done|]. apply Hall. set_solver.
Qed.

Section well_formed.
Import Utf16Facts.

Variable message : str.
Hypothesis message_scalar : Forall Utf16.scalar message.
Variable type : str.
Variable ets : list (entity * option _Tag).

(** An offset between two characters of the text, or at one of its
    ends. *)
Definition aligned (k : Z) : Prop := k = 0%Z \/ k ∈ bounds_after [] message.

Hypothesis ets_spans :
  forall e, e ∈ ets.*1 ->
            aligned (start_of e) /\ aligned (end_of e)
            /\ (start_of e < end_of e)%Z.

(** The number of tags of entities that extend over the character
    behind offset [k]. *)
Definition open_count (k : Z) : nat :=
  tagged_count (fun e => (start_of e <= k < end_of e)%Z) ets.

(** The output for the characters [todo] behind the prefix [pre], the
    tags [o] being open: each character as literal text, then what the
    boundary behind it closes, its line break, and what it opens. *)
Fixpoint render_tail (pre todo : str) (o : list _Tag) : str :=
  match todo with
  | [] => []
  | c :: todo' =>
      let k := size (pre ++ [c]) in
      let o' := take (length o - length (closes_at k ets)) o in
      literal [c]
      ++ concat (closing <$> closes_at k ets)
      ++ lead type o' (bool_decide (head todo' = Some NL))
      ++ concat (opening <$> opens_at k ets)
      ++ render_tail (pre ++ [c]) todo' (o' ++ opens_at k ets)
  end.

Definition render : str :=
  lead type [] (bool_decide (head message = Some NL))
  ++ concat (opening <$> opens_at 0 ets)
  ++ render_tail [] message (opens_at 0 ets).

Lemma aligned_step pre c todo x :
  message = pre ++ c :: todo -> aligned x ->
  (x <= size pre \/ size (pre ++ [c]) <= x)%Z.
Proof.
  intros Hm [->|Hx]; [left; apply size_nonneg|].
  rewrite Hm, bounds_after_app in Hx. apply elem_of_app in Hx as [Hx|Hx].
  - apply bounds_after_gt in Hx. simpl in Hx. lia.
  - simpl in Hx. apply elem_of_cons in Hx as [->|Hx]; [right; lia|].
    apply bounds_after_gt in Hx. simpl in Hx. lia.
Qed.

Lemma open_count_step pre c todo :
  message = pre ++ c :: todo ->
  (length (closes_at (size (pre ++ [c])) ets) <= open_count (size pre))%nat
  /\ open_count (size (pre ++ [c]))
     = (open_count (size pre) - length (closes_at (size (pre ++ [c])) ets)
        + length (opens_at (size (pre ++ [c])) ets))%nat.
Proof using ets_spans.
  intros Hm. set (k := size (pre ++ [c])).
  assert (Hk : (size pre < k)%Z).
  { unfold k. rewrite size_app. pose proof (size_char_pos c). lia. }
  rewrite length_closes_at, length_opens_at. unfold open_count.
  rewrite (tagged_count_split (fun e => end_of e = k)
             (fun e => (start_of e <= size pre /\ k < end_of e)%Z)
             (fun e => (start_of e <= size pre < end_of e)%Z)).
  2:{ intros e He. destruct (ets_spans e He) as (Hs & He' & Hlt).
      pose proof (aligned_step pre c todo _ Hm Hs).
      pose proof (aligned_step pre c todo _ Hm He').
      fold k in H, H0. lia. }
  rewrite (tagged_count_split (fun e => start_of e = k)
             (fun e => (start_of e <= size pre /\ k < end_of e)%Z)
             (fun e => (start_of e <= k < end_of e)%Z)).
  2:{ intros e He. destruct (ets_spans e He) as (Hs & He' & Hlt).
      pose proof (aligned_step pre c todo _ Hm Hs).
      pose proof (aligned_step pre c todo _ Hm He').
      fold k in H, H0. lia. }
  lia.
Qed.

Variable positions : gmap Z _PositionChange.
Hypothesis positions_breaks : forall k, k ∈ breaks message -> k ∈ dom positions.
Hypothesis positions_getd :
  forall k, getd positions k
            = PositionChange (opens_at k ets) (closes_at k ets)
                (bool_decide (k ∈ breaks message)).

(** The markup of a boundary, a key of the index or not. *)
Lemma markup_if_key_any k o out :
  (length (closes_at k ets) <= length o)%nat ->
  markup_if_key (set_syntax_dict type) positions (paragraph_tag type)
    (newline_tag type) k (o, out)
  = Ok (take (length o - length (closes_at k ets)) o ++ opens_at k ets,
        out ++ concat (closing <$> closes_at k ets)
            ++ lead type (take (length o - length (closes_at k ets)) o)
                 (bool_decide (k ∈ breaks message))
            ++ concat (opening <$> opens_at k ets)).
Proof using positions_getd.
  intros Hlen. unfold markup_if_key.
  destruct (decide (k ∈ dom positions)) as [Hk|Hk].
  - rewrite (markup_key message type positions)
      by (intros; rewrite ?positions_getd; done).
    cbv zeta. by rewrite positions_getd.
  - assert (Hd : getd positions k = PositionChange [] [] false).
    { unfold getd. apply not_elem_of_dom in Hk. by rewrite Hk. }
    rewrite positions_getd in Hd. injection Hd as Ho Hc Hb.
    rewrite Ho, Hc, Hb. simpl. by rewrite Nat.sub_0_r, firstn_all, !app_nil_r.
Qed.

Lemma char_tail_render todo pre o out :
  message = pre ++ todo ->
  length o = open_count (size pre) ->
  exists o',
    char_tail (set_syntax_dict type) positions (paragraph_tag type)
      (newline_tag type) pre todo (o, out)
    = Ok (o', out ++ render_tail pre todo o).
Proof using message_scalar ets_spans positions_getd.
  revert pre o out. induction todo as [|c todo IH]; intros pre o out Hm Hlen.
  - exists o. simpl. by rewrite app_nil_r.
  - destruct (open_count_step pre c todo Hm) as [Hle Hstep].
    cbn [char_tail render_tail]. unfold add_text. cbn [fst snd].
    rewrite markup_if_key_any by lia. rewrite bind_Ok.
    rewrite (bool_decide_ext _ (head todo = Some NL))
      by (apply breaks_prefix; [done|]; by rewrite <- app_assoc).
    edestruct (IH (pre ++ [c])) as [o' ->].
    + by rewrite <- app_assoc.
    + rewrite length_app, length_take. lia.
    + exists o'. cbv zeta. by rewrite <- !app_assoc.
Qed.

End well_formed.

(** A conversion off the fast path, every entity resolving to a tag or
    to none and covering at least one character: the conversion returns
    the rendering of the text. *)
Lemma convert_render message entities ets type :
  Forall Utf16.scalar message ->
  ets.*1 = entity_list entities ->
  ets <> [] \/ NL ∈ message ->
  resolved (set_syntax_dict type) (Utf16Facts.enc message) ets ->
  (forall e, e ∈ ets.*1 ->
             aligned message (start_of e) /\ aligned message (end_of e)
             /\ (start_of e < end_of e)%Z) ->
  convert message entities type
  = Ok (wrap (paragraph_tag type) (render message type ets)).
Proof.
  intros Hm Hets Hfull Hres Hsp.
  destruct (convert_chars message Hm entities ets type)
    as (positions & _ & Hdom & Hget & ->); try done.
  { intros k Hk. unfold bounds in Hk. apply elem_of_flat_map in Hk as (e & He & Hk).
    destruct (Hsp e He) as (Hs & He' & _).
    apply elem_of_cons in Hk as [->|Hk]; [done|].
    by apply list_elem_of_singleton in Hk as ->. }
  assert (Hb : forall k, br (getd positions k) = bool_decide (k ∈ breaks message))
    by (intros k; by rewrite Hget).
  assert (Hcl0 : closes_at 0 ets = []).
  { apply closes_at_nil. intros e He. destruct (Hsp e He) as (Hs & _ & Hlt).
    assert (0 <= start_of e)%Z; [|lia].
    destruct Hs as [->|Hs]; [done|]. apply bounds_after_gt in Hs. simpl in Hs.
    change (Utf16Facts.size []) with 0%Z in Hs. lia. }
  rewrite (walk_start message Hm type positions Hb)
    by (rewrite ?Hdom, ?Hget; done || set_solver).
  rewrite bind_Ok, Hget. cbn [to_open].
  destruct (char_tail_render message Hm type ets Hsp positions Hget
              message [] (opens_at 0 ets)
              (lead type [] (bool_decide (head message = Some NL))
               ++ concat (opening <$> opens_at 0 ets)))
    as [o' ->]; [done| |].
  - rewrite length_opens_at. unfold open_count.
    change (Utf16Facts.size []) with 0%Z.
    apply tagged_count_ext. intros e He.
    destruct (Hsp e He) as (Hs & _ & Hlt).
    assert (0 <= start_of e)%Z; [|lia].
    destruct Hs as [->|Hs]; [done|]. apply bounds_after_gt in Hs. simpl in Hs.
    change (Utf16Facts.size []) with 0%Z in Hs. lia.
  - rewrite bind_Ok. unfold render. by rewrite <- !app_assoc.
Qed.

(** An entity covers text: its offset and length count the 16-bit units
    of a prefix of the message and of a piece of text behind it that is
    not empty. *)
Definition covers (message : str) (e : entity) : Prop :=
  exists pre mid post,
    message = pre ++ mid ++ post /\ mid <> []
    /\ offset e = Utf16Facts.units pre /\ length_ e = Utf16Facts.units mid.

(** The classes every dictionary can make a tag for. *)
Definition convertible (k : entity_kind) : Prop :=
  k <> MessageEntityMentionName /\ k <> InputMessageEntityMentionName.

(** The tag of an entity, none where the dictionary has [None]. *)
Definition tag_of (type message : str) (e : entity) : option _Tag :=
  match entity_tag (set_syntax_dict type) (Utf16Facts.enc message) e with
  | Ok t => t
  | Raise _ => None
  end.

Lemma entity_tag_convertible type message e :
  Forall Utf16.scalar message -> covers message e -> convertible (kind e) ->
  exists t,
    entity_tag (set_syntax_dict type) (Utf16Facts.enc message) e = Ok t.
Proof.
  intros Hm (pre & mid & post & -> & _ & Hoff & Hlen) [Hk1 Hk2].
  unfold entity_tag. rewrite (entity_text pre mid post e Hm Hoff Hlen).
  unfold set_syntax_dict.
  repeat (destruct (decide _) as [?|?]);
    destruct (kind e); try done; eexists; reflexivity.
Qed.

Lemma covers_aligned message e :
  covers message e ->
  aligned message (start_of e) /\ aligned message (end_of e)
  /\ (start_of e < end_of e)%Z.
Proof.
  intros (pre & mid & post & Hm & Hmid & Hoff & Hlen).
  rewrite (one_entity_start pre e Hoff), (one_entity_end pre mid e Hoff Hlen).
  split; [|split].
  - by apply (size_prefix_bound message pre (mid ++ post)).
  - apply (size_prefix_bound message (pre ++ mid) post).
    by rewrite <- app_assoc.
  - rewrite Utf16Facts.size_app. pose proof (Utf16Facts.size_pos mid Hmid). lia.
Qed.

Lemma convert_covering message entities type :
  Forall Utf16.scalar message ->
  (forall e, e ∈ entity_list entities ->
             covers message e /\ convertible (kind e)) ->
  no_entities entities && bool_decide (NL ∉ message) = false ->
  convert message entities type
  = Ok (wrap (paragraph_tag type)
          (render message type
             ((fun e => (e, tag_of type message e))
                <$> entity_list entities))).
Proof.
  intros Hm Hes Hfast. apply convert_render; [done|..].
  - rewrite <- list_fmap_compose. apply list_fmap_id.
  - apply andb_false_iff in Hfast as [Hno|Hnl].
    + left. rewrite no_entities_list in Hno.
      apply bool_decide_eq_false in Hno. by destruct (entity_list entities).
    + right. apply bool_decide_eq_false in Hnl.
      by destruct (decide (NL ∈ message)).
  - unfold resolved. apply Forall_fmap, Forall_forall. intros e He. simpl.
    destruct (Hes e He) as [Hc Hk].
    destruct (entity_tag_convertible type message e Hm Hc Hk) as [t Ht].
    unfold tag_of. by rewrite Ht.
  - intros e He. rewrite <- list_fmap_compose, list_fmap_id in He.
    apply covers_aligned. by apply Hes.
Qed.

(** X4. A text without lone surrogate, with entities that each cover text
    and are of a class the dictionaries can make a tag for, always
    converts: no lookup, decoding or [pop] raises. Off the fast path the
    output is the wrapped rendering of the text, character by
    character. *)
Theorem well_formed_converts message entities type :
  Forall Utf16.scalar message ->
  (forall e, e ∈ entity_list entities ->
             covers message e /\ convertible (kind e)) ->
  convert message entities type
  = Ok (if no_entities entities && bool_decide (NL ∉ message) then message
        else wrap (paragraph_tag type)
               (render message type
                  ((fun e => (e, tag_of type message e))
                     <$> entity_list entities))).
Proof.
  intros Hm Hes.
  destruct (no_entities entities && bool_decide (NL ∉ message)) eqn:Hfast.
  - unfold convert, __init__. rewrite Utf16Facts.encode_scalar by done.
    rewrite !bind_Ok. unfold to_syntax. cbn [_entities _message].
    by rewrite Hfast.
  - by apply convert_covering.
Qed.

Lemma well_formed_converts_witness :
  convert (lit "x" ++ [0x1F600; NL] ++ lit "&y")
    (Some [ent MessageEntityBold 1 3; ent MessageEntityCode 1 2;
           ent MessageEntityBankCard 3 1])
    (lit "HTML")
  = Ok (lit "<p>x<b><pre>" ++ [0x1F600] ++ lit "</pre></p><p></b>&amp;y</p>").
Proof.
  etransitivity.
  - apply well_formed_converts; [by_compute|].
    intros e He. split.
    + repeat (apply elem_of_cons in He as [->|He]).
      * exists (lit "x"), ([0x1F600; NL]), (lit "&y"). by vm_compute.
      * exists (lit "x"), ([0x1F600]), ([NL] ++ lit "&y"). by vm_compute.
      * exists (lit "x" ++ [0x1F600]), ([NL]), (lit "&y"). by vm_compute.
      * by apply elem_of_nil in He.
    + repeat (apply elem_of_cons in He as [->|He]); try by vm_compute.
      by apply elem_of_nil in He.
  - by vm_compute.
Defined.

(** ** Line breaks in the index *)

(** The offsets of the line breaks: the lengths in bytes of the
    prefixes of the text that a line break follows. *)
Lemma breaks_spec message k :
  Forall Utf16.scalar message ->
  k ∈ breaks message
  <-> exists pre rest, message = pre ++ NL :: rest /\ k = Utf16Facts.size pre.
Proof.
  intros Hm. split.
  - unfold breaks, br_offsets. rewrite elem_of_flat_map.
    intros (i & _ & Hk).
    destruct (decide (message !! i = Some NL)) as [Hi|];
      [|by apply elem_of_nil in Hk].
    apply list_elem_of_singleton in Hk as ->.
    exists (take i message), (drop (S i) message). split; [|done].
    by rewrite <- (take_drop_middle message i NL) at 1.
  - intros (pre & rest & E & ->). by apply (breaks_prefix message Hm pre (NL :: rest)).
Qed.

(** X5. [_prepare_br_positions] on a text without lone surrogate, from any
    index: it returns; the keys it adds are the offsets of the line
    breaks, which it flags; it keeps every other flag and every list of
    tags; run again, it changes nothing. *)
Theorem prepare_br_positions_spec message positions :
  Forall Utf16.scalar message ->
  exists positions',
    _prepare_br_positions message positions = Ok positions'
    /\ (forall k,
          k ∈ dom positions'
          <-> k ∈ dom positions
              \/ exists pre rest,
                   message = pre ++ NL :: rest /\ k = Utf16Facts.size pre)
    /\ (forall k,
          to_open (getd positions' k) = to_open (getd positions k)
          /\ to_close (getd positions' k) = to_close (getd positions k)
          /\ (br (getd positions' k) = true
              <-> br (getd positions k) = true
                  \/ exists pre rest,
                       message = pre ++ NL :: rest
                       /\ k = Utf16Facts.size pre))
    /\ _prepare_br_positions message positions' = Ok positions'.
Proof.
  intros Hm. unfold _prepare_br_positions.
  destruct (br_loop_spec message Hm (seq 0 (length message)) positions)
    as (p1 & Hp1 & Hd1 & Hg1).
  destruct (br_loop_spec message Hm (seq 0 (length message)) p1)
    as (p2 & Hp2 & Hd2 & Hg2).
  fold (breaks message) in Hd1, Hg1, Hd2, Hg2.
  exists p1. split; [done|]. split; [|split].
  - intros k. rewrite Hd1, elem_of_union, elem_of_list_to_set.
    rewrite breaks_spec by done. tauto.
  - intros k. rewrite Hg1. cbn [to_open to_close br].
    split; [done|]. split; [done|].
    rewrite orb_true_iff, bool_decide_eq_true, breaks_spec by done. tauto.
  - rewrite Hp2. f_equal. apply positions_eq.
    + rewrite Hd2, Hd1. set_solver.
    + intros k. rewrite Hg2, Hg1. cbn [to_open to_close br].
      by rewrite <- orb_assoc, orb_diag.
Qed.

Lemma prepare_br_positions_spec_witness :
  exists positions',
    _prepare_br_positions (lit "a" ++ [0x1F600; NL] ++ lit "b") ∅
    = Ok positions'
    /\ positions' = {[ 6%Z := PositionChange [] [] true ]}.
Proof.
  destruct (prepare_br_positions_spec (lit "a" ++ [0x1F600; NL] ++ lit "b") ∅)
    as (p & Hp & _); [by_compute|].
  exists p. split; [exact Hp|].
  assert (H : Ok p = Ok ({[ 6%Z := PositionChange [] [] true ]}
                          : gmap Z _PositionChange))
    by (rewrite <- Hp; by vm_compute).
  by injection H.
Defined.

(** ** Conversions that raise *)

(** What a conversion with entities that returns went through: the
    index it built and the run of the main loop over its sorted keys. *)
Lemma convert_Ok_index message es type s :
  es <> [] ->
  convert message (Some es) type = Ok s ->
  exists ets positions st,
    Forall Utf16.scalar message
    /\ ets.*1 = es
    /\ resolved (set_syntax_dict type) (Utf16Facts.enc message) ets
    /\ dom positions
       = {[0%Z; Utf16Facts.size message]} ∪ list_to_set (bounds es)
         ∪ list_to_set (breaks message)
    /\ main_loop (set_syntax_dict type) (Utf16Facts.enc message) positions
         (paragraph_tag type) (newline_tag type) (sorted_keys positions)
         ([], []) = Ok st.
Proof.
  intros Hes Hc.
  assert (Hm : Forall Utf16.scalar message).
  { unfold convert, __init__ in Hc.
    destruct (Utf16.encode message) as [b16|] eqn:Henc; [|done].
    by apply Utf16Facts.encode_Ok in Henc as [Hm _]. }
  destruct (convert_Ok_inv message es type s Hes Hc)
    as (ets & positions & st & Hets & Hres & _ & _ & _ & Hloop).
  exists ets.
  destruct (position_index_spec message Hm (Some es) ets type Hets Hres)
    as (p & Hidx & Hdom & Hget).
  unfold convert, __init__ in Hc. unfold position_index, __init__ in Hidx.
  rewrite Utf16Facts.encode_scalar in Hc, Hidx by done.
  rewrite !bind_Ok in Hc. rewrite !bind_Ok in Hidx.
  unfold to_syntax in Hc. cbn [_entities _message _message_b16 output] in Hc.
  replace (no_entities (Some es)) with false in Hc by (by destruct es).
  cbn [andb] in Hc.
  rewrite get_tag_paragraph, get_tag_newline, !bind_Ok, Hidx, bind_Ok in Hc.
  destruct (main_loop _ _ p _ _ _ _) as [st'|] eqn:Hl; [|done].
  exists p, st'. rewrite Hets in Hdom. done.
Qed.

(** The last separation point is reached with no point behind it: the
    loop returns only when that point is the length of the encoded
    text. *)
Lemma main_loop_last d b16 positions p n l k st st' :
  main_loop d b16 positions p n (l ++ [k]) st = Ok st' ->
  k = Z.of_nat (length b16).
Proof.
  revert st. induction l as [|x l IH]; intros st; simpl.
  - unfold main_loop_body.
    destruct (decide (k ≠ Z.of_nat (length b16))) as [Hk|Hk]; [done|].
    intros _. by destruct (decide (k = Z.of_nat (length b16))).
  - destruct (main_loop_body _ _ _ _ _ _ _ _) as [st1|]; [|done].
    rewrite bind_Ok. apply IH.
Qed.

Lemma sorted_keys_last positions k :
  k ∈ dom positions ->
  exists l m, sorted_keys positions = l ++ [m] /\ (k <= m)%Z.
Proof.
  intros Hk.
  assert (Hss : StronglySorted Z.le (sorted_keys positions))
    by (apply StronglySorted_merge_sort; apply _).
  assert (Hin : k ∈ sorted_keys positions).
  { unfold sorted_keys. rewrite merge_sort_Permutation. by apply elem_of_keys. }
  destruct (exists_last (l := sorted_keys positions)) as (l & x & E);
    [by intros E; rewrite E in Hin; apply elem_of_nil in Hin|].
  rewrite E in *. exists l, x. split; [done|].
  apply elem_of_app in Hin as [Hin|Hin].
  - eapply (StronglySorted_app_1_elem_of Z.le); [done..|set_solver].
  - apply list_elem_of_singleton in Hin. lia.
Qed.

(** X6. An entity that starts or ends behind the end of the text makes the
    conversion raise: its offset is a separation point behind the
    length of the encoded text, and the loop looks for the point after
    the last one. *)
Theorem entity_out_of_range_raises message entities type e :
  e ∈ entities ->
  (Utf16Facts.units message < offset e
   \/ Utf16Facts.units message < offset e + length_ e)%Z ->
  exists err, convert message (Some entities) type = Raise err.
Proof.
  intros Hin Hout.
  destruct (convert message (Some entities) type) as [s|err] eqn:Hc;
    [exfalso|by exists err].
  apply convert_Ok_index in Hc
    as (ets & positions & st & Hm & Hets & Hres & Hdom & Hloop);
    [|by intros ->; apply elem_of_nil in Hin].
  assert (exists k, k ∈ dom positions /\ (Utf16Facts.size message < k)%Z)
    as (k & Hk & Hlt).
  { rewrite Utf16Facts.size_units.
    destruct Hout as [H|H]; [exists (start_of e)|exists (end_of e)];
      (split; [|unfold start_of, end_of; lia]);
      rewrite Hdom, !elem_of_union, !elem_of_list_to_set; left; right;
      unfold bounds; apply elem_of_flat_map; exists e; set_solver. }
  destruct (sorted_keys_last positions k Hk) as (l & m & Hl & Hle).
  rewrite Hl in Hloop. apply main_loop_last in Hloop.
  unfold Utf16Facts.size in Hlt. lia.
Qed.

Lemma entity_out_of_range_raises_witness :
  exists err,
    convert (lit "ab") (Some [ent MessageEntityBold 1 5]) (lit "html")
    = Raise err.
Proof.
  apply (entity_out_of_range_raises _ _ _ (ent MessageEntityBold 1 5)).
  - set_solver.
  - right. by vm_compute.
Defined.

(** Bytes that end with a high surrogate and nothing behind it do not
    decode. *)
Lemma decode_trailing_high xs h :
  Nat.Even (length xs) -> Utf16.is_high h = true ->
  Utf16.decode (xs ++ Utf16.unit_bytes h) = Raise UnicodeDecodeError.
Proof.
  intros Hev Hh.
  assert (Hl : Utf16.is_low h = false).
  { apply Utf16Facts.is_high_spec in Hh. apply Utf16Facts.is_low_false. lia. }
  remember (length xs) as n eqn:Hn. revert xs Hn Hev.
  induction n as [n IH] using lt_wf_ind. intros xs -> Hev.
  destruct xs as [|a0 [|a1 xs]].
  - unfold Utf16.unit_bytes. cbn [app].
    rewrite Utf16Facts.decode_unit. cbv zeta.
    by rewrite Utf16Facts.unit_of_bytes, Hl, Hh.
  - destruct Hev as [m Hm]. simpl in Hm. lia.
  - cbn [app]. rewrite Utf16Facts.decode_unit. cbv zeta.
    assert (Hxs : Nat.Even (length xs)).
    { destruct Hev as [m Hm]. exists (m - 1)%nat. simpl in Hm. lia. }
    destruct (Utf16.is_low (a0 + 256 * a1)); [done|].
    destruct (Utf16.is_high (a0 + 256 * a1)).
    + destruct xs as [|a2 [|a3 xs]].
      * unfold Utf16.unit_bytes. cbn [app].
        by rewrite Utf16Facts.unit_of_bytes, Hl.
      * destruct Hxs as [m Hm]. simpl in Hm. lia.
      * cbn [app]. destruct (Utf16.is_low (a2 + 256 * a3)); [|done].
        rewrite (IH (length xs)); [done|simpl; lia|done|].
        destruct Hxs as [m Hm]. exists (m - 1)%nat. simpl in Hm. lia.
    + rewrite (IH (length xs)); [done|simpl; lia|done|done].
Qed.

Lemma py_slice_drop_take {A} (l : list A) j k :
  (0 <= j <= k)%Z -> (k <= Z.of_nat (length l))%Z ->
  py_slice l j (Some k) = drop (Z.to_nat j) (take (Z.to_nat k) l).
Proof.
  intros Hj Hk. unfold py_slice, clamp.
  destruct (Z.ltb_spec j 0); [lia|]. destruct (Z.ltb_spec k 0); [lia|].
  rewrite !Z.min_l by lia. rewrite firstn_skipn_comm. do 2 f_equal. lia.
Qed.

(** A round of the loop that is reached returns when the loop does. *)
Lemma main_loop_at d b16 positions p n l1 j rest st st' :
  main_loop d b16 positions p n (l1 ++ j :: rest) st = Ok st' ->
  exists st1 st2, main_loop_body d b16 positions p n j rest st1 = Ok st2.
Proof.
  revert st. induction l1 as [|x l1 IH]; intros st; simpl.
  - destruct (main_loop_body _ _ _ _ _ j _ _) as [st2|] eqn:E; [|done].
    intros _. by exists st, st2.
  - destruct (main_loop_body _ _ _ _ _ x _ _) as [st1|]; [|done].
    rewrite bind_Ok. apply IH.
Qed.

(** Every separation point is an even number of bytes. *)
Lemma keys_even message es (positions : gmap Z _PositionChange) k :
  dom positions
  = {[0%Z; Utf16Facts.size message]} ∪ list_to_set (bounds es)
    ∪ list_to_set (breaks message) ->
  k ∈ dom positions -> exists n, k = (2 * n)%Z.
Proof.
  intros -> Hk. rewrite !elem_of_union, !elem_of_list_to_set in Hk.
  destruct Hk as [[[Hk|Hk]|Hk]|Hk].
  - apply elem_of_singleton in Hk as ->. by exists 0%Z.
  - apply elem_of_singleton in Hk as ->.
    exists (Utf16Facts.units message). rewrite Utf16Facts.size_units. lia.
  - unfold bounds in Hk. apply elem_of_flat_map in Hk as (e & _ & Hk).
    apply elem_of_cons in Hk as [->|Hk].
    + exists (offset e). unfold start_of. lia.
    + apply list_elem_of_singleton in Hk as ->.
      exists (offset e + length_ e)%Z. unfold end_of. lia.
  - unfold breaks, br_offsets in Hk. apply elem_of_flat_map in Hk as (i & _ & Hk).
    destruct (decide _); [|by apply elem_of_nil in Hk].
    apply list_elem_of_singleton in Hk as ->.
    exists (Utf16Facts.units (take i message)).
    rewrite Utf16Facts.size_units. lia.
Qed.

(** X7. An entity that starts or ends between the two units of a character
    outside the basic plane makes the conversion raise: the text before
    that separation point ends with half a character and does not
    decode. *)
Theorem entity_inside_surrogate_pair_raises pre c post entities type e :
  0x10000 <= c ->
  e ∈ entities ->
  (offset e = Utf16Facts.units pre + 1
   \/ offset e + length_ e = Utf16Facts.units pre + 1)%Z ->
  exists err,
    convert (pre ++ [c] ++ post) (Some entities) type = Raise err.
Proof.
  intros Hc Hin Hoff. set (message := pre ++ [c] ++ post).
  destruct (convert message (Some entities) type) as [s|err] eqn:Hconv;
    [exfalso|by exists err].
  apply convert_Ok_index in Hconv
    as (ets & positions & st & Hm & Hets & Hres & Hdom & Hloop);
    [|by intros ->; apply elem_of_nil in Hin].
  assert (Hcs : Utf16.scalar c).
  { unfold message in Hm. apply Forall_app in Hm as [_ Hm].
    by apply Forall_cons in Hm as [Hm _]. }
  set (v := c - 0x10000).
  set (hi := 0xD800 + v / 0x400). set (lo := 0xDC00 + v mod 0x400).
  assert (Hcb : Utf16.char_bytes c = Utf16.unit_bytes hi ++ Utf16.unit_bytes lo).
  { unfold Utf16.char_bytes, Utf16.char_units.
    replace (c <? 0x10000) with false by (symmetry; apply N.ltb_ge; lia).
    reflexivity. }
  assert (Hhi : Utf16.is_high hi = true).
  { apply Utf16Facts.is_high_spec.
    assert (Hv : v < 0x100000) by (unfold v, Utf16.scalar in *; lia).
    assert (Hq : v / 0x400 < 0x400)
      by (apply N.Div0.div_lt_upper_bound; lia).
    unfold hi. clearbody v. set (q := v / 0x400) in *. clearbody q.
    cbv beta. lia. }
  assert (Henc : Utf16Facts.enc message
                 = (Utf16Facts.enc pre ++ Utf16.unit_bytes hi)
                   ++ Utf16.unit_bytes lo ++ Utf16Facts.enc post).
  { unfold message. rewrite !Utf16Facts.enc_app.
    change (Utf16Facts.enc [c]) with (Utf16.char_bytes c ++ []).
    by rewrite app_nil_r, Hcb, <- !app_assoc. }
  set (k := (Utf16Facts.size pre + 2)%Z).
  assert (Hk : k ∈ dom positions).
  { rewrite Hdom, !elem_of_union, !elem_of_list_to_set. left. right.
    unfold bounds. apply elem_of_flat_map. exists e. split; [done|].
    unfold k. rewrite Utf16Facts.size_units.
    destruct Hoff as [H|H]; [apply elem_of_cons; left
                            |apply elem_of_cons; right; apply elem_of_cons; left];
      unfold start_of, end_of; lia. }
  assert (Hpre0 := Utf16Facts.size_nonneg pre).
  destruct (sorted_keys_split positions k Hk) as (l1 & l2 & Hsp & _ & Hl1).
  assert (H0 : 0%Z ∈ l1) by (apply Hl1; split; [rewrite Hdom; set_solver|lia]).
  destruct (exists_last (l := l1)) as (l1' & j & ->);
    [by intros ->; apply elem_of_nil in H0|].
  assert (Hj : j ∈ dom positions /\ (0 <= j < k)%Z).
  { destruct (proj1 (Hl1 j)) as [Hjd Hjk]; [set_solver|].
    split; [done|]. split; [|done].
    apply elem_of_app in H0 as [H0|H0].
    - assert (Hss : StronglySorted Z.le (sorted_keys positions))
        by (apply StronglySorted_merge_sort; apply _).
      rewrite Hsp, <- app_assoc in Hss.
      eapply (StronglySorted_app_1_elem_of Z.le); [done..|set_solver].
    - apply list_elem_of_singleton in H0. lia. }
  destruct Hj as (Hjd & Hj0 & Hjk).
  destruct (keys_even message entities positions j Hdom Hjd) as [nj Hnj].
  rewrite Hsp, <- app_assoc in Hloop. cbn [app] in Hloop.
  apply main_loop_at in Hloop as (st1 & st2 & Hbody).
  unfold main_loop_body in Hbody.
  assert (Hsize : Z.of_nat (length (Utf16Facts.enc message))
                  = (Utf16Facts.size pre + 4 + Utf16Facts.size post)%Z).
  { rewrite Henc, !length_app. unfold Utf16Facts.size. simpl. lia. }
  assert (Hpost0 := Utf16Facts.size_nonneg post).
  rewrite decide_True in Hbody by (unfold k in Hjk; lia).
  rewrite bind_Ok in Hbody.
  rewrite py_slice_drop_take in Hbody by (unfold k in *; lia).
  replace (Z.to_nat k) with (length (Utf16Facts.enc pre ++ Utf16.unit_bytes hi))
    in Hbody
    by (rewrite length_app; unfold k, Utf16Facts.size; simpl; lia).
  rewrite Henc, take_app_length in Hbody.
  rewrite drop_app_le in Hbody
    by (pose proof (Utf16Facts.size_units pre); unfold k, Utf16Facts.size in *; lia).
  rewrite decode_trailing_high in Hbody; [done| |done].
  rewrite length_drop.
  exists (Z.to_nat (Utf16Facts.units pre - nj)).
  pose proof (Utf16Facts.size_units pre). unfold k, Utf16Facts.size in *. lia.
Qed.

Lemma entity_inside_surrogate_pair_raises_witness :
  exists err,
    convert (lit "a" ++ [0x1F600] ++ lit "b")
      (Some [ent MessageEntityBold 0 2]) (lit "html") = Raise err.
Proof.
  apply (entity_inside_surrogate_pair_raises (lit "a") 0x1F600 (lit "b") _ _
           (ent MessageEntityBold 0 2)).
  - by vm_compute.
  - set_solver.
  - right. reflexivity.
Defined.

(** ** Classes no dictionary can make a tag for *)

Ltac eval_lookup :=
  match goal with
  | |- context [?d !! ?k] =>
      match type of d with
      | gmap string dict_value =>
          let v := eval vm_compute in (d !! k) in
          change (d !! k) with v
      end
  end.

Lemma entity_tag_mention_name type b16 e :
  kind e = MessageEntityMentionName ->
  exists err, entity_tag (set_syntax_dict type) b16 e = Raise err.
Proof.
  intros Hk. unfold entity_tag, set_syntax_dict. rewrite Hk.
  repeat (destruct (decide _) as [?|?]); eval_lookup; cbv beta iota;
    (destruct (Utf16.decode _); eexists; reflexivity).
Qed.

Lemma resolved_elem_of d b16 ets e :
  resolved d b16 ets -> e ∈ ets.*1 -> exists t, entity_tag d b16 e = Ok t.
Proof.
  intros Hres ([e' t] & -> & Hin)%list_elem_of_fmap.
  unfold resolved in Hres. rewrite Forall_forall in Hres.
  exists t. by apply (Hres _ Hin).
Qed.

(** X8. A mention by id cannot be converted under any syntax: every
    dictionary's tag function for its class passes the numeric [user_id]
    to [escape]. A conversion whose entity list holds one raises, and
    raises [AttributeError] when the mention is the first entity and
    covers text. *)
Theorem mention_by_id_raises message type e :
  kind e = MessageEntityMentionName ->
  (forall entities,
     e ∈ entities ->
     exists err, convert message (Some entities) type = Raise err)
  /\ (forall rest,
        Forall Utf16.scalar message -> covers message e ->
        convert message (Some (e :: rest)) type = Raise AttributeError).
Proof.
  intros Hk. split.
  - intros entities Hin.
    destruct (convert message (Some entities) type) as [s|err] eqn:Hc;
      [exfalso|by exists err].
    apply convert_Ok_index in Hc
      as (ets & positions & st & Hm & Hets & Hres & _);
      [|by intros ->; apply elem_of_nil in Hin].
    rewrite <- Hets in Hin.
    destruct (resolved_elem_of _ _ _ _ Hres Hin) as [t Ht].
    destruct (entity_tag_mention_name type (Utf16Facts.enc message) e Hk)
      as [err H]. rewrite H in Ht. discriminate Ht.
  - intros rest Hm (pre & mid & post & -> & _ & Hoff & Hlen).
    assert (Htag : entity_tag (set_syntax_dict type)
                     (Utf16Facts.enc (pre ++ mid ++ post)) e
                   = Raise AttributeError).
    { unfold entity_tag, set_syntax_dict. rewrite Hk.
      rewrite (entity_text pre mid post e Hm Hoff Hlen).
      repeat (destruct (decide _) as [?|?]); eval_lookup; reflexivity. }
    unfold convert, __init__. rewrite Utf16Facts.encode_scalar by done.
    rewrite !bind_Ok. unfold to_syntax.
    cbn [_entities _message _message_b16 _positions output no_entities andb].
    rewrite get_tag_paragraph, get_tag_newline, !bind_Ok.
    unfold prepare_positions.
    cbn [_entities _message _message_b16 _positions
         _prepare_entity_positions_utf16le for_].
    unfold entity_positions. by rewrite Htag.
Qed.

Lemma mention_by_id_raises_witness :
  convert (lit "bob hi")
    (Some [Entity MessageEntityMentionName 0 3 [] [] 42;
           ent MessageEntityBold 4 2]) (lit "md")
  = Raise AttributeError.
Proof.
  apply (proj2 (mention_by_id_raises (lit "bob hi") (lit "md")
                  (Entity MessageEntityMentionName 0 3 [] [] 42) eq_refl)).
  - by_compute.
  - exists [], (lit "bob"), (lit " hi"). by vm_compute.
Defined.

(** X9. The dictionaries have no entry for the class
    [InputMessageEntityMentionName]: a conversion whose first entity is
    of that class raises [KeyError] under every syntax, whatever the
    entity's offset and length, and one that holds such an entity
    anywhere raises. *)
Theorem input_mention_name_raises message type e :
  kind e = InputMessageEntityMentionName ->
  (forall entities,
     e ∈ entities ->
     exists err, convert message (Some entities) type = Raise err)
  /\ (forall rest,
        Forall Utf16.scalar message ->
        convert message (Some (e :: rest)) type = Raise KeyError).
Proof.
  intros Hk.
  assert (Htag : forall b16,
            entity_tag (set_syntax_dict type) b16 e = Raise KeyError).
  { intros b16. unfold entity_tag, set_syntax_dict. rewrite Hk.
    repeat (destruct (decide _) as [?|?]); eval_lookup; reflexivity. }
  split.
  - intros entities Hin.
    destruct (convert message (Some entities) type) as [s|err] eqn:Hc;
      [exfalso|by exists err].
    apply convert_Ok_index in Hc
      as (ets & positions & st & Hm & Hets & Hres & _);
      [|by intros ->; apply elem_of_nil in Hin].
    rewrite <- Hets in Hin.
    destruct (resolved_elem_of _ _ _ _ Hres Hin) as [t Ht].
    rewrite Htag in Ht. discriminate Ht.
  - intros rest Hm.
    unfold convert, __init__. rewrite Utf16Facts.encode_scalar by done.
    rewrite !bind_Ok. unfold to_syntax.
    cbn [_entities _message _message_b16 _positions output no_entities andb].
    rewrite get_tag_paragraph, get_tag_newline, !bind_Ok.
    unfold prepare_positions.
    cbn [_entities _message _message_b16 _positions
         _prepare_entity_positions_utf16le for_].
    unfold entity_positions. by rewrite Htag.
Qed.

Lemma input_mention_name_raises_witness :
  convert (lit "bob hi") (Some [ent InputMessageEntityMentionName 0 3])
    (lit "html")
  = Raise KeyError.
Proof.
  apply (proj2 (input_mention_name_raises (lit "bob hi") (lit "html")
                  (ent InputMessageEntityMentionName 0 3) eq_refl)).
  by_compute.
Defined.

(** ** A call of [to_syntax] on an object that was used before *)

(** A result with [out] put before its output. *)
Definition prepend (out : str) (r : result (list _Tag * str))
  : result (list _Tag * str) :=
  '(o, s) ← r; Ok (o, out ++ s).

Lemma prepend_prepend out s r :
  prepend out (prepend s r) = prepend (out ++ s) r.
Proof. destruct r as [[o t]|]; [|done]. simpl. by rewrite app_assoc. Qed.

Lemma for_prepend {A} (body : A -> list _Tag * str -> result (list _Tag * str)) :
  (forall x o out, body x (o, out) = prepend out (body x (o, []))) ->
  forall l o out, for_ l body (o, out) = prepend out (for_ l body (o, [])).
Proof.
  intros Hbody l. induction l as [|x l IH]; intros o out; simpl.
  - by rewrite app_nil_r.
  - rewrite (Hbody x o out). destruct (body x (o, [])) as [[o1 s1]|]; [|done].
    simpl. rewrite IH, (IH o1 s1). by rewrite prepend_prepend.
Qed.

Lemma close_tag_prepend t o out :
  close_tag t (o, out) = prepend out (close_tag t (o, [])).
Proof. unfold close_tag. by destruct (pop o). Qed.

Lemma open_tag_prepend t o out :
  open_tag t (o, out) = prepend out (open_tag t (o, [])).
Proof. reflexivity. Qed.

Lemma line_break_prepend d p n o out :
  line_break d p n (o, out) = prepend out (line_break d p n (o, [])).
Proof. unfold line_break. by destruct (code_is_open d o) as [[]|]. Qed.

Lemma markup_prepend d positions p n k o out :
  markup d positions p n k (o, out)
  = prepend out (markup d positions p n k (o, [])).
Proof.
  unfold markup. destruct (position positions k) as [pc|]; [|done].
  rewrite !bind_Ok.
  rewrite (for_prepend close_tag close_tag_prepend).
  destruct (for_ (to_close pc) close_tag (o, [])) as [[o1 s1]|]; [|done].
  cbn [prepend mbind result_bind].
  assert (Hbr : (if br pc then line_break d p n (o1, out ++ s1)
                 else Ok (o1, out ++ s1))
                = prepend out (if br pc then line_break d p n (o1, s1)
                               else Ok (o1, s1))).
  { destruct (br pc); [|done].
    rewrite line_break_prepend, (line_break_prepend _ _ _ _ s1).
    by rewrite prepend_prepend. }
  rewrite Hbr. clear Hbr.
  destruct (if br pc then _ else _) as [[o2 s2]|]; [|done].
  cbn [prepend mbind result_bind].
  rewrite (for_prepend open_tag open_tag_prepend),
    (for_prepend open_tag open_tag_prepend _ o2 s2).
  by rewrite <- prepend_prepend.
Qed.

Lemma main_loop_body_prepend d b16 positions p n k rest o out :
  main_loop_body d b16 positions p n k rest (o, out)
  = prepend out (main_loop_body d b16 positions p n k rest (o, [])).
Proof.
  unfold main_loop_body.
  destruct (if decide _ then _ else _) as [next|]; [|done]. rewrite !bind_Ok.
  destruct (Utf16.decode _) as [part|]; [|done]. rewrite !bind_Ok.
  rewrite markup_prepend.
  destruct (markup _ _ _ _ _ (o, [])) as [[o1 s1]|]; [|done].
  simpl. by rewrite app_assoc.
Qed.

(** The main loop only appends to the output it starts from. *)
Lemma main_loop_prepend d b16 positions p n l o out :
  main_loop d b16 positions p n l (o, out)
  = prepend out (main_loop d b16 positions p n l (o, [])).
Proof.
  revert o out. induction l as [|k l IH]; intros o out; simpl.
  - by rewrite app_nil_r.
  - rewrite main_loop_body_prepend.
    destruct (main_loop_body _ _ _ _ _ _ _ (o, [])) as [[o1 s1]|]; [|done].
    simpl. rewrite IH, (IH o1 s1). by rewrite prepend_prepend.
Qed.

(** The object with another [output]. *)
Definition with_output (self : MessageToSyntax) (s : str) : MessageToSyntax :=
  Self (_message self) (_entities self) s (_message_b16 self)
    (_positions self) (_ENTITIES_TO_TAG self).

(** X10. Off the fast path [to_syntax] never starts from an empty output: it
    returns what the same call returns on the object with its [output]
    emptied, with the [output] the object had put behind the opening
    text of the paragraph tag; and it raises when that call raises. *)
Theorem full_path_keeps_output type self :
  no_entities (_entities self) && bool_decide (NL ∉ _message self) = false ->
  (r ← to_syntax type self; Ok r.1)
  = (r0 ← to_syntax type (with_output self []);
     Ok (opening (paragraph_tag type) ++ output self
         ++ drop (length (opening (paragraph_tag type))) r0.1)).
Proof.
  unfold to_syntax.
  cbn [with_output _entities _message _message_b16 _positions output].
  intros ->. rewrite get_tag_paragraph, get_tag_newline, !bind_Ok.
  unfold prepare_positions.
  cbn [_entities _message _message_b16 _positions output].
  destruct (_prepare_entity_positions_utf16le _ _ _ _ ≫= _) as [positions|];
    [|done].
  rewrite !bind_Ok. rewrite main_loop_prepend.
  destruct (main_loop _ _ _ _ _ _ ([], [])) as [[o new]|]; [|done].
  cbn [prepend mbind result_bind fst]. rewrite !wrap_paragraph.
  rewrite drop_app_length. by rewrite <- !app_assoc.
Qed.

Lemma full_path_keeps_output_witness :
  (r ← to_syntax (lit "html")
         (Self (lit "ab") (Some [ent MessageEntityBold 0 2]) (lit "old")
            (lit "a" ++ [0] ++ lit "b" ++ [0]) ∅ ∅);
   Ok r.1)
  = Ok (lit "<p>old<b>ab</b></p>").
Proof.
  etransitivity.
  - apply full_path_keeps_output. reflexivity.
  - vm_compute. reflexivity.
Defined.

(** The index only grows: a record keeps the tags it has, new ones come
    behind those to open and before those to close, and a flag that is
    set stays set. *)
Definition record_grows (pc pc' : _PositionChange) : Prop :=
  to_open pc `prefix_of` to_open pc'
  /\ to_close pc `suffix_of` to_close pc'
  /\ (br pc = true -> br pc' = true).

Definition index_grows (p q : gmap Z _PositionChange) : Prop :=
  forall k pc, p !! k = Some pc ->
               exists pc', q !! k = Some pc' /\ record_grows pc pc'.

Lemma record_grows_refl pc : record_grows pc pc.
Proof. by repeat split. Qed.

Lemma index_grows_refl p : index_grows p p.
Proof. intros k pc H. exists pc. split; [done|apply record_grows_refl]. Qed.

Lemma index_grows_trans p q r :
  index_grows p q -> index_grows q r -> index_grows p r.
Proof.
  intros Hpq Hqr k pc H.
  destruct (Hpq k pc H) as (pc1 & H1 & Ho1 & Hc1 & Hb1).
  destruct (Hqr k pc1 H1) as (pc2 & H2 & Ho2 & Hc2 & Hb2).
  exists pc2. split; [done|]. split; [|split].
  - by etrans.
  - by etrans.
  - auto.
Qed.

Lemma ensure_grows i p : index_grows p (_ensure_position_exists i p).
Proof.
  intros k pc H. exists pc. split; [|apply record_grows_refl].
  unfold _ensure_position_exists. destruct (p !! i) eqn:E; [done|].
  rewrite lookup_insert_ne; [done|]. intros ->. congruence.
Qed.

Lemma update_position_grows i f p p' :
  (forall pc, record_grows pc (f pc)) ->
  update_position i f p = Ok p' -> index_grows p p'.
Proof.
  intros Hf. unfold update_position, position.
  destruct (p !! i) as [pc0|] eqn:E; [|done]. intros [= <-] k pc H.
  destruct (decide (k = i)) as [->|Hk].
  - rewrite lookup_insert_eq. exists (f pc0). split; [done|].
    rewrite E in H. injection H as <-. apply Hf.
  - rewrite lookup_insert_ne by done. exists pc.
    split; [done|apply record_grows_refl].
Qed.

Lemma for_grows {A} (body : A -> gmap Z _PositionChange
                           -> result (gmap Z _PositionChange)) l p p' :
  (forall x q q', body x q = Ok q' -> index_grows q q') ->
  for_ l body p = Ok p' -> index_grows p p'.
Proof.
  intros Hbody. revert p. induction l as [|x l IH]; intros p; simpl.
  - intros [= <-]. apply index_grows_refl.
  - destruct (body x p) as [q|] eqn:E; [|done]. rewrite bind_Ok. intros H.
    eapply index_grows_trans; [by eapply Hbody|by apply IH].
Qed.

Lemma entity_positions_grows d b16 e p p' :
  entity_positions d b16 e p = Ok p' -> index_grows p p'.
Proof.
  unfold entity_positions.
  destruct (entity_tag d b16 e) as [[tag|]|]; [| |done]; rewrite bind_Ok.
  - destruct (update_position (start_of e) _ _) as [q|] eqn:E; [|done].
    rewrite bind_Ok. intros H.
    eapply index_grows_trans; [apply ensure_grows|].
    eapply index_grows_trans; [apply ensure_grows|].
    eapply index_grows_trans; eapply update_position_grows; try done.
    + intros pc. split; [by apply prefix_app_r|done].
    + intros pc. split; [done|]. split; [by apply suffix_cons_r|done].
  - intros [= <-].
    eapply index_grows_trans; apply ensure_grows.
Qed.

Lemma br_position_grows message i p p' :
  br_position message i p = Ok p' -> index_grows p p'.
Proof.
  unfold br_position. destruct (decide _); [|intros [= <-]; apply index_grows_refl].
  destruct (Utf16.encode _) as [b|]; [|done]. rewrite bind_Ok. intros H.
  eapply index_grows_trans; [apply ensure_grows|].
  eapply update_position_grows; [|done].
  intros pc. by repeat split.
Qed.

(** X11. A call of [to_syntax] that returns leaves an index in which every
    separation point the object had is still a key, with the tags and
    the flag it had: nothing is reset between two calls. *)
Theorem index_only_grows type self r :
  to_syntax type self = Ok r ->
  index_grows (_positions self) (_positions r.2).
Proof.
  unfold to_syntax.
  destruct (no_entities _ && _); [intros [= <-]; apply index_grows_refl|].
  rewrite get_tag_paragraph, get_tag_newline, !bind_Ok.
  destruct (prepare_positions _ self) as [positions|] eqn:Hp; [|done].
  rewrite bind_Ok. destruct (main_loop _ _ _ _ _ _ _) as [[o out]|]; [|done].
  cbn [mbind result_bind]. intros [= <-]. cbn [snd _positions].
  unfold prepare_positions in Hp.
  destruct (_prepare_entity_positions_utf16le _ _ _ _) as [p1|] eqn:H1; [|done].
  rewrite bind_Ok in Hp.
  eapply index_grows_trans; [apply ensure_grows|].
  eapply index_grows_trans; [apply ensure_grows|].
  eapply index_grows_trans.
  - rewrite prepare_entity_positions_for in H1.
    eapply for_grows; [|exact H1]. apply entity_positions_grows.
  - eapply for_grows; [|exact Hp]. apply br_position_grows.
Qed.

Lemma index_only_grows_witness :
  exists r,
    (self ← __init__ (lit "ab") (Some [ent MessageEntityBold 0 2]);
     first ← to_syntax (lit "html") self;
     to_syntax (lit "html") first.2) = Ok r
    /\ index_grows
         {[ 0%Z := PositionChange [bold_tag] [] false;
            4%Z := PositionChange [] [bold_tag] false ]}
         (_positions r.2).
Proof.
  eexists. split.
  - vm_compute. reflexivity.
  - refine (index_only_grows (lit "html")
              (Self (lit "ab") (Some [ent MessageEntityBold 0 2])
                 (lit "<p><b>ab</b></p>") (lit "a" ++ [0] ++ lit "b" ++ [0])
                 {[ 0%Z := PositionChange [bold_tag] [] false;
                    4%Z := PositionChange [] [bold_tag] false ]}
                 html_dict) _ _).
    vm_compute. reflexivity.
Defined.

(** ** Several entities over one text *)

Section walks.
Import Utf16Facts.

Variable message : str.
Hypothesis message_scalar : Forall Utf16.scalar message.
Variable type : str.
Variable positions : gmap Z _PositionChange.
Hypothesis positions_breaks : forall k, k ∈ breaks message -> k ∈ dom positions.
Hypothesis positions_br :
  forall k, br (getd positions k) = bool_decide (k ∈ breaks message).
Hypothesis positions_ends :
  0%Z ∈ dom positions /\ size message ∈ dom positions.

(** From the start of the text to the first offset where a tag opens,
    no tag closing there. *)
Lemma walk_head pre todo :
  message = pre ++ todo ->
  (forall k, (k < size pre)%Z ->
             to_open (getd positions k) = []
             /\ to_close (getd positions k) = []) ->
  to_close (getd positions (size pre)) = [] ->
  size pre ∈ dom positions ->
  (st ← markup (set_syntax_dict type) positions (paragraph_tag type)
          (newline_tag type) 0 ([], []);
   char_tail (set_syntax_dict type) positions (paragraph_tag type)
     (newline_tag type) [] message st)
  = char_tail (set_syntax_dict type) positions (paragraph_tag type)
      (newline_tag type) pre todo
      (to_open (getd positions (size pre)),
       flat_map (seg_char type []) pre
       ++ lead type [] (bool_decide (head todo = Some NL))
       ++ concat (opening <$> to_open (getd positions (size pre)))).
Proof using All.
  intros Hm Hbefore Hcl Hk. destruct positions_ends as [H0 HL].
  destruct (decide (pre = [])) as [->|Hpre].
  - rewrite (walk_start message message_scalar type positions positions_br H0)
      by done.
    rewrite bind_Ok. simpl in Hm. by rewrite Hm.
  - pose proof (size_pos pre Hpre) as Hsz.
    destruct (Hbefore 0%Z ltac:(lia)) as [Hop0 Hcl0].
    rewrite (walk_start message message_scalar type positions positions_br H0)
      by done.
    rewrite bind_Ok, Hop0.
    match goal with
    | |- char_tail _ _ _ _ [] message (?o, ?out) = _ =>
        pose proof (walk_segment message message_scalar type positions
                      positions_breaks positions_br [] pre todo o out) as Hw
    end.
    cbn [app] in Hw. rewrite <- Hm in Hw. rewrite Hw; clear Hw; try done.
    + cbv zeta. cbn [app]. rewrite Hcl.
      cbn [concat fmap list_fmap length take app Nat.sub].
      rewrite (bool_decide_ext (head message = Some NL) (head pre = Some NL))
        by (rewrite Hm; by destruct pre).
      by rewrite !app_nil_r, app_assoc, seg_body_chars.
    + intros k Hk'. apply Hbefore. cbn [app] in Hk'. lia.
    + cbn [app]. rewrite Hcl. simpl. lia.
Qed.

(** From the last offset where a tag closes to the end of the text. *)
Lemma walk_tail pre post o out :
  message = pre ++ post ->
  (forall k, (size pre < k)%Z ->
             to_open (getd positions k) = []
             /\ to_close (getd positions k) = []) ->
  exists o',
    char_tail (set_syntax_dict type) positions (paragraph_tag type)
      (newline_tag type) pre post
      (o, out ++ lead type o (bool_decide (head post = Some NL)))
    = Ok (o', out ++ flat_map (seg_char type o) post).
Proof using All.
  intros Hm Hafter. destruct positions_ends as [H0 HL].
  destruct (decide (post = [])) as [->|Hpost].
  - exists o. cbn [char_tail head flat_map].
    by rewrite (bool_decide_false (None = Some NL)).
  - pose proof (size_pos post Hpost) as Hsz.
    assert (Hlast : (size pre < size (pre ++ post))%Z)
      by (rewrite size_app; lia).
    destruct (Hafter _ Hlast) as [Hop Hcl].
    pose proof (walk_segment message message_scalar type positions
                  positions_breaks positions_br pre post [] o
                  (out ++ lead type o (bool_decide (head post = Some NL))))
      as Hw.
    rewrite app_nil_r in Hw. rewrite Hw; clear Hw; try done.
    + cbv zeta. rewrite Hop, Hcl.
      cbn [concat fmap list_fmap length take app Nat.sub head].
      rewrite (bool_decide_false (None = Some NL)) by done.
      rewrite walk_end. eexists. f_equal. f_equal.
      rewrite Nat.sub_0_r, firstn_all. cbn [lead].
      rewrite ?app_nil_r, <- app_assoc. by rewrite seg_body_chars.
    + intros k Hk. apply Hafter. lia.
    + by rewrite <- Hm.
    + rewrite Hcl. simpl. lia.
Qed.

End walks.

Lemma opens_at_same k ets s :
  (forall e, e ∈ ets.*1 -> start_of e = s) ->
  opens_at k ets = if decide (k = s) then omap snd ets else [].
Proof.
  intros Hall. induction ets as [|[e t] ets IH].
  - by destruct (decide _).
  - unfold opens_at in *. cbn [flat_map fst snd omap list_omap].
    rewrite IH by (intros f Hf; apply Hall; set_solver).
    rewrite (Hall e) by set_solver.
    destruct (decide (s = k)), (decide (k = s)); try congruence;
      [by destruct t|done].
Qed.

Lemma closes_at_same k ets s :
  (forall e, e ∈ ets.*1 -> end_of e = s) ->
  closes_at k ets = if decide (k = s) then rev (omap snd ets) else [].
Proof.
  intros Hall. unfold closes_at.
  enough (flat_map (fun et => if decide (end_of et.1 = k)
                              then option_list et.2 else []) ets
          = if decide (k = s) then omap snd ets else []) as ->
    by (by destruct (decide _)).
  induction ets as [|[e t] ets IH].
  - by destruct (decide _).
  - cbn [flat_map fst snd omap list_omap].
    rewrite IH by (intros f Hf; apply Hall; set_solver).
    rewrite (Hall e) by set_solver.
    destruct (decide (s = k)), (decide (k = s)); try congruence;
      [by destruct t|done].
Qed.

Lemma omap_tagged {A} (f : A -> option _Tag) (l : list A) :
  omap snd ((fun x => (x, f x)) <$> l) = omap f l.
Proof.
  induction l as [|x l IH]; [done|].
  cbn [fmap list_fmap omap list_omap snd]. by rewrite IH.
Qed.

(** X12. Entities over the same piece of text nest in the order of the
    list: the tag of the first entity opens first and closes last. *)
Theorem same_span_nesting pre mid post type entities :
  Forall Utf16.scalar (pre ++ mid ++ post) ->
  mid <> [] -> entities <> [] ->
  (forall e, e ∈ entities ->
             offset e = Utf16Facts.units pre
             /\ length_ e = Utf16Facts.units mid
             /\ convertible (kind e)) ->
  convert (pre ++ mid ++ post) (Some entities) type
  = Ok (let ts := omap (tag_of type (pre ++ mid ++ post)) entities in
        wrap (paragraph_tag type)
          (flat_map (seg_char type []) pre
           ++ lead type [] (bool_decide (head mid = Some NL))
           ++ concat (opening <$> ts)
           ++ seg_body type ts mid
           ++ concat (closing <$> rev ts)
           ++ flat_map (seg_char type []) post)).
Proof.
  intros Hm Hmid Hne Hes. set (message := pre ++ mid ++ post) in *.
  set (ets := (fun e => (e, tag_of type message e)) <$> entities).
  assert (Hets : ets.*1 = entities)
    by (unfold ets; rewrite <- list_fmap_compose; apply list_fmap_id).
  assert (Hts : omap snd ets = omap (tag_of type message) entities)
    by apply omap_tagged.
  cbv zeta. rewrite <- Hts. set (ts := omap snd ets).
  assert (Hcov : forall e, e ∈ entities -> covers message e).
  { intros e He. destruct (Hes e He) as (Hoff & Hlen & _).
    by exists pre, mid, post. }
  assert (Hstart : forall e, e ∈ ets.*1 -> start_of e = Utf16Facts.size pre).
  { intros e He. rewrite Hets in He. destruct (Hes e He) as (Hoff & _).
    by apply one_entity_start. }
  assert (Hend : forall e, e ∈ ets.*1
                           -> end_of e = Utf16Facts.size (pre ++ mid)).
  { intros e He. rewrite Hets in He. destruct (Hes e He) as (Hoff & Hlen & _).
    by apply one_entity_end. }
  pose proof (Utf16Facts.size_pos mid Hmid) as Hmidsz.
  pose proof (Utf16Facts.size_nonneg pre) as Hpre0.
  assert (Hpm : Utf16Facts.size (pre ++ mid)
                = (Utf16Facts.size pre + Utf16Facts.size mid)%Z)
    by apply Utf16Facts.size_app.
  destruct (convert_chars message Hm (Some entities) ets type)
    as (positions & _ & Hdom & Hget & ->).
  { done. }
  { left. unfold ets. by destruct entities. }
  { unfold resolved, ets. apply Forall_fmap, Forall_forall. intros e He. simpl.
    destruct (Hes e He) as (_ & _ & Hk).
    destruct (entity_tag_convertible type message e Hm (Hcov e He) Hk)
      as [t Ht].
    unfold tag_of. by rewrite Ht. }
  { intros k Hk. unfold bounds in Hk.
    apply elem_of_flat_map in Hk as (e & He & Hk). rewrite Hets in He.
    destruct (covers_aligned message e (Hcov e He)) as (Hs & He' & _).
    apply elem_of_cons in Hk as [->|Hk]; [done|].
    by apply list_elem_of_singleton in Hk as ->. }
  assert (Hbr : forall k, k ∈ breaks message -> k ∈ dom positions)
    by (intros k Hk; rewrite Hdom; set_solver).
  assert (Hb : forall k, br (getd positions k)
                         = bool_decide (k ∈ breaks message))
    by (intros k; by rewrite Hget).
  assert (Hop : forall k, to_open (getd positions k)
                          = if decide (k = Utf16Facts.size pre) then ts else [])
    by (intros k; rewrite Hget; by apply opens_at_same).
  assert (Hcl : forall k, to_close (getd positions k)
                          = if decide (k = Utf16Facts.size (pre ++ mid))
                            then rev ts else [])
    by (intros k; rewrite Hget; by apply closes_at_same).
  assert (Hends : 0%Z ∈ dom positions
                  /\ Utf16Facts.size message ∈ dom positions)
    by (rewrite Hdom; set_solver).
  assert (Hkeys : Utf16Facts.size pre ∈ dom positions
                  /\ Utf16Facts.size (pre ++ mid) ∈ dom positions).
  { destruct entities as [|e es]; [done|].
    rewrite <- (Hstart e), <- (Hend e) by (rewrite Hets; set_solver).
    rewrite Hdom, Hets. simpl. set_solver. }
  destruct Hkeys as [Hka Hkb].
  rewrite (walk_head message Hm type positions Hbr Hb Hends pre (mid ++ post));
    try done.
  2:{ intros k Hk. rewrite Hop, Hcl. by decide_lia. }
  2:{ rewrite Hcl. by decide_lia. }
  rewrite Hop. decide_lia.
  rewrite (walk_segment message Hm type positions Hbr Hb pre mid post ts _);
    try done.
  2:{ intros k Hk. rewrite Hop, Hcl. by decide_lia. }
  2:{ rewrite Hcl. decide_lia. by rewrite length_rev. }
  cbv zeta. rewrite Hop, Hcl. decide_lia.
  rewrite length_rev, Nat.sub_diag, take_0. cbn [app].
  rewrite (bool_decide_ext (head (mid ++ post) = Some NL) (head mid = Some NL))
    by (by destruct mid).
  destruct (walk_tail message Hm type positions Hbr Hb Hends
              (pre ++ mid) post []
              (flat_map (seg_char type []) pre
               ++ lead type [] (bool_decide (head mid = Some NL))
               ++ concat (opening <$> ts) ++ seg_body type ts mid
               ++ concat (closing <$> rev ts)))
    as [o' Hw].
  { unfold message. by rewrite <- app_assoc. }
  { intros k Hk. rewrite Hop, Hcl. by decide_lia. }
  rewrite app_nil_r. rewrite <- !app_assoc in Hw. rewrite <- !app_assoc.
  rewrite Hw, bind_Ok. reflexivity.
Qed.

Lemma same_span_nesting_witness :
  convert (lit "x" ++ lit "a&b" ++ lit "y")
    (Some [ent MessageEntityBold 1 3; ent MessageEntityBankCard 1 3;
           ent MessageEntityItalic 1 3])
    (lit "html")
  = Ok (lit "<p>x<b><i>a&amp;b</i></b>y</p>").
Proof.
  etransitivity.
  - apply same_span_nesting.
    + by_compute.
    + done.
    + done.
    + intros e He. repeat (apply elem_of_cons in He as [->|He]);
        try (by vm_compute). by apply elem_of_nil in He.
  - vm_compute. reflexivity.
Defined.

Lemma bounds_elem_of es e :
  e ∈ es -> start_of e ∈ bounds es /\ end_of e ∈ bounds es.
Proof.
  intros He. unfold bounds. rewrite !elem_of_flat_map.
  split; exists e; (split; [done|set_solver]).
Qed.

Section overlapping_entities.
Import Utf16Facts.

Variables s0 s1 s2 s3 s4 : str.
Variable type : str.
Variables e1 e2 : entity.
Variables A B : _Tag.

Let message := s0 ++ s1 ++ s2 ++ s3 ++ s4.

Hypothesis message_scalar : Forall Utf16.scalar message.
Hypothesis s1_not_empty : s1 <> [].
Hypothesis s2_not_empty : s2 <> [].
Hypothesis s3_not_empty : s3 <> [].
Hypothesis e1_offset : offset e1 = units s0.
Hypothesis e1_length : length_ e1 = units (s1 ++ s2).
Hypothesis e2_offset : offset e2 = units (s0 ++ s1).
Hypothesis e2_length : length_ e2 = units (s2 ++ s3).
Hypothesis e1_tag :
  entity_tag (set_syntax_dict type) (enc message) e1 = Ok (Some A).
Hypothesis e2_tag :
  entity_tag (set_syntax_dict type) (enc message) e2 = Ok (Some B).

(** X13. Two entities that overlap without one holding the other: the tags
    cross, the one opened first closing inside the other. The closing
    pops the tag opened last, so the tag of the first entity stays on
    the stack of open tags until the second one closes: the line breaks
    between the two closings are rendered as inside the first entity. *)
Theorem overlapping_entities_cross entities :
  entities = [e1; e2] \/ entities = [e2; e1] ->
  convert message (Some entities) type
  = Ok (wrap (paragraph_tag type)
          (flat_map (seg_char type []) s0
           ++ lead type [] (bool_decide (head s1 = Some NL))
           ++ opening A ++ seg_body type [A] s1
           ++ lead type [A] (bool_decide (head s2 = Some NL))
           ++ opening B ++ seg_body type [A; B] s2
           ++ closing A
           ++ lead type [A] (bool_decide (head s3 = Some NL))
           ++ seg_body type [A] s3
           ++ closing B
           ++ flat_map (seg_char type []) s4)).
Proof using All.
  intros Hent.
  pose proof (one_entity_start s0 e1 e1_offset) as Hs1.
  pose proof (one_entity_end s0 (s1 ++ s2) e1 e1_offset e1_length) as He1.
  pose proof (one_entity_start (s0 ++ s1) e2 e2_offset) as Hs2.
  pose proof (one_entity_end (s0 ++ s1) (s2 ++ s3) e2 e2_offset e2_length)
    as He2.
  rewrite app_assoc in He1. rewrite app_assoc in He2.
  set (k0 := size s0) in *. set (k1 := size (s0 ++ s1)) in *.
  set (k2 := size ((s0 ++ s1) ++ s2)) in *.
  set (k3 := size (((s0 ++ s1) ++ s2) ++ s3)) in *.
  assert (Hm3 : message = (((s0 ++ s1) ++ s2) ++ s3) ++ s4)
    by (unfold message; by rewrite <- !app_assoc).
  assert (Hm2 : message = ((s0 ++ s1) ++ s2) ++ s3 ++ s4)
    by (unfold message; by rewrite <- !app_assoc).
  assert (Hm1 : message = (s0 ++ s1) ++ s2 ++ s3 ++ s4)
    by (unfold message; by rewrite <- !app_assoc).
  pose proof (size_pos s1 s1_not_empty) as Hsz1.
  pose proof (size_pos s2 s2_not_empty) as Hsz2.
  pose proof (size_pos s3 s3_not_empty) as Hsz3.
  pose proof (size_nonneg s0) as Hsz0. pose proof (size_nonneg s4) as Hsz4.
  assert (Hk1 : k1 = (k0 + size s1)%Z) by apply size_app.
  assert (Hk2 : k2 = (k1 + size s2)%Z) by apply size_app.
  assert (Hk3 : k3 = (k2 + size s3)%Z) by apply size_app.
  assert (HkL : size message = (k3 + size s4)%Z)
    by (rewrite Hm3; apply size_app).
  assert (exists ets,
            ets.*1 = entities /\ ets <> []
            /\ resolved (set_syntax_dict type) (enc message) ets
            /\ (forall k, opens_at k ets
                          = if decide (k = k0) then [A]
                            else if decide (k = k1) then [B] else [])
            /\ (forall k, closes_at k ets
                          = if decide (k = k2) then [A]
                            else if decide (k = k3) then [B] else []))
    as (ets & Hets & Hne & Hres & Hopens & Hcloses).
  { destruct Hent as [-> | ->];
      [exists [(e1, Some A); (e2, Some B)]
      |exists [(e2, Some B); (e1, Some A)]];
      (split; [done|]); (split; [done|]);
      (split; [by repeat constructor|]); split; intros k.
    all: try change (opens_at k [?x; ?y]) with (opens_at k ([x] ++ [y])).
    all: try change (closes_at k [?x; ?y]) with (closes_at k ([x] ++ [y])).
    all: rewrite ?opens_at_app, ?closes_at_app, ?opens_at_one,
           ?closes_at_one, ?Hs1, ?Hs2, ?He1, ?He2.
    all: repeat (destruct (decide _)); try done; lia. }
  destruct (convert_chars message message_scalar (Some entities) ets type)
    as (positions & _ & Hdom & Hget & ->).
  { done. }
  { by left. }
  { done. }
  { intros k Hk.
    assert (Hk' : k ∈ [k0; k1; k2; k3]).
    { rewrite Hets in Hk. rewrite <- Hs1, <- Hs2, <- He1, <- He2.
      destruct Hent as [-> | ->]; simpl in Hk; set_solver. }
    repeat (apply elem_of_cons in Hk' as [->|Hk']).
    - by apply (size_prefix_bound message s0 (s1 ++ s2 ++ s3 ++ s4)).
    - by apply (size_prefix_bound message (s0 ++ s1) (s2 ++ s3 ++ s4)).
    - by apply (size_prefix_bound message ((s0 ++ s1) ++ s2) (s3 ++ s4)).
    - by apply (size_prefix_bound message (((s0 ++ s1) ++ s2) ++ s3) s4).
    - by apply elem_of_nil in Hk'. }
  assert (Hbr : forall k, k ∈ breaks message -> k ∈ dom positions)
    by (intros k Hk; rewrite Hdom; set_solver).
  assert (Hb : forall k, br (getd positions k)
                         = bool_decide (k ∈ breaks message))
    by (intros k; by rewrite Hget).
  assert (Hop : forall k, to_open (getd positions k)
                          = if decide (k = k0) then [A]
                            else if decide (k = k1) then [B] else [])
    by (intros k; rewrite Hget; apply Hopens).
  assert (Hcl : forall k, to_close (getd positions k)
                          = if decide (k = k2) then [A]
                            else if decide (k = k3) then [B] else [])
    by (intros k; rewrite Hget; apply Hcloses).
  assert (Hends : 0%Z ∈ dom positions /\ size message ∈ dom positions)
    by (rewrite Hdom; set_solver).
  assert (Hkeys : k0 ∈ dom positions /\ k1 ∈ dom positions
                  /\ k2 ∈ dom positions /\ k3 ∈ dom positions).
  { assert (Hin : e1 ∈ entities /\ e2 ∈ entities)
      by (destruct Hent as [-> | ->]; set_solver).
    destruct Hin as [Hin1 Hin2].
    destruct (bounds_elem_of entities e1 Hin1) as [Hb1 Hb1'].
    destruct (bounds_elem_of entities e2 Hin2) as [Hb2 Hb2'].
    rewrite Hs1, He1 in *. rewrite Hs2, He2 in *.
    rewrite Hdom, Hets. repeat split;
      apply elem_of_union_l, elem_of_union_r, elem_of_list_to_set; done. }
  destruct Hkeys as (Hd0 & Hd1 & Hd2 & Hd3).
  rewrite (walk_head message message_scalar type positions Hbr Hb Hends
             s0 (s1 ++ s2 ++ s3 ++ s4)); try done.
  2:{ intros k Hk. rewrite Hop, Hcl. fold k0 in Hk. by decide_lia. }
  2:{ fold k0. rewrite Hcl. by decide_lia. }
  fold k0. rewrite Hop. decide_lia.
  rewrite (bool_decide_ext (head (s1 ++ s2 ++ s3 ++ s4) = Some NL)
             (head s1 = Some NL)) by (by destruct s1).
  (* the first entity alone *)
  rewrite (walk_segment message message_scalar type positions Hbr Hb
             s0 s1 (s2 ++ s3 ++ s4) [A] _); try done.
  2:{ intros k Hk. fold k0 k1 in Hk. rewrite Hop, Hcl. by decide_lia. }
  2:{ fold k1. rewrite Hcl. decide_lia. simpl. lia. }
  cbv zeta. fold k1. rewrite Hop, Hcl. decide_lia.
  cbn [concat fmap list_fmap length take app Nat.sub].
  rewrite (bool_decide_ext (head (s2 ++ s3 ++ s4) = Some NL)
             (head s2 = Some NL)) by (by destruct s2).
  (* both entities *)
  rewrite (walk_segment message message_scalar type positions Hbr Hb
             (s0 ++ s1) s2 (s3 ++ s4) [A; B] _); try done.
  2:{ intros k Hk. fold k1 k2 in Hk. rewrite Hop, Hcl. by decide_lia. }
  2:{ fold k2. rewrite Hcl. decide_lia. simpl. lia. }
  cbv zeta. fold k2. rewrite Hop, Hcl. decide_lia.
  cbn [concat fmap list_fmap length take app Nat.sub].
  rewrite (bool_decide_ext (head (s3 ++ s4) = Some NL)
             (head s3 = Some NL)) by (by destruct s3).
  (* the second entity, with the tag of the first left on the stack *)
  rewrite (walk_segment message message_scalar type positions Hbr Hb
             ((s0 ++ s1) ++ s2) s3 s4 [A] _); try done.
  2:{ intros k Hk. fold k2 k3 in Hk. rewrite Hop, Hcl. by decide_lia. }
  2:{ fold k3. rewrite Hcl. decide_lia. simpl. lia. }
  cbv zeta. fold k3. rewrite Hop, Hcl. decide_lia.
  cbn [concat fmap list_fmap length take app Nat.sub].
  match goal with
  | |- context [char_tail _ _ _ _ _ s4 ([], ?out)] =>
      match out with
      | ?x ++ ?sb ++ ?cl ++ ?ld ++ [] =>
          destruct (walk_tail message message_scalar type positions Hbr Hb
                      Hends (((s0 ++ s1) ++ s2) ++ s3) s4 []
                      (x ++ sb ++ cl))
            as [o' Hw]
      end
  end.
  { done. }
  { intros k Hk. fold k3 in Hk. rewrite Hop, Hcl. by decide_lia. }
  rewrite !app_nil_r in Hw. rewrite !app_nil_r.
  rewrite <- !app_assoc in Hw. rewrite <- !app_assoc.
  cbn [app] in Hw. rewrite Hw, bind_Ok. reflexivity.
Qed.

End overlapping_entities.

Lemma overlapping_entities_cross_witness :
  convert (lit "x" ++ (lit "a" ++ [NL]) ++ lit "b" ++ ([NL] ++ lit "c")
           ++ lit "y")
    (Some [ent MessageEntityCode 1 3; ent MessageEntityBold 3 3])
    (lit "html")
  = Ok (lit "<p>x<pre>a<br /><b>b</pre><br />c</b>y</p>").
Proof.
  etransitivity.
  - apply (overlapping_entities_cross (lit "x") (lit "a" ++ [NL]) (lit "b")
             ([NL] ++ lit "c") (lit "y") (lit "html")
             (ent MessageEntityCode 1 3) (ent MessageEntityBold 3 3)
             pre_tag bold_tag).
    + by_compute.
    + done.
    + done.
    + done.
    + reflexivity.
    + reflexivity.
    + reflexivity.
    + reflexivity.
    + reflexivity.
    + reflexivity.
    + by left.
  - vm_compute. reflexivity.
Defined.

(** ** The order of the entity list *)

Lemma flat_map_perm_unique {A B} (f : A -> Z) (g : A -> list B) k l1 l2 :
  l1 ≡ₚ l2 -> NoDup (f <$> l1) ->
  flat_map (fun x => if decide (f x = k) then g x else []) l1
  = flat_map (fun x => if decide (f x = k) then g x else []) l2.
Proof.
  induction 1 as [|x l1 l2 Hp IH|x y l|l1 l2 l3 Hp1 IH1 Hp2 IH2]; intros Hnd.
  - done.
  - simpl. rewrite IH; [done|]. rewrite fmap_cons in Hnd.
    by apply NoDup_cons in Hnd as [_ Hnd].
  - simpl. rewrite !fmap_cons in Hnd.
    apply NoDup_cons in Hnd as [Hne _]. rewrite not_elem_of_cons in Hne.
    destruct Hne as [Hne _].
    destruct (decide (f x = k)), (decide (f y = k)); try done.
    congruence.
  - rewrite IH1 by done. apply IH2. by rewrite <- Hp1.
Qed.

Lemma render_tail_ext type ets1 ets2 pre todo o :
  (forall k, opens_at k ets1 = opens_at k ets2) ->
  (forall k, closes_at k ets1 = closes_at k ets2) ->
  render_tail type ets1 pre todo o = render_tail type ets2 pre todo o.
Proof.
  intros Hop Hcl. revert pre o.
  induction todo as [|c todo IH]; intros pre o; [done|].
  cbn [render_tail]. by rewrite Hop, Hcl, IH.
Qed.

(** X14. When no two entities start at the same offset and no two end at the
    same offset, the order in which the list holds them does not change
    what the conversion returns. *)
Theorem entity_order_irrelevant message es1 es2 type :
  Forall Utf16.scalar message ->
  es1 ≡ₚ es2 ->
  NoDup (offset <$> es1) ->
  NoDup ((fun e => offset e + length_ e)%Z <$> es1) ->
  (forall e, e ∈ es1 -> covers message e /\ convertible (kind e)) ->
  convert message (Some es1) type = convert message (Some es2) type.
Proof.
  intros Hm Hperm Hs He Hes.
  destruct (decide (es1 = [])) as [->|Hne1].
  { by apply Permutation_nil in Hperm as ->. }
  assert (Hne2 : es2 <> [])
    by (intros ->; by apply Permutation_nil_r in Hperm).
  assert (Hes2 : forall e, e ∈ es2 -> covers message e /\ convertible (kind e))
    by (intros e Hin; apply Hes; by rewrite Hperm).
  rewrite (convert_covering message (Some es1) type Hm Hes)
    by (by destruct es1).
  rewrite (convert_covering message (Some es2) type Hm Hes2)
    by (by destruct es2).
  do 2 f_equal. cbn [entity_list default].
  set (tag := fun e => (e, tag_of type message e)).
  assert (Hp : tag <$> es1 ≡ₚ tag <$> es2) by (by apply fmap_Permutation).
  assert (Hop : forall k, opens_at k (tag <$> es1) = opens_at k (tag <$> es2)).
  { intros k. apply (flat_map_perm_unique (fun et => start_of et.1)); [done|].
    rewrite <- list_fmap_compose.
    change (NoDup ((fun e => offset e * 2)%Z <$> es1)).
    rewrite (list_fmap_compose offset (fun x => x * 2)%Z).
    apply NoDup_fmap_2; [intros x y; lia|done]. }
  assert (Hcl : forall k, closes_at k (tag <$> es1)
                          = closes_at k (tag <$> es2)).
  { intros k. unfold closes_at. f_equal.
    apply (flat_map_perm_unique (fun et => end_of et.1)); [done|].
    rewrite <- list_fmap_compose.
    change (NoDup ((fun e => (offset e + length_ e) * 2)%Z <$> es1)).
    rewrite (list_fmap_compose (fun e => offset e + length_ e)%Z
               (fun x => x * 2)%Z).
    apply NoDup_fmap_2; [intros x y; lia|done]. }
  unfold render. by rewrite !Hop, (render_tail_ext _ _ _ _ _ _ Hop Hcl).
Qed.

Lemma entity_order_irrelevant_witness :
  convert (lit "abcd")
    (Some [ent MessageEntityItalic 1 2; ent MessageEntityBold 0 4])
    (lit "html")
  = convert (lit "abcd")
      (Some [ent MessageEntityBold 0 4; ent MessageEntityItalic 1 2])
      (lit "html").
Proof.
  apply entity_order_irrelevant.
  - by_compute.
  - apply perm_swap.
  - by_compute.
  - by_compute.
  - intros e He. split.
    + repeat (apply elem_of_cons in He as [->|He]).
      * exists (lit "a"), (lit "bc"), (lit "d"). by vm_compute.
      * exists [], (lit "abcd"), []. by vm_compute.
      * by apply elem_of_nil in He.
    + repeat (apply elem_of_cons in He as [->|He]); try by vm_compute.
      by apply elem_of_nil in He.
Defined.

(** ** The literal text *)

(** X15. The text the main loop copies from the message holds no line break
    and none of the characters [<], [>], double and single quote: what
    the output has of them comes from the tags. An ampersand is copied
    only as the start of a character reference. *)
Theorem literal_text_is_escaped s :
  (forall c, c ∈ escape (replace NL [] s) -> c ∉ [NL; 60; 62; 34; 39])
  /\ escape (replace NL [] s)
     = flat_map (fun c => if decide (c = NL) then [] else escape_char c) s.
Proof.
  assert (H : escape (replace NL [] s)
              = flat_map (fun c => if decide (c = NL) then []
                                   else escape_char c) s).
  { induction s as [|c s IH]; [done|].
    change (c :: s) with ([c] ++ s).
    rewrite replace_app, escape_app, IH. cbn [app flat_map]. f_equal.
    destruct (decide (c = NL)) as [->|Hc]; [done|].
    rewrite replace_other by done. apply escape_one. }
  split; [|done]. rewrite H. intros c Hc.
  apply elem_of_flat_map in Hc as (x & _ & Hc).
  destruct (decide (x = NL)); [by apply elem_of_nil in Hc|].
  unfold escape_char in Hc.
  repeat match type of Hc with
    | context [N.eqb x ?n] =>
        destruct (N.eqb_spec x n) as [->|?];
        [repeat match type of Hc with
           | context [lit ?t] =>
               let v := eval vm_compute in (lit t) in
               change (lit t) with v in Hc
           end;
         repeat (apply elem_of_cons in Hc as [->|Hc]; [by_compute|]);
         by apply elem_of_nil in Hc|]
    end.
  apply list_elem_of_singleton in Hc as ->.
  repeat (apply not_elem_of_cons; split; [done|]). apply not_elem_of_nil.
Qed.

Lemma literal_text_is_escaped_witness :
  (38 ∉ [NL; 60; 62; 34; 39])
  /\ escape (replace NL [] (lit "a" ++ [NL] ++ lit ">b")) = lit "a&gt;b".
Proof.
  split.
  - apply (proj1 (literal_text_is_escaped (lit "a" ++ [NL] ++ lit ">b"))).
    by_compute.
  - rewrite (proj2 (literal_text_is_escaped _)). reflexivity.
Defined.

(** ** The separation points *)

Lemma StronglySorted_le_lt l :
  StronglySorted Z.le l -> NoDup l -> StronglySorted Z.lt l.
Proof.
  induction 1 as [|x l Hl IH Hx]; intros Hnd; constructor.
  - apply IH. by apply NoDup_cons in Hnd as [_ ?].
  - apply NoDup_cons in Hnd as [Hx' _]. rewrite Forall_forall in *.
    intros y Hy. specialize (Hx y Hy).
    assert (x <> y) by (by intros ->). lia.
Qed.

(** X16. The separation points of a conversion whose entities resolve, as
    the main loop visits them: in increasing order, none twice, and they
    are the start of the text, its end, both bounds of every entity
    (with a tag or without), and the offset of every line break, all in
    bytes, two a 16-bit unit. *)
Theorem separation_points message entities type :
  Forall Utf16.scalar message ->
  (forall e, e ∈ entity_list entities ->
             exists t, entity_tag (set_syntax_dict type)
                         (Utf16Facts.enc message) e = Ok t) ->
  exists positions,
    position_index message entities type = Ok positions
    /\ StronglySorted Z.lt (sorted_keys positions)
    /\ forall k,
         k ∈ sorted_keys positions
         <-> (k = 0
              \/ k = 2 * Utf16Facts.units message
              \/ (exists e, e ∈ entity_list entities
                            /\ (k = 2 * offset e
                                \/ k = 2 * (offset e + length_ e)))
              \/ (exists pre rest, message = pre ++ NL :: rest
                                   /\ k = 2 * Utf16Facts.units pre))%Z.
Proof.
  intros Hm Hes.
  set (ets := (fun e => (e, tag_of type message e)) <$> entity_list entities).
  assert (Hets : ets.*1 = entity_list entities)
    by (unfold ets; rewrite <- list_fmap_compose; apply list_fmap_id).
  destruct (position_index_spec message Hm entities ets type Hets)
    as (positions & Hidx & Hdom & _).
  { unfold resolved, ets. apply Forall_fmap, Forall_forall. intros e He. simpl.
    destruct (Hes e He) as [t Ht]. unfold tag_of. by rewrite Ht. }
  exists positions. split; [done|].
  assert (Hperm : sorted_keys positions ≡ₚ (map_to_list positions).*1)
    by apply merge_sort_Permutation.
  split.
  - apply StronglySorted_le_lt.
    + apply StronglySorted_merge_sort; apply _.
    + rewrite Hperm. apply NoDup_fst_map_to_list.
  - intros k. rewrite Hperm, elem_of_keys, Hdom, Hets.
    rewrite !elem_of_union, !elem_of_list_to_set, !elem_of_singleton.
    rewrite breaks_spec by done. unfold bounds.
    rewrite elem_of_flat_map, Utf16Facts.size_units.
    split.
    + intros [[[->| ->]|(e & He & Hk)]|(pre & rest & E & ->)].
      * by left.
      * right. left. lia.
      * right. right. left. exists e. split; [done|].
        apply elem_of_cons in Hk as [->|Hk]; [left; unfold start_of; lia|].
        apply list_elem_of_singleton in Hk as ->.
        right. unfold end_of. lia.
      * right. right. right. exists pre, rest. split; [done|].
        rewrite Utf16Facts.size_units. lia.
    + intros [->|[->|[(e & He & Hk)|(pre & rest & E & ->)]]].
      * by left; left; left.
      * left. left. right. lia.
      * left. right. exists e. split; [done|].
        destruct Hk as [->| ->]; [apply elem_of_cons; left
                                 |apply elem_of_cons; right;
                                  apply elem_of_cons; left];
          unfold start_of, end_of; lia.
      * right. exists pre, rest. split; [done|].
        rewrite Utf16Facts.size_units. lia.
Qed.

Lemma separation_points_witness :
  exists positions,
    position_index (lit "a" ++ [0x1F600; NL] ++ lit "b")
      (Some [ent MessageEntityBankCard 1 2]) (lit "md") = Ok positions
    /\ sorted_keys positions = [0; 2; 6; 10]%Z.
Proof.
  destruct (separation_points (lit "a" ++ [0x1F600; NL] ++ lit "b")
              (Some [ent MessageEntityBankCard 1 2]) (lit "md"))
    as (positions & Hidx & _).
  - by_compute.
  - intros e He. apply list_elem_of_singleton in He as ->.
    eexists. reflexivity.
  - exists positions. split; [exact Hidx|].
    assert (H : Ok positions
                = Ok ({[ 0%Z := PositionChange [] [] false;
                         2%Z := PositionChange [] [] false;
                         6%Z := PositionChange [] [] true;
                         10%Z := PositionChange [] [] false ]}
                      : gmap Z _PositionChange))
      by (rewrite <- Hidx; vm_compute; reflexivity).
    injection H as ->. vm_compute. reflexivity.
Defined.

(** ** An entity of negative length *)

(** X17. An entity of negative length whose class has a tag makes the
    conversion raise, unless another entity extends over the offset
    where it ends: its tag is to be closed before it was opened, and
    the close loop pops from a list that holds no tag for it. *)
Theorem negative_length_entity_raises message entities type e :
  e ∈ entities ->
  (length_ e < 0)%Z ->
  set_syntax_dict type !! type_name (kind e) <> Some PyNone ->
  (forall f, f ∈ entities ->
             ~ (offset f < offset e + length_ e < offset f + length_ f)%Z) ->
  exists err, convert message (Some entities) type = Raise err.
Proof.
  intros Hin Hlen Htag Hno.
  destruct (convert message (Some entities) type) as [s|err] eqn:Hc;
    [exfalso|by exists err].
  apply convert_Ok_inv in Hc
    as (ets & positions & st & Hets & Hres & Hdom & Hop & Hcl & Hloop);
    [|by intros ->; apply elem_of_nil in Hin].
  set (k := end_of e).
  assert (Hstart : (k < start_of e)%Z) by (unfold k, start_of, end_of; lia).
  assert (Hk : k ∈ dom positions)
    by (apply Hdom; unfold bounds; apply elem_of_flat_map; exists e;
        split; [done|set_solver]).
  destruct (sorted_keys_split positions k Hk) as (l1 & l2 & Hsp & Hnd & Hl1).
  rewrite Hsp in Hloop.
  apply main_loop_stack in Hloop.
  2:{ intros x Hx. rewrite <- Hsp in Hx. unfold sorted_keys in Hx.
      rewrite merge_sort_Permutation in Hx. by apply elem_of_keys. }
  assert (Hopened : opened positions l1
                    = tagged_count (fun f => start_of f ∈ l1) ets).
  { unfold opened. rewrite <- tagged_count_sum by done. f_equal.
    apply list_fmap_ext. intros _ x _. by rewrite Hop, length_opens_at. }
  assert (Hclosed : (closed positions l1
                     + length (to_close (getd positions k)))%nat
                    = tagged_count (fun f => end_of f ∈ k :: l1) ets).
  { rewrite <- tagged_count_sum.
    - rewrite fmap_cons. cbn [sum_list_with id].
      rewrite Hcl, length_closes_at, Nat.add_comm. f_equal.
      unfold closed. f_equal.
      apply list_fmap_ext. intros _ x _. by rewrite Hcl, length_closes_at.
    - constructor; [|done]. rewrite Hl1. lia. }
  assert (Het : exists t, (e, Some t) ∈ ets).
  { rewrite <- Hets in Hin.
    apply list_elem_of_fmap in Hin as ([e' t] & -> & Hin).
    unfold resolved in Hres. rewrite Forall_forall in Hres.
    pose proof (Hres _ Hin) as He. simpl in He.
    apply entity_tag_Some in He as [tag ->]; [|done]. by exists tag. }
  destruct Het as [t Het].
  assert (tagged_count (fun f => start_of f ∈ l1) ets
          < tagged_count (fun f => end_of f ∈ k :: l1) ets)%nat.
  { apply (tagged_count_lt _ _ ets e t); [|done|..].
    - intros f Hf Hs. apply Hl1 in Hs as [_ Hs].
      rewrite Hets in Hf. specialize (Hno f Hf).
      assert (Hno' : ~ (start_of f < k < end_of f)%Z)
        by (unfold k, start_of, end_of in *; lia).
      destruct (decide (end_of f = k)) as [->|Hne]; [set_solver|].
      apply elem_of_cons. right. apply Hl1. split; [|lia].
      apply Hdom. unfold bounds. apply elem_of_flat_map. exists f.
      split; [done|set_solver].
    - rewrite Hl1. lia.
    - set_solver. }
  simpl in Hloop. lia.
Qed.

Lemma negative_length_entity_raises_witness :
  exists err,
    convert (lit "abc") (Some [ent MessageEntityBold 2 (-1)]) (lit "md")
    = Raise err.
Proof.
  apply (negative_length_entity_raises _ _ _ (ent MessageEntityBold 2 (-1))).
  - set_solver.
  - reflexivity.
  - by vm_compute.
  - intros f Hf. apply list_elem_of_singleton in Hf as ->.
    vm_compute. intros [H _]. discriminate H.
Defined.

(** ** The syntax selector and two dictionary entries *)

Definition is_docuwiki (type : str) : Prop :=
  lower type = lit "docuwiki" \/ lower type = lit "dw".

Lemma set_syntax_dict_docuwiki type :
  is_docuwiki type -> set_syntax_dict type = docuwiki_dict.
Proof. intros H. unfold set_syntax_dict. by rewrite decide_True. Qed.

Lemma docuwiki_not_html type : is_docuwiki type -> ~ is_html type.
Proof. unfold is_html. intros [H|H]; rewrite H; discriminate. Qed.

(** Outside HTML a line break is one line break, whatever tags are
    open: the paragraph tag and the line-break tag of the three other
    dictionaries are the same. *)
Lemma break_text_other type o : ~ is_html type -> break_text type o = [NL].
Proof.
  intros H. unfold break_text, newline_tag.
  rewrite paragraph_tag_other, decide_False by done.
  destruct (code_tag _); [|done]. by destruct (bool_decide _).
Qed.

Lemma seg_char_other type o c :
  ~ is_html type -> seg_char type o c = text_char c.
Proof.
  intros H. unfold seg_char, text_char. rewrite break_text_other by done.
  destruct (decide (c = NL)); [done|apply escape_one].
Qed.

Lemma convert_one_entity_other pre mid post type e t :
  ~ is_html type ->
  Forall Utf16.scalar (pre ++ mid ++ post) ->
  mid <> [] -> head mid <> Some NL ->
  offset e = Utf16Facts.units pre ->
  length_ e = Utf16Facts.units mid ->
  entity_tag (set_syntax_dict type) (Utf16Facts.enc (pre ++ mid ++ post)) e
  = Ok (Some t) ->
  convert (pre ++ mid ++ post) (Some [e]) type
  = Ok (flat_map text_char pre ++ opening t ++ flat_map text_char mid
        ++ closing t ++ flat_map text_char post ++ [NL]).
Proof.
  intros Hty Hm Hmid Hhead Hoff Hlen Htag.
  rewrite (convert_one_entity pre mid post type e t) by done.
  rewrite wrap_paragraph, paragraph_tag_other by done.
  rewrite bool_decide_false by done. rewrite head_not_break by done.
  rewrite !(flat_map_ext _ _ (fun c => seg_char_other type _ c Hty)).
  cbn [lead opening closing app]. by rewrite <- !app_assoc.
Qed.

(** X18. Under markdown the link of a labeled URL is written with the
    scheme prefix [tel:] of a phone number before the escaped URL. *)
Theorem markdown_text_url_has_tel_prefix pre mid post type e :
  is_markdown type ->
  Forall Utf16.scalar (pre ++ mid ++ post) ->
  mid <> [] -> head mid <> Some NL ->
  kind e = MessageEntityTextUrl ->
  offset e = Utf16Facts.units pre ->
  length_ e = Utf16Facts.units mid ->
  convert (pre ++ mid ++ post) (Some [e]) type
  = Ok (flat_map text_char pre ++ lit "[" ++ flat_map text_char mid
        ++ (lit "](tel:" ++ escape (url e) ++ lit ")")
        ++ flat_map text_char post ++ [NL]).
Proof.
  intros Hty Hm Hmid Hhead Hk Hoff Hlen.
  apply (convert_one_entity_other pre mid post type e
           (Tag (lit "[") (lit "](tel:" ++ escape (url e) ++ lit ")")));
    try done.
  - by apply markdown_not_html.
  - unfold entity_tag. rewrite set_syntax_dict_markdown, Hk by done.
    rewrite (entity_text pre mid post e Hm Hoff Hlen). reflexivity.
Qed.

Lemma markdown_text_url_has_tel_prefix_witness :
  convert (lit "see docs now")
    (Some [Entity MessageEntityTextUrl 4 4 (lit "https://x.org/?a&b") [] 0])
    (lit "md")
  = Ok (lit "see [docs](tel:https://x.org/?a&amp;b) now" ++ [NL]).
Proof.
  apply (markdown_text_url_has_tel_prefix (lit "see ") (lit "docs")
           (lit " now")).
  - by right.
  - by_compute.
  - done.
  - done.
  - reflexivity.
  - reflexivity.
  - reflexivity.
Defined.

(** X19. Under docuwiki the closing text of a struck-through text is
    [</del>>], with a second [>] that no escaping produces. *)
Theorem docuwiki_strike_closing pre mid post type e :
  is_docuwiki type ->
  Forall Utf16.scalar (pre ++ mid ++ post) ->
  mid <> [] -> head mid <> Some NL ->
  kind e = MessageEntityStrike ->
  offset e = Utf16Facts.units pre ->
  length_ e = Utf16Facts.units mid ->
  convert (pre ++ mid ++ post) (Some [e]) type
  = Ok (flat_map text_char pre ++ lit "<del>" ++ flat_map text_char mid
        ++ lit "</del>>" ++ flat_map text_char post ++ [NL]).
Proof.
  intros Hty Hm Hmid Hhead Hk Hoff Hlen.
  apply (convert_one_entity_other pre mid post type e
           (Tag (lit "<del>") (lit "</del>>"))); try done.
  - by apply docuwiki_not_html.
  - apply entity_tag_static.
    rewrite set_syntax_dict_docuwiki, Hk by done. reflexivity.
Qed.

Lemma docuwiki_strike_closing_witness :
  convert (lit "an old idea") (Some [ent MessageEntityStrike 3 3]) (lit "DW")
  = Ok (lit "an <del>old</del>> idea" ++ [NL]).
Proof.
  apply (docuwiki_strike_closing (lit "an ") (lit "old") (lit " idea")).
  - by right.
  - by_compute.
  - done.
  - done.
  - reflexivity.
  - reflexivity.
  - reflexivity.
Defined.


